(** * llm-chat-mermaid-renderer: detector, renderer and toggle

    A shallow embedding of the content script of the extension
    (detector.ts, renderer.ts in its two revisions, toggle.ts in its two
    revisions, errorHandler.ts) and the properties of its specification.

    Strings are JavaScript strings whose code units lie below 256: a
    [string] of Rocq is a sequence of such code units.  On that range
    [String.prototype.trim] removes the code units 9-13, 32 and 160,
    the class [\s] of a regular expression holds the same code units, and
    [String.prototype.toLowerCase] moves A-Z and the capital letters of
    Latin-1 (192-222 but 215) by 32. *)

From Stdlib Require Import Bool Arith Lia List.
From Stdlib Require Import Ascii String.
From Stdlib Require DecimalString DecimalNat.
Import ListNotations.

Local Open Scope string_scope.
Local Open Scope nat_scope.
Local Open Scope list_scope.

Set Warnings "-register-all".

(** ** JavaScript strings *)

Module Js.

(** WhiteSpace and LineTerminator of ECMAScript, below 256. *)
Definition isWhiteSpace (c : ascii) : bool :=
  let n := nat_of_ascii c in
  ((9 <=? n) && (n <=? 13)) || (n =? 32) || (n =? 160).

Definition lowerChar (c : ascii) : ascii :=
  let n := nat_of_ascii c in
  if ((65 <=? n) && (n <=? 90))
     || ((192 <=? n) && (n <=? 222) && negb (n =? 215))
  then ascii_of_nat (n + 32) else c.

Fixpoint toLowerCase (s : string) : string :=
  match s with
  | EmptyString => EmptyString
  | String c r => String (lowerChar c) (toLowerCase r)
  end.

Fixpoint trimStart (s : string) : string :=
  match s with
  | EmptyString => EmptyString
  | String c r => if isWhiteSpace c then trimStart r else s
  end.

Fixpoint trimEnd (s : string) : string :=
  match s with
  | EmptyString => EmptyString
  | String c r =>
      match trimEnd r with
      | EmptyString => if isWhiteSpace c then EmptyString else String c EmptyString
      | r' => String c r'
      end
  end.

Definition trim (s : string) : string := trimEnd (trimStart s).

(** [s.split(/[\s\n]/)]: the pieces between single white-space code units;
    never the empty array. *)
Fixpoint split_ws (s : string) : list string :=
  match s with
  | EmptyString => [EmptyString]
  | String c r =>
      if isWhiteSpace c then EmptyString :: split_ws r
      else match split_ws r with
           | h :: t => String c h :: t
           | [] => [String c EmptyString]
           end
  end.

(** [a[0]], with [undefined] as [None]. *)
Definition first {A} (a : list A) : option A := hd_error a.

(** [Array.prototype.includes] on an array of strings; [undefined] is in
    no array of strings. *)
Definition array_includes (a : list string) (x : option string) : bool :=
  match x with
  | Some v => existsb (String.eqb v) a
  | None => false
  end.

(** [s.startsWith(p)] and [s.includes(p)]. *)
Fixpoint startsWith (s p : string) {struct p} : bool :=
  match p, s with
  | EmptyString, _ => true
  | String _ _, EmptyString => false
  | String a p', String b s' => Ascii.eqb a b && startsWith s' p'
  end.

Fixpoint includes (s p : string) : bool :=
  startsWith s p ||
  match s with
  | EmptyString => false
  | String _ r => includes r p
  end.

(** The tokens of a string between separators. *)
Fixpoint tokens (sep : ascii -> bool) (s : string) : list string :=
  match s with
  | EmptyString => []
  | String c r =>
      if sep c then tokens sep r
      else match r with
           | EmptyString => [String c EmptyString]
           | String c' _ =>
               if sep c' then String c EmptyString :: tokens sep r
               else match tokens sep r with
                    | h :: t => String c h :: t
                    | [] => [String c EmptyString]
                    end
           end
  end.

(** Template literal [`${n}`] for a counter. *)
Definition ofNumber (n : nat) : string :=
  DecimalString.NilZero.string_of_uint (Nat.to_uint n).

End Js.

(** ** The document *)

Module Dom.

(** Object identity of an element. *)
Definition Ref := nat.

(** What an element holds besides its children. *)
Record Element := {
  localName : string;
  attributes : list (string * string);
  display : string                       (* [style.display] *)
}.

(** The shape of a tree of nodes: an element with its child nodes, a text
    node, or the nodes that [innerHTML = html] parses out of [html], kept
    as the markup. *)
Inductive Tree :=
| Node (r : Ref) (childNodes : list Tree)
| Text (data : string)
| Markup (html : string).

Definition isRef (r : Ref) (n : Tree) : bool :=
  match n with
  | Node r' _ => r' =? r
  | _ => false
  end.

Fixpoint assoc (k : string) (l : list (string * string)) : option string :=
  match l with
  | [] => None
  | (k', v) :: t => if String.eqb k' k then Some v else assoc k t
  end.

Fixpoint assoc_set (k v : string) (l : list (string * string))
  : list (string * string) :=
  match l with
  | [] => [(k, v)]
  | (k', v') :: t =>
      if String.eqb k' k then (k, v) :: t else (k', v') :: assoc_set k v t
  end.

Definition getAttribute (e : Element) (name : string) : option string :=
  assoc name (attributes e).

Definition hasAttribute (e : Element) (name : string) : bool :=
  match getAttribute e name with Some _ => true | None => false end.

Definition withAttribute (name value : string) (e : Element) : Element :=
  {| localName := localName e;
     attributes := assoc_set name value (attributes e);
     display := display e |}.

Definition withDisplay (value : string) (e : Element) : Element :=
  {| localName := localName e;
     attributes := attributes e; display := value |}.

(** ASCII whitespace of HTML, which separates class names. *)
Definition isAsciiWhitespace (c : ascii) : bool :=
  let n := nat_of_ascii c in
  (n =? 9) || (n =? 10) || (n =? 12) || (n =? 13) || (n =? 32).

Definition classList (e : Element) : list string :=
  match getAttribute e "class" with
  | Some v => Js.tokens isAsciiWhitespace v
  | None => []
  end.

Definition classList_contains (e : Element) (c : string) : bool :=
  existsb (String.eqb c) (classList e).

(** [classList.add(c)]: the token set, serialized back. *)
Definition classList_add (c : string) (e : Element) : Element :=
  if classList_contains e c then e
  else withAttribute "class"
         (String.concat " " (classList e ++ [c])) e.

(** [node.textContent].  The text of parsed markup is not looked into: it
    reads as the markup. *)
Fixpoint textContent (n : Tree) : string :=
  match n with
  | Node _ ks => String.concat "" (map textContent ks)
  | Text d => d
  | Markup h => h
  end.

(** *** Selectors

    The selectors of the script are compound selectors joined by the
    descendant combinator. *)
Inductive Simple :=
| Tag (name : string)                     (* [name] *)
| Id (id : string)                        (* [#id] *)
| Class (c : string)                      (* [.c] *)
| AttrEq (name value : string)            (* [[name="value"]] *)
| AttrPrefix (name value : string).       (* [[name^="value"]] *)

Definition Compound := list Simple.
Definition Selector := list Compound.     (* outermost first *)

Definition matches_simple (e : Element) (s : Simple) : bool :=
  match s with
  | Tag t => String.eqb (localName e) t
  | Id i => match getAttribute e "id" with
            | Some v => String.eqb v i
            | None => false
            end
  | Class c => classList_contains e c
  | AttrEq a v => match getAttribute e a with
                  | Some x => String.eqb x v
                  | None => false
                  end
  | AttrPrefix a v => match getAttribute e a with
                      | Some x => negb (String.eqb v "") && Js.startsWith x v
                      | None => false
                      end
  end.

Section Matching.

(** The elements by their identity. *)
Variable elements : Ref -> Element.

Definition matches_compound (n : Tree) (c : Compound) : bool :=
  match n with
  | Node r _ => forallb (matches_simple (elements r)) c
  | _ => false
  end.

(** The compounds left of the subject, nearest first, against the
    ancestors, nearest first. *)
Fixpoint matches_ancestors (cs : list Compound) (up : list Tree) : bool :=
  match cs with
  | [] => true
  | c :: cs' =>
      (fix descend (up : list Tree) : bool :=
         match up with
         | [] => false
         | a :: up' =>
             (matches_compound a c && matches_ancestors cs' up')
             || descend up'
         end) up
  end.

(** [n.matches(sel)] for a node [n] below the ancestors [up]. *)
Definition matches (sel : Selector) (n : Tree) (up : list Tree) : bool :=
  match List.rev sel with
  | [] => false
  | c :: cs => matches_compound n c && matches_ancestors cs up
  end.

Definition chain_matches (sel : Selector) (ch : list Tree) : bool :=
  match ch with
  | n :: up => matches sel n up
  | [] => false
  end.

(** [closest] along a chain: the element itself first. *)
Fixpoint closest_in (sel : Selector) (ch : list Tree) : option Tree :=
  match ch with
  | [] => None
  | n :: up => if matches sel n up then Some n else closest_in sel up
  end.

End Matching.

(** *** Traversal

    A chain is an element followed by its ancestors, nearest first.
    [chains up n] lists the chains of the elements of [n], in document
    order, [up] being the ancestors of [n]. *)
Fixpoint chains (up : list Tree) (n : Tree) : list (list Tree) :=
  match n with
  | Node _ ks => (n :: up) :: flat_map (chains (n :: up)) ks
  | _ => []
  end.

Definition chain_ref (ch : list Tree) : option Ref :=
  match ch with
  | Node r _ :: _ => Some r
  | _ => None
  end.

Definition chain_isRef (r : Ref) (ch : list Tree) : bool :=
  match ch with
  | n :: _ => isRef r n
  | [] => false
  end.

Fixpoint refs_of (l : list (list Tree)) : list Ref :=
  match l with
  | [] => []
  | ch :: t => match chain_ref ch with
               | Some r => r :: refs_of t
               | None => refs_of t
               end
  end.

(** *** The world: the document and the trees outside it *)

Record World := {
  document : option Tree;                 (* the document element *)
  detached : list Tree;                   (* roots of the trees outside *)
  nextRef : Ref;
  elements : list (Ref * Element)         (* the last write first *)
}.

Definition blank : Element :=
  {| localName := ""; attributes := []; display := "" |}.

Fixpoint lookup (els : list (Ref * Element)) (r : Ref) : Element :=
  match els with
  | [] => blank
  | (r', e) :: rest => if r' =? r then e else lookup rest r
  end.

Definition element_of (w : World) (r : Ref) : Element :=
  lookup (elements w) r.

Definition document_chains (w : World) : list (list Tree) :=
  match document w with
  | Some root => chains [] root
  | None => []
  end.

Definition all_chains (w : World) : list (list Tree) :=
  document_chains w ++ flat_map (chains []) (detached w).

Definition chain_of (w : World) (r : Ref) : list Tree :=
  match find (chain_isRef r) (all_chains w) with
  | Some ch => ch
  | None => []
  end.

Definition node_of (w : World) (r : Ref) : option Tree :=
  hd_error (chain_of w r).

(** [document.querySelectorAll(sel)] *)
Definition querySelectorAll (w : World) (sel : Selector) : list Ref :=
  refs_of (filter (chain_matches (element_of w) sel) (document_chains w)).

(** [el.querySelector(sel)]: the first descendant of [el] that matches. *)
Definition querySelector (w : World) (el : Ref) (sel : Selector)
  : option Ref :=
  match chain_of w el with
  | n :: up =>
      match find (chain_matches (element_of w) sel) (tl (chains up n)) with
      | Some ch => chain_ref ch
      | None => None
      end
  | [] => None
  end.

(** [el.closest(sel)] *)
Definition closest (w : World) (el : Ref) (sel : Selector) : option Tree :=
  closest_in (element_of w) sel (chain_of w el).

(** [el.parentElement] *)
Definition parentElement (w : World) (el : Ref) : option Ref :=
  match chain_of w el with
  | _ :: Node p _ :: _ => Some p
  | _ => None
  end.

Definition textContent_of (w : World) (el : Ref) : string :=
  match node_of w el with
  | Some n => textContent n
  | None => ""
  end.

(** *** Mutation *)

(** Rewrite the children of the element [r] below [n]. *)
Fixpoint update (r : Ref) (f : list Tree -> list Tree) (n : Tree) : Tree :=
  match n with
  | Node r' ks => if r' =? r then Node r' (f ks)
                  else Node r' (map (update r f) ks)
  | _ => n
  end.

(** Take the element [r] out of its parent below [n]. *)
Fixpoint prune (r : Ref) (n : Tree) : Tree :=
  match n with
  | Node r' ks =>
      Node r' (flat_map (fun k => if isRef r k then [] else [prune r k]) ks)
  | _ => n
  end.

(** Put [m] where the element [r] is below [n]. *)
Fixpoint substitute (r : Ref) (m : Tree) (n : Tree) : Tree :=
  match n with
  | Node r' ks =>
      Node r' (map (fun k => if isRef r k then m else substitute r m k) ks)
  | _ => n
  end.

Definition set_shape (doc : option Tree) (roots : list Tree) (w : World)
  : World :=
  {| document := doc; detached := roots;
     nextRef := nextRef w; elements := elements w |}.

(** The document and the trees of [shape], the elements of [w]: only the
    shape of the trees changes when nodes move. *)
Definition reshape (shape w : World) : World :=
  set_shape (document shape) (detached shape) w.

Definition set_element (r : Ref) (e : Element) (w : World) : World :=
  {| document := document w; detached := detached w;
     nextRef := nextRef w;
     elements := (r, e) :: elements w |}.

Definition update_children (r : Ref) (f : list Tree -> list Tree)
  (w : World) : World :=
  set_shape (option_map (update r f) (document w))
            (map (update r f) (detached w)) w.

Definition update_element (r : Ref) (f : Element -> Element) (w : World)
  : World :=
  set_element r (f (element_of w r)) w.

Definition isDocumentElement (w : World) (r : Ref) : bool :=
  match document w with
  | Some root => isRef r root
  | None => false
  end.

(** Unlink the element [r] from its parent node, whichever it is. *)
Definition unlink (r : Ref) (w : World) : World :=
  set_shape
    (if isDocumentElement w r then None
     else option_map (prune r) (document w))
    (flat_map (fun k => if isRef r k then [] else [prune r k]) (detached w))
    w.

(** [document.createElement(localName)] *)
Definition createElement (name : string) (w : World) : Ref * World :=
  let r := nextRef w in
  (r, {| document := document w;
         detached := Node r [] :: detached w;
         nextRef := S r;
         elements :=
           (r, {| localName := name; attributes := []; display := "" |})
           :: elements w |}).

(** [parent.appendChild(child)] *)
Definition appendChild (parent child : Ref) (w : World) : World :=
  reshape
    match node_of w child with
    | Some n =>
        update_children parent (fun ks => ks ++ [n]) (unlink child w)
    | None => w
    end
    w.

(** [el.remove()]: the element leaves its parent and roots a tree of its
    own. *)
Definition remove (el : Ref) (w : World) : World :=
  reshape
    match node_of w el with
    | Some n =>
        let w' := unlink el w in
        set_shape (document w') (detached w' ++ [n]) w'
    | None => w
    end
    w.

(** [old.replaceWith(new)]: nothing happens when [old] has no parent. *)
Definition replaceWith (old new : Ref) (w : World) : World :=
  reshape
    (if existsb (isRef old) (detached w) then w
     else
       match node_of w new with
       | Some n =>
           let w1 := unlink new w in
           match node_of w1 old with
           | Some o =>
               set_shape
                 (if isDocumentElement w1 old then Some n
                  else option_map (substitute old n) (document w1))
                 (map (substitute old n) (detached w1) ++ [o])
                 w1
           | None => w
           end
       | None => w
       end)
    w.

Definition setAttribute (el : Ref) (name value : string) : World -> World :=
  update_element el (withAttribute name value).

(** [el.className = value] *)
Definition setClassName (el : Ref) (value : string) : World -> World :=
  setAttribute el "class" value.

(** [el.title = value] *)
Definition setTitle (el : Ref) (value : string) : World -> World :=
  setAttribute el "title" value.

(** [el.style.display = value] *)
Definition setDisplay (el : Ref) (value : string) : World -> World :=
  update_element el (withDisplay value).

(** [el.classList.add(c)] *)
Definition classListAdd (el : Ref) (c : string) : World -> World :=
  update_element el (classList_add c).

(** [el.textContent = value] *)
Definition setTextContent (el : Ref) (value : string) : World -> World :=
  update_children el (fun _ =>
    if String.eqb value "" then [] else [Text value]).

(** [el.innerHTML = html] *)
Definition setInnerHTML (el : Ref) (html : string) : World -> World :=
  update_children el (fun _ =>
    if String.eqb html "" then [] else [Markup html]).

End Dom.

(** ** detector.ts *)

Inductive Platform := chatgpt | claude | gemini | grok.

Definition Platform_eqb (a b : Platform) : bool :=
  match a, b with
  | chatgpt, chatgpt | claude, claude | gemini, gemini | grok, grok => true
  | _, _ => false
  end.

Inductive Detection := className | languageLabel | contentBased.

Record PlatformSelectors := {
  hostname : string;
  selectors_codeBlock : Dom.Selector;
  selectors_wrapper : Dom.Selector;
  selectors_languageLabel : option Dom.Selector;
  selectors_previewButton : option Dom.Selector;
  selectors_detection : Detection
}.

(** [selectors.platforms]: the entries in the order of their keys. *)
Definition Platforms := list (Platform * PlatformSelectors).

(** Modelled from the spec: config/selectors.json is not among the sources.
    Its entries are the ones that the unit tests of the detector and the
    README read back from it (host names, selectors, detection); the
    selector of the preview button of Grok is named nowhere and is left
    out. *)
Definition selectors_platforms : Platforms :=
  [ (chatgpt,
     {| hostname := "chatgpt.com";
        selectors_codeBlock :=
          [[Dom.Tag "pre"]; [Dom.Tag "code"; Dom.Class "language-mermaid"]];
        selectors_wrapper := [[Dom.Tag "pre"]];
        selectors_languageLabel := None;
        selectors_previewButton := None;
        selectors_detection := className |});
    (claude,
     {| hostname := "claude.ai";
        selectors_codeBlock :=
          [[Dom.Tag "pre"]; [Dom.Tag "code"; Dom.Class "language-mermaid"]];
        selectors_wrapper := [[Dom.Tag "pre"]];
        selectors_languageLabel := None;
        selectors_previewButton := None;
        selectors_detection := className |});
    (gemini,
     {| hostname := "gemini.google.com";
        selectors_codeBlock :=
          [[Dom.Tag "code"; Dom.AttrEq "data-test-id" "code-content"]];
        selectors_wrapper := [[Dom.Tag "pre"]];
        selectors_languageLabel := None;
        selectors_previewButton := None;
        selectors_detection := contentBased |});
    (grok,
     {| hostname := "grok.com";
        selectors_codeBlock :=
          [[Dom.AttrEq "data-testid" "code-block"];
           [Dom.Tag "pre"]; [Dom.Tag "code"]];
        selectors_wrapper := [[Dom.AttrEq "data-testid" "code-block"]];
        selectors_languageLabel := Some [[Dom.Class "text-secondary"]];
        selectors_previewButton := None;
        selectors_detection := languageLabel |}) ].

Record PlatformConfig := {
  platform : Platform;
  codeBlockSelector : Dom.Selector;
  wrapperSelector : Dom.Selector;
  detection : Detection;
  languageLabelSelector : option Dom.Selector;
  previewButtonSelector : option Dom.Selector
}.

Definition MERMAID_KEYWORDS : list string :=
  [ "graph"; "flowchart"; "sequencediagram"; "classdiagram"; "statediagram";
    "statediagram-v2"; "erdiagram"; "journey"; "gantt"; "pie";
    "quadrantchart"; "requirementdiagram"; "gitgraph"; "mindmap";
    "timeline"; "zenuml"; "sankey-beta"; "xychart-beta"; "block-beta" ].

Definition isMermaidContent (content : string) : bool :=
  let trimmed := Js.toLowerCase (Js.trim content) in
  let firstWord := Js.first (Js.split_ws trimmed) in
  Js.array_includes MERMAID_KEYWORDS firstWord.

(** [detectPlatform] over the entries [platforms] of the configuration. *)
Fixpoint detectPlatform_in (platforms : Platforms) (host : string)
  : option Platform :=
  match platforms with
  | [] => None
  | (key, config) :: rest =>
      if Js.includes host (hostname config) then Some key
      else detectPlatform_in rest host
  end.

Definition detectPlatform (host : string) : option Platform :=
  detectPlatform_in selectors_platforms host.

(** [selectors.platforms[platform]] *)
Fixpoint platforms_get (platforms : Platforms) (p : Platform)
  : option PlatformSelectors :=
  match platforms with
  | [] => None
  | (key, config) :: rest =>
      if Platform_eqb key p then Some config else platforms_get rest p
  end.

Definition getPlatformConfig_in (platforms : Platforms) (p : Platform)
  : option PlatformConfig :=
  match platforms_get platforms p with
  | None => None
  | Some config =>
      Some
        match selectors_detection config with
        | languageLabel =>
            {| platform := p;
               codeBlockSelector := selectors_codeBlock config;
               wrapperSelector := selectors_wrapper config;
               detection := languageLabel;
               languageLabelSelector := selectors_languageLabel config;
               previewButtonSelector := selectors_previewButton config |}
        | contentBased =>
            {| platform := p;
               codeBlockSelector := selectors_codeBlock config;
               wrapperSelector := selectors_wrapper config;
               detection := contentBased;
               languageLabelSelector := None;
               previewButtonSelector := None |}
        | className =>
            {| platform := p;
               codeBlockSelector := selectors_codeBlock config;
               wrapperSelector := selectors_wrapper config;
               detection := className;
               languageLabelSelector := None;
               previewButtonSelector := None |}
        end
  end.

Definition getPlatformConfig : Platform -> option PlatformConfig :=
  getPlatformConfig_in selectors_platforms.

(** [[data-mpr-processed="true"]] *)
Definition PROCESSED : Dom.Selector :=
  [[Dom.AttrEq "data-mpr-processed" "true"]].

(** A selector that is [undefined] reads as the type selector
    [undefined]. *)
Definition selector_or_undefined (s : option Dom.Selector) : Dom.Selector :=
  match s with
  | Some sel => sel
  | None => [[Dom.Tag "undefined"]]
  end.

Definition isSome {A} (o : option A) : bool :=
  match o with Some _ => true | None => false end.

(** [labelEl?.textContent?.trim().toLowerCase() === 'mermaid'] for the
    first descendant of [wrapper] that matches the label selector. *)
Definition labelIsMermaid (w : Dom.World) (config : PlatformConfig)
  (wrapper : Dom.Ref) : bool :=
  match Dom.querySelector w wrapper
          (selector_or_undefined (languageLabelSelector config)) with
  | Some labelEl =>
      String.eqb
        (Js.toLowerCase (Js.trim (Dom.textContent_of w labelEl))) "mermaid"
  | None => false
  end.

Definition isMermaidCodeBlock (w : Dom.World) (element : Dom.Ref)
  (config : PlatformConfig) : bool :=
  if isSome (Dom.closest w element PROCESSED) then false
  else
    match detection config with
    | className =>
        Dom.classList_contains (Dom.element_of w element) "language-mermaid"
    | contentBased => isMermaidContent (Dom.textContent_of w element)
    | languageLabel =>
        match Dom.closest w element (wrapperSelector config) with
        | Some (Dom.Node wrapper _) => labelIsMermaid w config wrapper
        | _ => false
        end
    end.

Definition findUnprocessedMermaidBlocks (w : Dom.World)
  (config : PlatformConfig) : list Dom.Ref :=
  match detection config with
  | className =>
      let blocks := Dom.querySelectorAll w (codeBlockSelector config) in
      filter (fun el => negb (isSome (Dom.closest w el PROCESSED))) blocks
  | contentBased =>
      let allBlocks := Dom.querySelectorAll w (codeBlockSelector config) in
      filter (fun el =>
                if isSome (Dom.closest w el PROCESSED) then false
                else isMermaidContent (Dom.textContent_of w el))
             allBlocks
  | languageLabel =>
      let allWrappers := Dom.querySelectorAll w (wrapperSelector config) in
      filter (fun wrapper =>
                if Dom.hasAttribute (Dom.element_of w wrapper)
                     "data-mpr-processed"
                then false
                else if isSome (Dom.closest w wrapper PROCESSED) then false
                else labelIsMermaid w config wrapper)
             allWrappers
  end.

(** ** The run-time state of the content script *)

(** What a rejected promise or a [throw] carries. *)
Inductive JsValue :=
| VError (message : string)              (* an instance of [Error] *)
| VNull
| VUndefined
| VString (s : string)
| VObject (toString : option string).    (* [None]: [String(v)] raises *)

(** The callbacks that the script hands to the page, each with the
    variables it closes over. *)
Inductive Timeout :=
| CleanupTimeout (renderId : string).
      (* [() => cleanupMermaidErrorElements(uniqueId)] *)

Inductive Listener :=
| ToggleClick (sourceEl renderedEl button : Dom.Ref) (showingSource : bool).

Inductive FrameCallback :=
| SweepFrame (config : PlatformConfig).

(** The locals of [renderMermaidBlock] while it awaits [mermaid.render]. *)
Record Suspended := {
  s_element : Dom.Ref;
  s_config : PlatformConfig;
  s_sourceCode : string;
  s_container : Dom.Ref;
  s_sourceWrapper : Dom.Ref;
  s_renderedDiv : Dom.Ref;
  s_uniqueId : string
}.

(** The calls that are counted. *)
Inductive Call :=
| CallRender (id sourceCode : string)
| CallCleanup (renderId : string).

Record State := {
  world : Dom.World;
  renderCounter : nat;
  timeouts : list Timeout;                (* [setTimeout] queue *)
  listeners : list (Dom.Ref * Listener);  (* [click] listeners *)
  observers : list PlatformConfig;        (* [MutationObserver]s *)
  frameCallbacks : list FrameCallback;    (* [requestAnimationFrame] list *)
  inflight : list Suspended;              (* renders awaited *)
  console : list string;
  trace : list Call;
  faults : list bool
    (* whether the next calls into the DOM and the renderer raise, one
       entry a call; no call raises once the list is used up *)
}.

Definition set_world (w : Dom.World) (st : State) : State :=
  {| world := w; renderCounter := renderCounter st;
     timeouts := timeouts st; listeners := listeners st;
     observers := observers st; frameCallbacks := frameCallbacks st;
     inflight := inflight st; console := console st; trace := trace st;
     faults := faults st |}.

Definition set_renderCounter (n : nat) (st : State) : State :=
  {| world := world st; renderCounter := n;
     timeouts := timeouts st; listeners := listeners st;
     observers := observers st; frameCallbacks := frameCallbacks st;
     inflight := inflight st; console := console st; trace := trace st;
     faults := faults st |}.

Definition set_timeouts (l : list Timeout) (st : State) : State :=
  {| world := world st; renderCounter := renderCounter st;
     timeouts := l; listeners := listeners st;
     observers := observers st; frameCallbacks := frameCallbacks st;
     inflight := inflight st; console := console st; trace := trace st;
     faults := faults st |}.

Definition set_listeners (l : list (Dom.Ref * Listener)) (st : State)
  : State :=
  {| world := world st; renderCounter := renderCounter st;
     timeouts := timeouts st; listeners := l;
     observers := observers st; frameCallbacks := frameCallbacks st;
     inflight := inflight st; console := console st; trace := trace st;
     faults := faults st |}.

Definition set_observers (l : list PlatformConfig) (st : State) : State :=
  {| world := world st; renderCounter := renderCounter st;
     timeouts := timeouts st; listeners := listeners st;
     observers := l; frameCallbacks := frameCallbacks st;
     inflight := inflight st; console := console st; trace := trace st;
     faults := faults st |}.

Definition set_frameCallbacks (l : list FrameCallback) (st : State)
  : State :=
  {| world := world st; renderCounter := renderCounter st;
     timeouts := timeouts st; listeners := listeners st;
     observers := observers st; frameCallbacks := l;
     inflight := inflight st; console := console st; trace := trace st;
     faults := faults st |}.

Definition set_inflight (l : list Suspended) (st : State) : State :=
  {| world := world st; renderCounter := renderCounter st;
     timeouts := timeouts st; listeners := listeners st;
     observers := observers st; frameCallbacks := frameCallbacks st;
     inflight := l; console := console st; trace := trace st;
     faults := faults st |}.

Definition set_console (l : list string) (st : State) : State :=
  {| world := world st; renderCounter := renderCounter st;
     timeouts := timeouts st; listeners := listeners st;
     observers := observers st; frameCallbacks := frameCallbacks st;
     inflight := inflight st; console := l; trace := trace st;
     faults := faults st |}.

Definition set_trace (l : list Call) (st : State) : State :=
  {| world := world st; renderCounter := renderCounter st;
     timeouts := timeouts st; listeners := listeners st;
     observers := observers st; frameCallbacks := frameCallbacks st;
     inflight := inflight st; console := console st; trace := l;
     faults := faults st |}.

Definition set_faults (l : list bool) (st : State) : State :=
  {| world := world st; renderCounter := renderCounter st;
     timeouts := timeouts st; listeners := listeners st;
     observers := observers st; frameCallbacks := frameCallbacks st;
     inflight := inflight st; console := console st; trace := trace st;
     faults := l |}.

(** *** Statements: state and exceptions *)

Inductive Completion (A : Type) :=
| Return (a : A)
| Throw (e : JsValue).

Arguments Return {A} a.
Arguments Throw {A} e.

Definition M (A : Type) : Type := State -> Completion A * State.

Definition ret {A} (a : A) : M A := fun st => (Return a, st).

Definition throw {A} (e : JsValue) : M A := fun st => (Throw e, st).

Definition bind {A B} (m : M A) (k : A -> M B) : M B :=
  fun st =>
    match m st with
    | (Return a, st') => k a st'
    | (Throw e, st') => (Throw e, st')
    end.

(** [try { m } catch (e) { handler e }] *)
Definition try_catch {A} (m : M A) (handler : JsValue -> M A) : M A :=
  fun st =>
    match m st with
    | (Return a, st') => (Return a, st')
    | (Throw e, st') => handler e st'
    end.

Declare Scope js_scope.
Delimit Scope js_scope with js.
Notation "x <- c1 ;; c2" := (bind c1 (fun x => c2))
  (at level 61, c1 at next level, right associativity) : js_scope.
Notation "' pat <- c1 ;; c2" := (bind c1 (fun pat => c2))
  (at level 61, pat pattern, c1 at next level, right associativity)
  : js_scope.
Notation "c1 ;; c2" := (bind c1 (fun _ => c2))
  (at level 61, right associativity) : js_scope.
Local Open Scope js_scope.

Definition get {A} (f : State -> A) : M A := fun st => (Return (f st), st).

Definition modify (f : State -> State) : M unit :=
  fun st => (Return tt, f st).

(** [a.forEach(f)] *)
Fixpoint forEach {A} (a : list A) (f : A -> M unit) : M unit :=
  match a with
  | [] => ret tt
  | x :: rest => f x ;; forEach rest f
  end.

(** A call that may raise: it does when the oracle says so. *)
Definition mayRaise : M unit :=
  fun st =>
    match faults st with
    | [] => (Return tt, st)
    | false :: rest => (Return tt, set_faults rest st)
    | true :: rest => (Throw (VError "raised"), set_faults rest st)
    end.

Definition readWorld {A} (f : Dom.World -> A) : M A :=
  get (fun st => f (world st)).

Definition writeWorld (f : Dom.World -> Dom.World) : M unit :=
  modify (fun st => set_world (f (world st)) st).

Module Document.

Definition createElement (name : string) : M Dom.Ref :=
  mayRaise ;;
  r <- readWorld (fun w => fst (Dom.createElement name w)) ;;
  writeWorld (fun w => snd (Dom.createElement name w)) ;;
  ret r.

Definition querySelectorAll (sel : Dom.Selector) : M (list Dom.Ref) :=
  mayRaise ;; readWorld (fun w => Dom.querySelectorAll w sel).

Definition querySelector (el : Dom.Ref) (sel : Dom.Selector)
  : M (option Dom.Ref) :=
  mayRaise ;; readWorld (fun w => Dom.querySelector w el sel).

Definition setAttribute (el : Dom.Ref) (name value : string) : M unit :=
  mayRaise ;; writeWorld (Dom.setAttribute el name value).

Definition appendChild (parent child : Dom.Ref) : M unit :=
  mayRaise ;; writeWorld (Dom.appendChild parent child).

Definition replaceWith (old new : Dom.Ref) : M unit :=
  mayRaise ;; writeWorld (Dom.replaceWith old new).

Definition classListAdd (el : Dom.Ref) (c : string) : M unit :=
  mayRaise ;; writeWorld (Dom.classListAdd el c).

Definition setInnerHTML (el : Dom.Ref) (html : string) : M unit :=
  mayRaise ;; writeWorld (Dom.setInnerHTML el html).

Definition remove (el : Dom.Ref) : M unit :=
  writeWorld (Dom.remove el).

Definition setClassName (el : Dom.Ref) (value : string) : M unit :=
  writeWorld (Dom.setClassName el value).

Definition setTitle (el : Dom.Ref) (value : string) : M unit :=
  writeWorld (Dom.setTitle el value).

Definition setDisplay (el : Dom.Ref) (value : string) : M unit :=
  writeWorld (Dom.setDisplay el value).

Definition setTextContent (el : Dom.Ref) (value : string) : M unit :=
  writeWorld (Dom.setTextContent el value).

Definition textContent (el : Dom.Ref) : M string :=
  readWorld (fun w => Dom.textContent_of w el).

Definition parentElement (el : Dom.Ref) : M (option Dom.Ref) :=
  readWorld (fun w => Dom.parentElement w el).

Definition addEventListener (el : Dom.Ref) (l : Listener) : M unit :=
  modify (fun st => set_listeners (listeners st ++ [(el, l)]) st).

Definition setTimeout (t : Timeout) : M unit :=
  modify (fun st => set_timeouts (timeouts st ++ [t]) st).

Definition requestAnimationFrame (c : FrameCallback) : M unit :=
  modify (fun st => set_frameCallbacks (frameCallbacks st ++ [c]) st).

Definition console_error (msg : string) : M unit :=
  modify (fun st => set_console (console st ++ [msg]) st).

Definition record (c : Call) : M unit :=
  modify (fun st => set_trace (trace st ++ [c]) st).

End Document.

(** ** errorHandler.ts *)

Record ParsedError := {
  userMessage : string;
  details : option string;
  originalError : string
}.

Module Regex.

Definition isDigit (c : ascii) : bool :=
  let n := nat_of_ascii c in (48 <=? n) && (n <=? 57).

Fixpoint takeDigits (s : string) : string :=
  match s with
  | EmptyString => EmptyString
  | String c r => if isDigit c then String c (takeDigits r) else EmptyString
  end.

(** The literal [lit] at the start of [s] under the flag [i], below 256:
    two code units are the same when they are once lower-cased.  The rest
    of [s] is returned. *)
Fixpoint literal_ci (lit s : string) : option string :=
  match lit, s with
  | EmptyString, _ => Some s
  | String _ _, EmptyString => None
  | String a lit', String b s' =>
      if Ascii.eqb (Js.lowerChar a) (Js.lowerChar b) then literal_ci lit' s'
      else None
  end.

(** The match array of [s.match(re)] for a pattern that matches as [here]
    does at the start of a string: the leftmost match. *)
Fixpoint search (here : string -> option (list string)) (s : string)
  : option (list string) :=
  match here s with
  | Some m => Some m
  | None => match s with
            | EmptyString => None
            | String _ r => search here r
            end
  end.

(** [/Parse error on line (\d+)/i] *)
Definition parse_error_on_line (s : string) : option (list string) :=
  match literal_ci "Parse error on line " s with
  | Some rest =>
      match takeDigits rest with
      | EmptyString => None
      | digits =>
          Some [String.append (String.substring 0 20 s) digits; digits]
      end
  | None => None
  end.

(** [/lit/i] for a literal [lit] *)
Definition literal (lit : string) (s : string) : option (list string) :=
  match literal_ci lit s with
  | Some _ => Some [String.substring 0 (String.length lit) s]
  | None => None
  end.

End Regex.

Inductive ErrorDetails :=
| Fixed (text : string)
| OfMatch (f : list string -> string).

Record ErrorPattern := {
  pattern : string -> option (list string);   (* the match at a position *)
  pattern_details : ErrorDetails
}.

Definition ERROR_PATTERNS : list ErrorPattern :=
  [ {| pattern := Regex.parse_error_on_line;
       pattern_details :=
         OfMatch (fun m => String.append "Syntax error on line "
                             (nth 1 m "undefined")) |};
    {| pattern := Regex.literal "Unknown diagram type";
       pattern_details := Fixed "Unsupported diagram type" |};
    {| pattern := Regex.literal "Syntax error in text";
       pattern_details := Fixed "Syntax error in diagram" |} ].

Definition errorToString (error : JsValue) : M string :=
  match error with
  | VError message => ret message
  | VNull => ret "null"
  | VUndefined => ret "undefined"
  | VString s => ret s
  | VObject (Some s) => ret s
  | VObject None =>
      throw (VError "Cannot convert object to primitive value")
  end.

Fixpoint firstPattern (ps : list ErrorPattern) (originalError : string)
  : ParsedError :=
  match ps with
  | [] => {| userMessage := "Failed to render diagram";
             details := None;
             originalError := originalError |}
  | p :: rest =>
      match Regex.search (pattern p) originalError with
      | Some m =>
          {| userMessage := "Failed to render diagram";
             details := Some match pattern_details p with
                             | OfMatch f => f m
                             | Fixed text => text
                             end;
             originalError := originalError |}
      | None => firstPattern rest originalError
      end
  end.

Definition parseErrorMessage (error : JsValue) : M ParsedError :=
  originalError <- errorToString error ;;
  ret (firstPattern ERROR_PATTERNS originalError).

Definition createErrorElement (parsedError : ParsedError) : M Dom.Ref :=
  container <- Document.createElement "div" ;;
  Document.setClassName container "mpr-error" ;;
  title <- Document.createElement "div" ;;
  Document.setClassName title "mpr-error-title" ;;
  Document.setTextContent title (userMessage parsedError) ;;
  Document.appendChild container title ;;
  detailsEl <- Document.createElement "div" ;;
  Document.setClassName detailsEl "mpr-error-details" ;;
  match details parsedError with
  | Some (String c r) => Document.setTextContent detailsEl (String c r)
  | _ => Document.setDisplay detailsEl "none"
  end ;;
  Document.appendChild container detailsEl ;;
  hint <- Document.createElement "div" ;;
  Document.setClassName hint "mpr-error-hint" ;;
  Document.setTextContent hint "Check the source code below" ;;
  Document.appendChild container hint ;;
  ret container.

(** ** toggle.ts *)

(** The label ['\u25B6'], written as the source writes it: its code unit
    is above the ones of the strings here. *)
Definition PLAY_ICON : string := "\u25B6".

Definition createToggleButton (sourceEl renderedEl : Dom.Ref)
  (initialShowSource : bool) : M Dom.Ref :=
  button <- Document.createElement "button" ;;
  Document.setClassName button "mpr-toggle" ;;
  Document.setAttribute button "aria-label"
    "Toggle between source code and diagram" ;;
  let showingSource := initialShowSource in
  (if showingSource then
     Document.setDisplay sourceEl "block" ;;
     Document.setDisplay renderedEl "block" ;;
     Document.setTextContent button PLAY_ICON ;;
     Document.setTitle button "Show diagram"
   else
     Document.setTextContent button "{ }" ;;
     Document.setTitle button "Show source code") ;;
  Document.addEventListener button
    (ToggleClick sourceEl renderedEl button showingSource) ;;
  ret button.

(** The listener of the button; it returns the [showingSource] it leaves
    in its closure. *)
Definition toggleClicked (sourceEl renderedEl button : Dom.Ref)
  (showingSource : bool) : M bool :=
  let showingSource := negb showingSource in
  (if showingSource then
     Document.setDisplay sourceEl "block" ;;
     Document.setDisplay renderedEl "none" ;;
     Document.setTextContent button PLAY_ICON ;;
     Document.setTitle button "Show diagram"
   else
     Document.setDisplay sourceEl "none" ;;
     Document.setDisplay renderedEl "block" ;;
     Document.setTextContent button "{ }" ;;
     Document.setTitle button "Show source code") ;;
  ret showingSource.

(** A click on [target] runs the listeners registered on it. *)
Fixpoint dispatchClick (target : Dom.Ref) (ls : list (Dom.Ref * Listener))
  : M (list (Dom.Ref * Listener)) :=
  match ls with
  | [] => ret []
  | (el, ToggleClick s r b showing) :: rest =>
      if el =? target then
        showing' <- toggleClicked s r b showing ;;
        rest' <- dispatchClick target rest ;;
        ret ((el, ToggleClick s r b showing') :: rest')
      else
        rest' <- dispatchClick target rest ;;
        ret ((el, ToggleClick s r b showing) :: rest')
  end.

Definition click (target : Dom.Ref) : M unit :=
  ls <- get listeners ;;
  ls' <- dispatchClick target ls ;;
  modify (set_listeners ls').

(** ** renderer.ts, the earlier revision: the helpers it shares *)

Module Previous.

Definition createPreservingWrapper (sourceCode : string)
  : M (Dom.Ref * Dom.Ref * Dom.Ref) :=
  container <- Document.createElement "div" ;;
  Document.setClassName container "mpr-container" ;;
  Document.setAttribute container "data-mpr-processed" "true" ;;
  sourceWrapper <- Document.createElement "pre" ;;
  Document.setClassName sourceWrapper "mpr-source" ;;
  Document.setDisplay sourceWrapper "none" ;;
  sourceCodeEl <- Document.createElement "code" ;;
  Document.setClassName sourceCodeEl "language-mermaid" ;;
  Document.setTextContent sourceCodeEl sourceCode ;;
  Document.appendChild sourceWrapper sourceCodeEl ;;
  renderedDiv <- Document.createElement "div" ;;
  Document.setClassName renderedDiv "mpr-rendered" ;;
  Document.appendChild container sourceWrapper ;;
  Document.appendChild container renderedDiv ;;
  ret (container, sourceWrapper, renderedDiv).

Definition extractSourceCode (element : Dom.Ref) (config : PlatformConfig)
  : M string :=
  if Platform_eqb (platform config) grok then
    codeEl <- Document.querySelector element
                [[Dom.Tag "pre"]; [Dom.Tag "code"]] ;;
    match codeEl with
    | Some c => text <- Document.textContent c ;; ret (Js.trim text)
    | None => ret ""
    end
  else
    text <- Document.textContent element ;; ret (Js.trim text).

Definition getWrapperToReplace (element : Dom.Ref) (config : PlatformConfig)
  : M Dom.Ref :=
  if Platform_eqb (platform config) grok then ret element
  else
    parent <- Document.parentElement element ;;
    match parent with
    | Some p => ret p
    | None => ret element
    end.

End Previous.

(** ** renderer.ts *)

Definition errorSelectors (renderId : string) : list Dom.Selector :=
  [ [[Dom.Id (String.append "d" renderId)]];
    [[Dom.Id renderId]];
    [[Dom.AttrPrefix "id" (String.append "d" renderId)]];
    [[Dom.Tag "svg"; Dom.AttrEq "aria-roledescription" "error";
      Dom.Id renderId]] ].

(** [renderId] is an identifier of CSS, as the ones that the script mints
    are. *)
Definition cleanupMermaidErrorElements (renderId : string) : M unit :=
  Document.record (CallCleanup renderId) ;;
  forEach (errorSelectors renderId) (fun selector =>
    try_catch
      (elements <- Document.querySelectorAll selector ;;
       forEach elements Document.remove)
      (fun _ => ret tt)).

Definition createPreservingWrapper (sourceCode : string)
  : M (Dom.Ref * Dom.Ref * Dom.Ref) :=
  container <- Document.createElement "div" ;;
  Document.setClassName container "mpr-container" ;;
  Document.setAttribute container "data-mpr-processed" "true" ;;
  sourceWrapper <- Document.createElement "pre" ;;
  Document.setClassName sourceWrapper "mpr-source" ;;
  Document.setDisplay sourceWrapper "none" ;;
  sourceCodeEl <- Document.createElement "code" ;;
  Document.setClassName sourceCodeEl "language-mermaid" ;;
  Document.setTextContent sourceCodeEl sourceCode ;;
  Document.appendChild sourceWrapper sourceCodeEl ;;
  renderedDiv <- Document.createElement "div" ;;
  Document.setClassName renderedDiv "mpr-rendered" ;;
  Document.appendChild container sourceWrapper ;;
  Document.appendChild container renderedDiv ;;
  ret (container, sourceWrapper, renderedDiv).

Definition extractSourceCode (element : Dom.Ref) (config : PlatformConfig)
  : M string :=
  if Platform_eqb (platform config) grok then
    codeEl <- Document.querySelector element
                [[Dom.Tag "pre"]; [Dom.Tag "code"]] ;;
    match codeEl with
    | Some c => text <- Document.textContent c ;; ret (Js.trim text)
    | None => ret ""
    end
  else
    text <- Document.textContent element ;; ret (Js.trim text).

Definition getWrapperToReplace (element : Dom.Ref) (config : PlatformConfig)
  : M Dom.Ref :=
  if Platform_eqb (platform config) grok then ret element
  else
    parent <- Document.parentElement element ;;
    match parent with
    | Some p => ret p
    | None => ret element
    end.

(** How the promise of [mermaid.render] settles. *)
Inductive Settled :=
| Resolved (svg : string)
| Rejected (err : JsValue).

(** Where a call of [renderMermaidBlock] stands when it gives control
    back: returned, or suspended at its [await]. *)
Inductive Progress :=
| Done (result : option Dom.Ref)
| Awaiting (k : Suspended).

(** The call [mermaid.render(id, sourceCode)] itself. *)
Definition mermaid_render (id sourceCode : string) : M unit :=
  Document.record (CallRender id sourceCode) ;; mayRaise.

(** The [catch] block of step 3. *)
Definition renderFailed (k : Suspended) (err : JsValue) : M unit :=
  cleanupMermaidErrorElements (s_uniqueId k) ;;
  Document.setTimeout (CleanupTimeout (s_uniqueId k)) ;;
  parsedError <- parseErrorMessage err ;;
  Document.setInnerHTML (s_renderedDiv k) "" ;;
  errorEl <- createErrorElement parsedError ;;
  Document.appendChild (s_renderedDiv k) errorEl ;;
  Document.classListAdd (s_renderedDiv k) "mpr-error-container".

(** Steps 4 and 5. *)
Definition attachAndCommit (k : Suspended) (hasError : bool)
  : M (option Dom.Ref) :=
  toggleBtn <- createToggleButton (s_sourceWrapper k) (s_renderedDiv k)
                 hasError ;;
  Document.appendChild (s_container k) toggleBtn ;;
  wrapperToReplace <- getWrapperToReplace (s_element k) (s_config k) ;;
  Document.replaceWith wrapperToReplace (s_container k) ;;
  ret (Some (s_container k)).

Definition outerCatch {A} (null : A) (error : JsValue) : M A :=
  Document.console_error "[MPR] Render error:" ;; ret null.

(** [renderMermaidBlock] from its call to its [await]. *)
Definition renderMermaidBlock_start (element : Dom.Ref)
  (config : PlatformConfig) : M Progress :=
  try_catch
    (sourceCode <- extractSourceCode element config ;;
     if String.eqb sourceCode "" then ret (Done None)
     else
       ' (container, sourceWrapper, renderedDiv) <-
         createPreservingWrapper sourceCode ;;
       n <- get renderCounter ;;
       modify (set_renderCounter (S n)) ;;
       let uniqueId := String.append "mpr-diagram-" (Js.ofNumber (S n)) in
       let k := {| s_element := element; s_config := config;
                   s_sourceCode := sourceCode; s_container := container;
                   s_sourceWrapper := sourceWrapper;
                   s_renderedDiv := renderedDiv;
                   s_uniqueId := uniqueId |} in
       hasError <- try_catch
                     (mermaid_render uniqueId sourceCode ;; ret false)
                     (fun err => renderFailed k err ;; ret true) ;;
       if (hasError : bool) then
         result <- attachAndCommit k true ;; ret (Done result)
       else ret (Awaiting k))
    (outerCatch (Done None)).

(** [renderMermaidBlock] from the settlement of the promise on. *)
Definition renderMermaidBlock_resume (k : Suspended) (r : Settled)
  : M (option Dom.Ref) :=
  try_catch
    (hasError <- try_catch
                   (match r with
                    | Resolved svg =>
                        Document.setInnerHTML (s_renderedDiv k) svg ;;
                        ret false
                    | Rejected err => throw err
                    end)
                   (fun err => renderFailed k err ;; ret true) ;;
     attachAndCommit k hasError)
    (outerCatch None).

(** [renderMermaidBlock] when the promise settles as [r] with nothing else
    running in between. *)
Definition renderMermaidBlock (element : Dom.Ref) (config : PlatformConfig)
  (r : Settled) : M (option Dom.Ref) :=
  p <- renderMermaidBlock_start element config ;;
  match p with
  | Done result => ret result
  | Awaiting k => renderMermaidBlock_resume k r
  end.

(** [(block) => renderMermaidBlock(block, config)], the promise dropped. *)
Definition renderMermaidBlock_call (config : PlatformConfig)
  (block : Dom.Ref) : M unit :=
  p <- renderMermaidBlock_start block config ;;
  match p with
  | Done _ => ret tt
  | Awaiting k => modify (fun st => set_inflight (inflight st ++ [k]) st)
  end.

Definition processExistingBlocks (config : PlatformConfig) : M unit :=
  blocks <- readWorld (fun w => findUnprocessedMermaidBlocks w config) ;;
  forEach blocks (renderMermaidBlock_call config).

(** The callback of the observer. *)
Definition mutationCallback (config : PlatformConfig) : M unit :=
  Document.requestAnimationFrame (SweepFrame config).

Definition frameCallback (c : FrameCallback) : M unit :=
  match c with
  | SweepFrame config =>
      blocks <- readWorld (fun w => findUnprocessedMermaidBlocks w config) ;;
      forEach blocks (renderMermaidBlock_call config)
  end.

Definition setupMutationObserver (config : PlatformConfig) : M unit :=
  modify (fun st => set_observers (observers st ++ [config]) st).

(** The call [mermaid.initialize({...})]. *)
Definition mermaid_initialize : M unit := mayRaise.

Definition initRenderer (config : PlatformConfig) : M unit :=
  mermaid_initialize ;;
  processExistingBlocks config ;;
  setupMutationObserver config.

(** ** The event loop of the page *)

Inductive Event :=
| MutationsObserved                       (* mutation records delivered *)
| AnimationFrame                          (* the frame callbacks run *)
| RenderSettled (i : nat) (r : Settled)   (* an awaited render settles *)
| TimeoutFired                            (* the first timeout runs *)
| Click (target : Dom.Ref).

Definition exec {A} (m : M A) (st : State) : State := snd (m st).

Fixpoint removeNth {A} (i : nat) (l : list A) : list A :=
  match i, l with
  | _, [] => []
  | 0, _ :: t => t
  | S j, x :: t => x :: removeNth j t
  end.

Definition step (ev : Event) (st : State) : State :=
  match ev with
  | MutationsObserved =>
      fold_left (fun st config => exec (mutationCallback config) st)
                (observers st) st
  | AnimationFrame =>
      fold_left (fun st c => exec (frameCallback c) st)
                (frameCallbacks st) (set_frameCallbacks [] st)
  | RenderSettled i r =>
      match nth_error (inflight st) i with
      | Some k =>
          exec (renderMermaidBlock_resume k r)
               (set_inflight (removeNth i (inflight st)) st)
      | None => st
      end
  | TimeoutFired =>
      match timeouts st with
      | CleanupTimeout renderId :: rest =>
          exec (cleanupMermaidErrorElements renderId) (set_timeouts rest st)
      | [] => st
      end
  | Click target => exec (click target) st
  end.

Definition run (evs : list Event) (st : State) : State :=
  fold_left (fun st ev => step ev st) evs st.

(** ** renderer.ts, the diagram container of Grok *)

Definition createGrokDiagramContainer (sourceCode : string) : M Dom.Ref :=
  container <- Document.createElement "div" ;;
  Document.setClassName container "mpr-grok-diagram" ;;
  Document.setDisplay container "none" ;;
  sourceWrapper <- Document.createElement "pre" ;;
  Document.setClassName sourceWrapper "mpr-source" ;;
  Document.setDisplay sourceWrapper "none" ;;
  sourceCodeEl <- Document.createElement "code" ;;
  Document.setClassName sourceCodeEl "language-mermaid" ;;
  Document.setTextContent sourceCodeEl sourceCode ;;
  Document.appendChild sourceWrapper sourceCodeEl ;;
  renderedDiv <- Document.createElement "div" ;;
  Document.setClassName renderedDiv "mpr-rendered" ;;
  Document.appendChild container sourceWrapper ;;
  Document.appendChild container renderedDiv ;;
  ret container.

Section ToggleGrok.

(** [el instanceof HTMLElement]: the world does not tell the elements of
    HTML from those of SVG and MathML. *)
Variable isHTMLElement : Dom.Ref -> bool.

(** [codeContainer] is [null] as [None]. *)
Definition toggleGrokDiagram (diagramContainer : Dom.Ref)
  (codeContainer : option Dom.Ref) : M unit :=
  display <- readWorld (fun w =>
               Dom.display (Dom.element_of w diagramContainer)) ;;
  let isShowingDiagram := negb (String.eqb display "none") in
  if isShowingDiagram then
    Document.setDisplay diagramContainer "none" ;;
    match codeContainer with
    | Some code =>
        if isHTMLElement code then Document.setDisplay code "" else ret tt
    | None => ret tt
    end
  else
    Document.setDisplay diagramContainer "" ;;
    match codeContainer with
    | Some code =>
        if isHTMLElement code then Document.setDisplay code "none"
        else ret tt
    | None => ret tt
    end.

End ToggleGrok.

(** ** mermaidLoader.ts, the bundled loader *)

(** [console.log(msg, ...)]: the line goes to the console as the lines of
    [console.error] do. *)
Definition console_log (msg : string) : M unit :=
  modify (fun st => set_console (console st ++ [msg]) st).

(** How the promise of [loadMermaidLibrary] settles. *)
Inductive Loaded :=
| LoadResolved
| LoadRejected (error : JsValue).

(** [loadMermaidLibrary]: it returns [Promise.resolve()]. *)
Definition loadMermaidLibrary : M Loaded :=
  console_log "[MPR] Mermaid loaded from bundle" ;;
  ret LoadResolved.

(** ** index.ts *)

Definition platformName (p : Platform) : string :=
  match p with
  | chatgpt => "chatgpt"
  | claude => "claude"
  | gemini => "gemini"
  | grok => "grok"
  end.

(** [main] with [window.location.hostname] as [hostname].  The promise
    of the bundled loader is resolved when it is awaited, and nothing else
    of the script runs in between. *)
Definition main (hostname : string) : M unit :=
  match detectPlatform hostname with
  | None => console_log "[MPR] Unsupported platform:"
  | Some platform =>
      if Platform_eqb platform grok then
        console_log
          "[MPR] Grok detected - skipping (has native mermaid support)"
      else
        console_log
          (String.append "[MPR] Detected platform: " (platformName platform)) ;;
        loaded <- try_catch loadMermaidLibrary
                    (fun error => ret (LoadRejected error)) ;;
        match loaded with
        | LoadRejected error =>
            Document.console_error "[MPR] Failed to load Mermaid:"
        | LoadResolved =>
            match getPlatformConfig platform with
            | None =>
                (* [config] is [undefined]: reading [config.detection] *)
                throw (VError "Cannot read properties of undefined")
            | Some config =>
                initRenderer config ;;
                console_log "[MPR] Renderer initialized"
            end
        end
  end.

(** ** The vocabulary of the specification *)

(** *** Content classification *)

(** The first of the tokens that white space delimits. *)
Definition firstToken (s : string) : option string :=
  hd_error (Js.tokens Js.isWhiteSpace s).

(** The words of the specification: the first white-space-delimited token
    of the trimmed, lower-cased text is a diagram keyword. *)
Definition looksLikeDiagram (text : string) : Prop :=
  exists token,
    firstToken (Js.toLowerCase (Js.trim text)) = Some token
    /\ In token MERMAID_KEYWORDS.

Inductive WhiteSpace := TAB | LF | VT | FF | CR | SP | NBSP.

Definition whiteSpace (c : WhiteSpace) : ascii :=
  ascii_of_nat
    match c with
    | TAB => 9 | LF => 10 | VT => 11 | FF => 12 | CR => 13
    | SP => 32 | NBSP => 160
    end.

Fixpoint whiteSpaces (l : list WhiteSpace) : string :=
  match l with
  | [] => EmptyString
  | c :: t => String (whiteSpace c) (whiteSpaces t)
  end.

(** The other case of a letter. *)
Definition flipCase (c : ascii) : ascii :=
  let n := nat_of_ascii c in
  if ((65 <=? n) && (n <=? 90))
     || ((192 <=? n) && (n <=? 222) && negb (n =? 215))
  then ascii_of_nat (n + 32)
  else if ((97 <=? n) && (n <=? 122))
          || ((224 <=? n) && (n <=? 254) && negb (n =? 247))
  then ascii_of_nat (n - 32)
  else c.

(** [s] with the case of its letters flipped where [mask] says so. *)
Fixpoint recase (mask : list bool) (s : string) : string :=
  match s, mask with
  | EmptyString, _ => EmptyString
  | String c r, [] => s
  | String c r, b :: m => String (if b then flipCase c else c) (recase m r)
  end.

(** *** Platform identification *)

(** [p] is a substring of [s]. *)
Definition contains (s p : string) : Prop :=
  exists a b, s = (a ++ p ++ b)%string.

Definition hostnameMatches (host : string)
  (entry : Platform * PlatformSelectors) : bool :=
  Js.includes host (hostname (snd entry)).

(** *** Discovery *)

(** The marker that [createPreservingWrapper] puts on a container. *)
Definition carriesProcessedMarker (w : Dom.World) (n : Dom.Tree) : Prop :=
  match n with
  | Dom.Node r _ =>
      Dom.getAttribute (Dom.element_of w r) "data-mpr-processed"
      = Some "true"
  | _ => False
  end.

(** A chain of nodes in which each one is a child node of the next. *)
Inductive Ancestry : list Dom.Tree -> Prop :=
| ancestry_root (root : Dom.Tree) : Ancestry [root]
| ancestry_child (n : Dom.Tree) (r : Dom.Ref) (ks up : list Dom.Tree) :
    In n ks -> Ancestry (Dom.Node r ks :: up) ->
    Ancestry (n :: Dom.Node r ks :: up).

(** The chain ends at the document element. *)
Definition rootedInDocument (w : Dom.World) (chain : list Dom.Tree) : Prop :=
  hd_error (List.rev chain) = Dom.document w /\ chain <> [].

(** *** Worlds in which the references not yet handed out are unused *)

Fixpoint tree_refs (t : Dom.Tree) : list Dom.Ref :=
  match t with
  | Dom.Node r ks => r :: flat_map tree_refs ks
  | _ => []
  end.

Definition bounded (k : Dom.Ref) (t : Dom.Tree) : bool :=
  forallb (fun r => r <? k) (tree_refs t).

Definition roots (w : Dom.World) : list Dom.Tree :=
  match Dom.document w with
  | Some d => d :: Dom.detached w
  | None => Dom.detached w
  end.

Definition wellFormed (w : Dom.World) : bool :=
  forallb (bounded (Dom.nextRef w)) (roots w).

Definition absent (r : Dom.Ref) (t : Dom.Tree) : Prop :=
  ~ In r (tree_refs t).

(** *** Visibility *)

Definition visible (w : Dom.World) (el : Dom.Ref) : bool :=
  negb (String.eqb (Dom.display (Dom.element_of w el)) "none").

(** *** The script as functions of the world

    What each function of the script does to the world when no call
    raises. *)

Section WorldFunctions.
Import Dom.

(** The world that [createPreservingWrapper] leaves when no call raises. *)
Definition wrapperWorld (sourceCode : string) (w : World) : World :=
  let container := nextRef w in
  let sourceWrapper := S container in
  let sourceCodeEl := S sourceWrapper in
  let renderedDiv := S sourceCodeEl in
  let w := snd (createElement "div" w) in
  let w := setClassName container "mpr-container" w in
  let w := setAttribute container "data-mpr-processed" "true" w in
  let w := snd (createElement "pre" w) in
  let w := setClassName sourceWrapper "mpr-source" w in
  let w := setDisplay sourceWrapper "none" w in
  let w := snd (createElement "code" w) in
  let w := setClassName sourceCodeEl "language-mermaid" w in
  let w := setTextContent sourceCodeEl sourceCode w in
  let w := appendChild sourceWrapper sourceCodeEl w in
  let w := snd (createElement "div" w) in
  let w := setClassName renderedDiv "mpr-rendered" w in
  let w := appendChild container sourceWrapper w in
  appendChild container renderedDiv w.

(** What [extractSourceCode] returns. *)
Definition sourceOf (w : World) (element : Ref) (config : PlatformConfig)
  : string :=
  if Platform_eqb (platform config) grok then
    match querySelector w element [[Tag "pre"]; [Tag "code"]] with
    | Some codeEl => Js.trim (textContent_of w codeEl)
    | None => ""
    end
  else Js.trim (textContent_of w element).

(** What [getWrapperToReplace] returns. *)
Definition wrapperOf (w : World) (element : Ref) (config : PlatformConfig)
  : Ref :=
  if Platform_eqb (platform config) grok then element
  else match parentElement w element with
       | Some parent => parent
       | None => element
       end.

(** The world that [cleanupMermaidErrorElements] leaves when no call
    raises. *)
Definition removeAll (sel : Selector) (w : World) : World :=
  fold_left (fun w el => remove el w) (querySelectorAll w sel) w.

Definition cleanupWorld (renderId : string) (w : World) : World :=
  fold_left (fun w sel => removeAll sel w) (errorSelectors renderId) w.

(** The world that [createErrorElement] leaves when no call raises. *)
Definition errorElementWorld (parsedError : ParsedError) (w : World)
  : World :=
  let container := nextRef w in
  let title := S container in
  let detailsEl := S title in
  let hint := S detailsEl in
  let w := snd (createElement "div" w) in
  let w := setClassName container "mpr-error" w in
  let w := snd (createElement "div" w) in
  let w := setClassName title "mpr-error-title" w in
  let w := setTextContent title (userMessage parsedError) w in
  let w := appendChild container title w in
  let w := snd (createElement "div" w) in
  let w := setClassName detailsEl "mpr-error-details" w in
  let w := match details parsedError with
           | Some (String c r) => setTextContent detailsEl (String c r) w
           | _ => setDisplay detailsEl "none" w
           end in
  let w := appendChild container detailsEl w in
  let w := snd (createElement "div" w) in
  let w := setClassName hint "mpr-error-hint" w in
  let w := setTextContent hint "Check the source code below" w in
  appendChild container hint w.

(** The world that [createToggleButton] leaves when no call raises. *)
Definition toggleWorld (sourceEl renderedEl : Ref) (initialShowSource : bool)
  (w : World) : World :=
  let button := nextRef w in
  let w := snd (createElement "button" w) in
  let w := setClassName button "mpr-toggle" w in
  let w := setAttribute button "aria-label"
             "Toggle between source code and diagram" w in
  if initialShowSource then
    setTitle button "Show diagram"
      (setTextContent button PLAY_ICON
         (setDisplay renderedEl "block" (setDisplay sourceEl "block" w)))
  else
    setTitle button "Show source code" (setTextContent button "{ }" w).

(** The world that the [catch] block of step 3 leaves. *)
Definition failedWorld (k : Suspended) (parsedError : ParsedError)
  (w : World) : World :=
  let w := cleanupWorld (s_uniqueId k) w in
  let w := setInnerHTML (s_renderedDiv k) "" w in
  let errorEl := nextRef w in
  let w := errorElementWorld parsedError w in
  let w := appendChild (s_renderedDiv k) errorEl w in
  classListAdd (s_renderedDiv k) "mpr-error-container" w.

(** The world that steps 4 and 5 leave. *)
Definition committedWorld (k : Suspended) (hasError : bool) (w : World)
  : World :=
  let toggleBtn := nextRef w in
  let w := toggleWorld (s_sourceWrapper k) (s_renderedDiv k) hasError w in
  let w := appendChild (s_container k) toggleBtn w in
  replaceWith (wrapperOf w (s_element k) (s_config k)) (s_container k) w.

(** An error that [String(error)] can print. *)
Definition printable (error : JsValue) : option string :=
  match error with
  | VError message => Some message
  | VNull => Some "null"
  | VUndefined => Some "undefined"
  | VString s => Some s
  | VObject s => s
  end.

End WorldFunctions.

(** *** Frames: the trees of a call beside an older world *)

Section Frames.
Import Dom.

(** [base] with the trees [locals] beside it, [k] the next reference and
    [els] the writes since. *)
Definition frame (locals : list Tree) (k : Ref) (els : list (Ref * Element))
  (base : World) : World :=
  {| document := document base;
     detached := locals ++ detached base;
     nextRef := k;
     elements := els ++ elements base |}.

(** [appendChild] among the trees [locals]. *)
Definition local_append (parent child : Ref) (locals : list Tree)
  : list Tree :=
  match find (chain_isRef child) (flat_map (chains []) locals) with
  | Some (n :: _) =>
      map (update parent (fun ks => ks ++ [n]))
          (flat_map (fun t => if isRef child t then [] else [prune child t])
                    locals)
  | _ => locals
  end.

(** Every reference of the trees of [w] is below [n]. *)
Definition old (n : Ref) (w : World) : Prop :=
  forallb (bounded n) (roots w) = true.

(** Every reference of [locals] and every key of [els] is [n] at least. *)
Definition fresh (n : Ref) (locals : list Tree) (els : list (Ref * Element))
  : Prop :=
  Forall (fun t => Forall (fun r => n <= r) (tree_refs t)) locals
  /\ Forall (fun e => n <= fst e) els.

(** The element [r] is below the root of [t]. *)
Fixpoint below (r : Ref) (t : Tree) : bool :=
  match t with
  | Node _ ks => existsb (fun k => isRef r k || below r k) ks
  | _ => false
  end.

(** The locals of [renderMermaidBlock] at its [await], in the state [st]. *)
Definition suspendedAt (st : State) (element : Ref) (config : PlatformConfig)
  : Suspended :=
  let n := nextRef (world st) in
  {| s_element := element; s_config := config;
     s_sourceCode := sourceOf (world st) element config;
     s_container := n;
     s_sourceWrapper := S n;
     s_renderedDiv := S (S (S n));
     s_uniqueId :=
       String.append "mpr-diagram-" (Js.ofNumber (S (renderCounter st))) |}.

(** The artifact holds the source text [src]: its first child is the
    source region, marked [mpr-source], whose one child is a [code] element
    marked [language-mermaid] with the text content [src]. *)
Definition holdsSource (w : World) (artifact : Tree) (src : string) : Prop :=
  exists container region code others,
    artifact = Node container (Node region [code] :: others)
    /\ classList_contains (element_of w region) "mpr-source" = true
    /\ (exists r kids,
           code = Node r kids
           /\ localName (element_of w r) = "code"
           /\ classList_contains (element_of w r) "language-mermaid" = true)
    /\ textContent code = src.

Definition sourceRegionOf (artifact : Tree) : option Ref :=
  match artifact with
  | Node _ (Node region _ :: _) => Some region
  | _ => None
  end.

Definition displayRegionOf (artifact : Tree) : option Tree :=
  match artifact with
  | Node _ (_ :: display :: _) => Some display
  | _ => None
  end.

End Frames.

(** *** What is left in the document, and what is caught *)

Section Outcomes.
Import Dom.

(** The elements that are in the document. *)
Definition documentRefs (w : World) : list Ref :=
  refs_of (document_chains w).


(** The calls of [extractSourceCode] that can raise. *)
Definition extractionCalls (config : PlatformConfig) : nat :=
  if Platform_eqb (platform config) grok then 1 else 0.

(** The outcome of processing a candidate whose render resolves, when the
    [j]th call to the page (from 0) is the one that raises: the calls are
    those of the extraction, the 8 of the shell, [mermaid.render], the
    assignment to [innerHTML], the 2 of the toggle and the 2 of the
    commit. *)
Definition outcomeAt (config : PlatformConfig) (j : nat) (container : Ref)
  : option Ref :=
  let e := extractionCalls config in
  if j <? e + 8 then None
  else if j <? e + 10 then Some container
  else if j <? e + 14 then None
  else Some container.

End Outcomes.

(** *** The vocabulary of further properties *)

Section Further.
Import Dom.

(** The render ids, in the order of the calls of [mermaid.render]. *)
Definition renderIds (calls : list Call) : list string :=
  flat_map (fun c => match c with
                     | CallRender id _ => [id]
                     | CallCleanup _ => []
                     end) calls.

(** The render id that the counter [n] gives. *)
Definition renderIdOf (n : nat) : string :=
  String.append "mpr-diagram-" (Js.ofNumber n).

(** From [st] to [st'] the counter went up by the number of renders that
    were called, each with the id of the counter at its call. *)
Definition minted (st st' : State) : Prop :=
  exists k,
    renderCounter st' = renderCounter st + k
    /\ renderIds (trace st')
       = renderIds (trace st)
         ++ map renderIdOf (seq (S (renderCounter st)) k).

(** A statement that calls no render and leaves the counter. *)
Definition Quiet {A} (m : M A) : Prop :=
  forall st,
    renderCounter (snd (m st)) = renderCounter st
    /\ renderIds (trace (snd (m st))) = renderIds (trace st).

(** A statement that calls the render once, with [id]. *)
Definition Renders {A} (id : string) (m : M A) : Prop :=
  forall st,
    renderCounter (snd (m st)) = renderCounter st
    /\ renderIds (trace (snd (m st))) = renderIds (trace st) ++ [id].

Definition Minting {A} (m : M A) : Prop :=
  forall st, minted st (snd (m st)).

(** The render ids of the calls of the cleanup, in their order. *)
Definition cleanupIds (calls : list Call) : list string :=
  flat_map (fun c => match c with
                     | CallCleanup id => [id]
                     | CallRender _ _ => []
                     end) calls.

Section Intact.

(** The state [st0] in which a candidate starts to be processed: its world
    and the references it has not handed out. *)
Variable st0 : State.
Let w0 := world st0.
Let n := nextRef w0.

(** The page of [st0] is intact in [st]: the world of [st] is a world
    [base] with fresh trees beside it and writes to fresh elements only;
    [base] has the elements of [w0] and no element in its document that
    [w0] has not; and [base] is [w0] but for what the cleanup removed
    ([called]: a cleanup was called since [st0]). *)
Definition Intact (called : bool) (st : State) : Prop :=
  exists base L k E extra,
    world st = frame L k E base
    /\ fresh n L E /\ n <= k /\ old n base
    /\ elements base = elements w0
    /\ incl (documentRefs base) (documentRefs w0)
    /\ cleanupIds (trace st) = (cleanupIds (trace st0) ++ extra)%list
    /\ (if called then extra <> [] else True)
    /\ (extra = [] ->
        document base = document w0 /\ detached base = detached w0).

(** [m], run where [P] holds, returns where [Q] holds or throws where
    [X] holds. *)
Definition Triple {A} (P : State -> Prop) (m : M A)
  (Q : A -> State -> Prop) (X : State -> Prop) : Prop :=
  forall st, P st ->
    match m st with
    | (Return a, st') => Q a st'
    | (Throw _, st') => X st'
    end.

(** The references that the statements after an [await] hold are fresh. *)
Definition freshLocals (k : Suspended) : Prop :=
  n <= s_container k /\ n <= s_sourceWrapper k /\ n <= s_renderedDiv k.

(** Where [renderMermaidBlock] is after its first part. *)
Definition started (p : Progress) (st : State) : Prop :=
  match p with
  | Done None => Intact false st
  | Done (Some _) => True
  | Awaiting k => freshLocals k /\ Intact false st
  end.

End Intact.

(** *** The phrases of an error message *)

(** The same text but for the case of its letters. *)
Definition sameLetters (a b : string) : Prop :=
  Js.toLowerCase a = Js.toLowerCase b.

(** [phrase], in any case, is in [s] after [before] and followed by
    [after]. *)
Definition occursAt (phrase before after s : string) : Prop :=
  exists found,
    s = (before ++ found ++ after)%string /\ sameLetters found phrase.

Definition occurs (phrase s : string) : Prop :=
  exists before after, occursAt phrase before after s.

Definition startsWithDigit (s : string) : Prop :=
  match s with
  | String c _ => Regex.isDigit c = true
  | EmptyString => False
  end.

Fixpoint allDigits (s : string) : Prop :=
  match s with
  | String c r => Regex.isDigit c = true /\ allDigits r
  | EmptyString => True
  end.

(** [Parse error on line ] and a digit are in [s] after [before]. *)
Definition parseErrorAt (before after s : string) : Prop :=
  occursAt "Parse error on line " before after s /\ startsWithDigit after.

(** The node of [r] in [t], the first in document order. *)
Definition node_in (t : Tree) (r : Ref) : option Tree :=
  match find (chain_isRef r) (chains [] t) with
  | Some ch => hd_error ch
  | None => None
  end.

(** The first node of a chain that was found. *)
Definition found_head (o : option (list Tree)) : option Tree :=
  match o with
  | Some ch => hd_error ch
  | None => None
  end.

(** The world that [createGrokDiagramContainer] leaves when no call
    raises. *)
Definition grokContainerWorld (sourceCode : string) (w : World) : World :=
  let container := nextRef w in
  let sourceWrapper := S container in
  let sourceCodeEl := S sourceWrapper in
  let renderedDiv := S sourceCodeEl in
  let w := snd (createElement "div" w) in
  let w := setClassName container "mpr-grok-diagram" w in
  let w := setDisplay container "none" w in
  let w := snd (createElement "pre" w) in
  let w := setClassName sourceWrapper "mpr-source" w in
  let w := setDisplay sourceWrapper "none" w in
  let w := snd (createElement "code" w) in
  let w := setClassName sourceCodeEl "language-mermaid" w in
  let w := setTextContent sourceCodeEl sourceCode w in
  let w := appendChild sourceWrapper sourceCodeEl w in
  let w := snd (createElement "div" w) in
  let w := setClassName renderedDiv "mpr-rendered" w in
  let w := appendChild container sourceWrapper w in
  appendChild container renderedDiv w.



(** The subject of [sel], its last compound, asks for the class
    [language-mermaid]. *)
Definition requiresMermaidClass (sel : Selector) : Prop :=
  exists cs c, sel = (cs ++ [c])%list /\ In (Class "language-mermaid") c.


(** The world in which the commit of a render looks for the wrapper: the
    one of the call, after the cleanup when the render was rejected. *)
Definition commitBase (st : State) (settled : Settled) : World :=
  match settled with
  | Resolved _ => world st
  | Rejected _ =>
      cleanupWorld (renderIdOf (S (renderCounter st))) (world st)
  end.

(** The document of [after] is the one of [before] with [artifact] where
    [wrapper] was. *)
Definition inPlaceOf (wrapper : Ref) (artifact : Tree)
  (before after : World) : Prop :=
  document after
  = if isDocumentElement before wrapper then Some artifact
    else option_map (substitute wrapper artifact) (document before).

(** [wrapper] has a parent in the document of [w]: it is in the document,
    and it is not the root of a tree outside. *)
Definition attached (w : World) (wrapper : Ref) : Prop :=
  In wrapper (documentRefs w)
  /\ existsb (isRef wrapper) (detached w) = false.

(** [w'] holds the artifact of the failed render of [element] in [st]:
    the container has, in its display region, the error element (title,
    details, hint) and nothing else, the region is marked
    [mpr-error-container]; and the artifact is committed, in the place of
    the wrapper, when the wrapper has a parent in the document after the
    cleanup. *)
Definition errorCommitted (st : State) (element : Ref)
  (config : PlatformConfig) (w' : World) : Prop :=
  let n := nextRef (world st) in
  let base := cleanupWorld (renderIdOf (S (renderCounter st))) (world st) in
  let wrapper := wrapperOf base element config in
  exists artifact detailsEl,
    node_of w' n = Some artifact
    /\ displayRegionOf artifact
       = Some (Node (3 + n)
                 [Node (4 + n)
                    [Node (5 + n) [Text "Failed to render diagram"];
                     detailsEl;
                     Node (7 + n) [Text "Check the source code below"]]])
    /\ classList_contains (element_of w' (3 + n)) "mpr-error-container"
       = true
    /\ classList_contains (element_of w' (4 + n)) "mpr-error" = true
    /\ (attached base wrapper ->
        inPlaceOf wrapper artifact base w'
        /\ In n (documentRefs w')
        /\ ~ In wrapper (documentRefs w')).

(** A statement that leaves the observers as they are. *)
Definition Unobserved {A} (m : M A) : Prop :=
  forall st, observers (snd (m st)) = observers st.

End Further.

(** *** A page to run the script on

    [<html><body>
       <pre><code class="language-mermaid">  graph TD; A-->B; </code></pre>
       <div data-mpr-processed="true">
         <pre><code class="hljs language-mermaid">graph LR</code></pre></div>
       <div id="dmpr-diagram-1"></div>
     </body></html>] *)
Definition examplePage : Dom.World :=
  let el name attrs :=
    {| Dom.localName := name; Dom.attributes := attrs; Dom.display := "" |} in
  {| Dom.document := Some
       (Dom.Node 0 [ Dom.Node 1 [
          Dom.Node 2 [ Dom.Node 3 [Dom.Text "  graph TD; A-->B; "] ];
          Dom.Node 4 [ Dom.Node 5 [ Dom.Node 6 [Dom.Text "graph LR"] ] ];
          Dom.Node 7 [] ] ]);
     Dom.detached := [];
     Dom.nextRef := 8;
     Dom.elements :=
       [ (0, el "html" []); (1, el "body" []); (2, el "pre" []);
         (3, el "code" [("class", "language-mermaid")]);
         (4, el "div" [("data-mpr-processed", "true")]);
         (5, el "pre" []);
         (6, el "code" [("class", "hljs language-mermaid")]);
         (7, el "div" [("id", "dmpr-diagram-1")]) ] |}.

Definition stateOf (w : Dom.World) : State :=
  {| world := w; renderCounter := 0; timeouts := []; listeners := [];
     observers := []; frameCallbacks := []; inflight := []; console := [];
     trace := []; faults := [] |}.

Definition exampleState : State := stateOf examplePage.

Definition chatgptConfig : PlatformConfig :=
  {| platform := chatgpt;
     codeBlockSelector :=
       [[Dom.Tag "pre"]; [Dom.Tag "code"; Dom.Class "language-mermaid"]];
     wrapperSelector := [[Dom.Tag "pre"]];
     detection := className;
     languageLabelSelector := None;
     previewButtonSelector := None |}.

(** The page once its block is rendered, and once its render is rejected. *)
Definition renderedState : State := Eval vm_compute in
  exec (renderMermaidBlock 3 chatgptConfig (Resolved "<svg/>")) exampleState.

Definition rejectedState : State := Eval vm_compute in
  exec (renderMermaidBlock 3 chatgptConfig
          (Rejected (VError "Parse error on line 3")))
       exampleState.

(** The page with the fourteenth call of the page failing, and what the
    render of its block leaves then. *)
Definition faultyState : State :=
  set_faults (repeat false 12 ++ [true])%list exampleState.

Definition abandonedState : State := Eval vm_compute in
  exec (renderMermaidBlock 3 chatgptConfig (Resolved "<svg/>")) faultyState.

Import Dom.
Local Open Scope js_scope.

(** * Proofs *)

(** ** Content classification *)

Fixpoint word (s : string) : string :=
  match s with
  | EmptyString => EmptyString
  | String c r => if Js.isWhiteSpace c then EmptyString else String c (word r)
  end.

Lemma lowerChar_ws c : Js.isWhiteSpace (Js.lowerChar c) = Js.isWhiteSpace c.
Proof. destruct c as [[] [] [] [] [] [] [] []]; reflexivity. Qed.

Lemma lowerChar_flip c : Js.lowerChar (flipCase c) = Js.lowerChar c.
Proof. destruct c as [[] [] [] [] [] [] [] []]; reflexivity. Qed.

Lemma whiteSpace_ws c : Js.isWhiteSpace (whiteSpace c) = true.
Proof. destruct c; reflexivity. Qed.

Lemma split_ws_first s : Js.first (Js.split_ws s) = Some (word s).
Proof.
  induction s as [|c r IH]; simpl; [reflexivity|].
  destruct (Js.isWhiteSpace c); [reflexivity|].
  destruct (Js.split_ws r) as [|h t]; simpl in *; [discriminate|].
  now injection IH as ->.
Qed.

Lemma tokens_first s :
  firstToken s =
  match Js.trimStart s with
  | EmptyString => None
  | s' => Some (word s')
  end.
Proof.
  unfold firstToken.
  induction s as [|c r IH]; [reflexivity|].
  cbn [Js.tokens Js.trimStart].
  destruct (Js.isWhiteSpace c) eqn:Hc; [exact IH|].
  cbn [word]. rewrite Hc.
  destruct r as [|c' r']; [reflexivity|].
  destruct (Js.isWhiteSpace c') eqn:Hc'.
  - cbn [word]. now rewrite Hc'.
  - cbn [Js.trimStart] in IH. rewrite Hc' in IH.
    destruct (Js.tokens Js.isWhiteSpace (String c' r')) as [|h t];
      simpl in IH; [discriminate|].
    simpl. now injection IH as ->.
Qed.

Definition startsBlack (s : string) : Prop :=
  match s with
  | EmptyString => True
  | String c _ => Js.isWhiteSpace c = false
  end.

Lemma trimStart_black s : startsBlack (Js.trimStart s).
Proof.
  induction s as [|c r IH]; simpl; [exact I|].
  destruct (Js.isWhiteSpace c) eqn:Hc; [exact IH|]. simpl. exact Hc.
Qed.

Lemma trimEnd_black s : startsBlack s -> startsBlack (Js.trimEnd s).
Proof.
  destruct s as [|c r]; simpl; [trivial|]. intros Hc.
  destruct (Js.trimEnd r); simpl; [rewrite Hc; simpl|]; exact Hc.
Qed.

Lemma toLowerCase_black s : startsBlack s -> startsBlack (Js.toLowerCase s).
Proof. destruct s; simpl; [trivial|]. now rewrite lowerChar_ws. Qed.

Lemma trimStart_id s : startsBlack s -> Js.trimStart s = s.
Proof. destruct s; simpl; [trivial|]. now intros ->. Qed.

Lemma keyword_In w : existsb (String.eqb w) MERMAID_KEYWORDS = true <-> In w MERMAID_KEYWORDS.
Proof.
  rewrite existsb_exists. split.
  - intros [x [Hx He]]. apply String.eqb_eq in He. now subst.
  - intros H. exists w. split; [exact H|apply String.eqb_refl].
Qed.

Lemma isMermaidContent_iff text : isMermaidContent text = true <-> looksLikeDiagram text.
Proof.
  unfold isMermaidContent, looksLikeDiagram.
  rewrite split_ws_first. cbn [Js.array_includes].
  rewrite keyword_In.
  set (s := Js.toLowerCase (Js.trim text)).
  assert (Hs : startsBlack s)
    by (apply toLowerCase_black, trimEnd_black, trimStart_black).
  rewrite tokens_first, (trimStart_id _ Hs).
  destruct s as [|c r].
  - split; [|intros [t [H _]]; discriminate].
    simpl. intros H. exfalso. revert H. clear.
    intros H; repeat (destruct H as [H|H]; [discriminate|]); exact H.
  - split.
    + intros H. eexists. split; [reflexivity|exact H].
    + intros [t [H1 H2]]. now injection H1 as <-.
Qed.

Lemma trimStart_ws l s : Js.trimStart (whiteSpaces l ++ s) = Js.trimStart s.
Proof. induction l as [|c t IH]; simpl; [reflexivity|]. now rewrite whiteSpace_ws. Qed.

Lemma trimEnd_spaces r : Js.trimEnd (whiteSpaces r) = EmptyString.
Proof. induction r as [|c t IH]; simpl; [reflexivity|]. now rewrite IH, whiteSpace_ws. Qed.

Lemma trimEnd_ws s r : Js.trimEnd (s ++ whiteSpaces r) = Js.trimEnd s.
Proof.
  induction s as [|c t IH]; simpl; [apply trimEnd_spaces|]. now rewrite IH.
Qed.

Lemma trimStart_app_ws s r :
  Js.trimEnd (Js.trimStart (s ++ whiteSpaces r)) = Js.trimEnd (Js.trimStart s).
Proof.
  induction s as [|c t IH]; simpl.
  - assert (H : Js.trimStart (whiteSpaces r) = EmptyString).
    { clear. induction r; simpl; [reflexivity|]. now rewrite whiteSpace_ws. }
    now rewrite H.
  - destruct (Js.isWhiteSpace c); [exact IH|].
    change (String c (t ++ whiteSpaces r)) with (String c t ++ whiteSpaces r)%string.
    apply trimEnd_ws.
Qed.

Lemma trim_ws l s r : Js.trim (whiteSpaces l ++ s ++ whiteSpaces r) = Js.trim s.
Proof. unfold Js.trim. now rewrite trimStart_ws, trimStart_app_ws. Qed.

Lemma toLowerCase_recase mask s : Js.toLowerCase (recase mask s) = Js.toLowerCase s.
Proof.
  revert mask. induction s as [|c r IH]; intros [|b m]; simpl; try reflexivity.
  rewrite IH. destruct b; [now rewrite lowerChar_flip|reflexivity].
Qed.

Lemma toLowerCase_trimStart s : Js.toLowerCase (Js.trimStart s) = Js.trimStart (Js.toLowerCase s).
Proof.
  induction s as [|c r IH]; simpl; [reflexivity|].
  rewrite lowerChar_ws. now destruct (Js.isWhiteSpace c).
Qed.

Lemma toLowerCase_trimEnd s : Js.toLowerCase (Js.trimEnd s) = Js.trimEnd (Js.toLowerCase s).
Proof.
  induction s as [|c r IH]; simpl; [reflexivity|].
  rewrite <- IH, lowerChar_ws.
  destruct (Js.trimEnd r); simpl; [now destruct (Js.isWhiteSpace c)|reflexivity].
Qed.

Lemma toLowerCase_trim s : Js.toLowerCase (Js.trim s) = Js.trim (Js.toLowerCase s).
Proof. unfold Js.trim. now rewrite toLowerCase_trimEnd, toLowerCase_trimStart. Qed.

(** C7. For every text, [isMermaidContent] answers [true] exactly when the
    first white-space-delimited token of the trimmed, lower-cased text is
    one of the diagram keywords; its answer does not change when white
    space is put before and after the text, nor when the case of any of
    its letters is flipped. *)
Theorem isMermaidContent_classifies (text : string) :
  (isMermaidContent text = true <-> looksLikeDiagram text)
  /\ (forall l r,
        isMermaidContent (whiteSpaces l ++ text ++ whiteSpaces r)%string
        = isMermaidContent text)
  /\ (forall mask,
        isMermaidContent (recase mask text) = isMermaidContent text).
Proof.
  split; [apply isMermaidContent_iff|]. split.
  - intros l r. unfold isMermaidContent. now rewrite trim_ws.
  - intros mask. unfold isMermaidContent.
    now rewrite !toLowerCase_trim, toLowerCase_recase.
Qed.

(** ** Platform identification *)

Lemma startsWith_spec s p : Js.startsWith s p = true <-> exists b, s = (p ++ b)%string.
Proof.
  revert s. induction p as [|a p IH]; intros s; simpl.
  - split; [intros _; now exists s|reflexivity].
  - destruct s as [|b s]; simpl.
    + split; [discriminate|intros [x H]; discriminate].
    + rewrite andb_true_iff, Ascii.eqb_eq, IH. split.
      * intros [-> [x ->]]. now exists x.
      * intros [x H]. injection H as -> ->. split; [reflexivity|now exists x].
Qed.

Lemma includes_spec s p : Js.includes s p = true <-> contains s p.
Proof.
  unfold contains. induction s as [|c s IH]; simpl.
  - rewrite orb_false_r, startsWith_spec. split.
    + intros [b H]. exists "", b. exact H.
    + intros [a [b H]]. destruct a; simpl in H; [now exists b|discriminate].
  - rewrite orb_true_iff, startsWith_spec, IH. split.
    + intros [[b H]|[a [b H]]].
      * exists "", b. exact H.
      * exists (String c a), b. simpl. now rewrite H.
    + intros [a [b H]]. destruct a as [|c' a]; simpl in H.
      * left. now exists b.
      * right. injection H as -> ->. now exists a, b.
Qed.

Lemma detectPlatform_in_Some platforms host key :
  detectPlatform_in platforms host = Some key <->
  exists before config after,
    platforms = before ++ (key, config) :: after
    /\ existsb (hostnameMatches host) before = false
    /\ Js.includes host (hostname config) = true.
Proof.
  induction platforms as [|[k c] rest IH]; simpl.
  - split; [discriminate|]. intros [b [c [a [H _]]]]. now destruct b.
  - destruct (Js.includes host (hostname c)) eqn:Hc.
    + split.
      * intros H. injection H as ->. exists [], c, rest. now simpl.
      * intros [b [c' [a [H [Hb Hm]]]]]. destruct b as [|[k' c''] b]; simpl in *.
        -- now injection H as -> _ _.
        -- injection H as -> -> _. unfold hostnameMatches in Hb at 1. simpl in Hb.
           rewrite Hc in Hb. discriminate.
    + rewrite IH. split.
      * intros [b [c' [a [-> [Hb Hm]]]]]. exists ((k, c) :: b), c', a.
        simpl. unfold hostnameMatches at 1. simpl. now rewrite Hc.
      * intros [b [c' [a [H [Hb Hm]]]]]. destruct b as [|[k' c''] b]; simpl in *.
        -- injection H as _ <- _. rewrite Hc in Hm. discriminate.
        -- injection H as _ _ ->. exists b, c', a. split; [reflexivity|].
           apply orb_false_elim in Hb. now split.
Qed.

Lemma detectPlatform_in_None platforms host :
  detectPlatform_in platforms host = None <->
  existsb (hostnameMatches host) platforms = false.
Proof.
  induction platforms as [|[k c] rest IH]; simpl; [tauto|].
  unfold hostnameMatches at 1. simpl.
  destruct (Js.includes host (hostname c)); simpl; [split; discriminate|exact IH].
Qed.

(** C6, as amended.  [detectPlatform] returns the key of the first entry of
    the configuration, in the order of its keys, whose host name is a
    substring of the given host name: it returns a key exactly when the
    host name contains the substring of that entry and of no entry before
    it, and it returns nothing exactly when the host name contains none of
    the substrings. *)
Theorem detectPlatform_first_match (platforms : Platforms) (host : string) :
  (forall key, detectPlatform_in platforms host = Some key <->
     exists before config after,
       platforms = before ++ (key, config) :: after
       /\ existsb (hostnameMatches host) before = false
       /\ hostnameMatches host (key, config) = true)
  /\ (detectPlatform_in platforms host = None <->
      existsb (hostnameMatches host) platforms = false)
  /\ (forall entry, hostnameMatches host entry = true <->
        contains host (hostname (snd entry))).
Proof.
  split; [intros key; apply detectPlatform_in_Some|].
  split; [apply detectPlatform_in_None|].
  intros entry. apply includes_spec.
Qed.

(** The claim C6 as stated fails: this host name contains the substring of
    Grok, and the platform detected is not Grok (it is ChatGPT, whose
    entry comes first). *)
Lemma detectPlatform_not_iff :
  ~ (detectPlatform "grok.com.chatgpt.com" = Some grok <->
     Js.includes "grok.com.chatgpt.com" "grok.com" = true).
Proof. intros [_ H]. specialize (H eq_refl). discriminate. Qed.

(** ** The document: traversal *)

Lemma Tree_induction (P : Tree -> Prop) :
  (forall r ks, Forall P ks -> P (Node r ks)) ->
  (forall d, P (Text d)) ->
  (forall h, P (Markup h)) ->
  forall t, P t.
Proof.
  intros HN HT HM. fix IH 1. intros [r ks|d|h]; [|apply HT|apply HM].
  apply HN. induction ks as [|k ks IHks]; constructor; [apply IH|exact IHks].
Qed.
Lemma find_app {A} (p : A -> bool) l1 l2 :
  find p (l1 ++ l2) = match find p l1 with Some x => Some x | None => find p l2 end.
Proof. induction l1 as [|x l1 IH]; simpl; [reflexivity|]. now destruct (p x). Qed.


Lemma chains_ancestry t up :
  Ancestry (t :: up) ->
  forall ch, In ch (chains up t) ->
  Ancestry ch /\ hd_error (List.rev ch) = hd_error (List.rev (t :: up)).
Proof.
  revert up. induction t as [r ks IH| |] using Tree_induction;
    intros up Hup ch Hin; simpl in Hin; try contradiction.
  destruct Hin as [<-|Hin]; [now split|].
  apply in_flat_map in Hin as [k [Hk Hin]].
  rewrite Forall_forall in IH.
  destruct (IH k Hk (Node r ks :: up)) with (ch := ch) as [H1 H2]; auto.
  - now constructor.
  - split; [exact H1|]. rewrite H2.
    change (List.rev (k :: Node r ks :: up))
      with (List.rev (Node r ks :: up) ++ [k]).
    destruct (List.rev (Node r ks :: up)) eqn:E; [|reflexivity].
    apply (f_equal (@List.length Tree)) in E.
    rewrite length_rev in E. discriminate.
Qed.

Lemma refs_of_In el l :
  In el (refs_of l) -> exists ch, In ch l /\ chain_ref ch = Some el.
Proof.
  induction l as [|ch l IH]; simpl; [contradiction|].
  destruct (chain_ref ch) as [r|] eqn:E.
  - intros [<-|H]; [exists ch; auto|].
    destruct (IH H) as [c [Hc He]]. exists c; auto.
  - intros H. destruct (IH H) as [c [Hc He]]. exists c; auto.
Qed.

Lemma chain_ref_isRef ch el : chain_ref ch = Some el <-> chain_isRef el ch = true.
Proof.
  destruct ch as [|[r ks| |] up]; simpl; split; try discriminate.
  - intros H. injection H as ->. apply Nat.eqb_refl.
  - intros H. apply Nat.eqb_eq in H. now subst.
Qed.

Lemma querySelectorAll_chain w sel el :
  In el (querySelectorAll w sel) ->
  In (chain_of w el) (document_chains w) /\ chain_ref (chain_of w el) = Some el.
Proof.
  unfold querySelectorAll. intros H.
  apply refs_of_In in H as [ch [Hin Href]].
  apply filter_In in Hin as [Hin _].
  apply chain_ref_isRef in Href.
  unfold chain_of, all_chains. rewrite find_app.
  destruct (find (chain_isRef el) (document_chains w)) as [c|] eqn:E.
  - apply find_some in E as [E1 E2]. split; [exact E1|now apply chain_ref_isRef].
  - exfalso. apply (find_none _ _ E) in Hin. congruence.
Qed.

Lemma document_chains_ancestry w ch :
  In ch (document_chains w) -> Ancestry ch /\ rootedInDocument w ch.
Proof.
  unfold document_chains, rootedInDocument. destruct (document w) as [root|]; [|contradiction].
  intros H. destruct (chains_ancestry root [] (ancestry_root root) ch H) as [H1 H2].
  repeat split; auto. intros ->. inversion H1.
Qed.

Lemma closest_in_None els ch a :
  closest_in els PROCESSED ch = None -> In a ch ->
  matches_compound els a [AttrEq "data-mpr-processed" "true"] = false.
Proof.
  induction ch as [|n up IH]; simpl; [contradiction|].
  destruct (matches els PROCESSED n up) eqn:E; [discriminate|].
  intros H [<-|Hin]; [|auto].
  unfold matches in E. simpl in E. now rewrite andb_true_r in E.
Qed.

Lemma unmarked w a :
  matches_compound (element_of w) a [AttrEq "data-mpr-processed" "true"] = false ->
  ~ carriesProcessedMarker w a.
Proof.
  destruct a as [r ks| |]; simpl; auto.
  intros H Hm. rewrite Hm in H. discriminate.
Qed.

Lemma findUnprocessed_filter w config el :
  In el (findUnprocessedMermaidBlocks w config) ->
  closest w el PROCESSED = None /\
  exists sel, In el (querySelectorAll w sel).
Proof.
  unfold findUnprocessedMermaidBlocks.
  destruct (detection config); intros H; apply filter_In in H as [Hq Hp].
  - split; [|eauto]. now destruct (closest w el PROCESSED).
  - split; [|eauto].
    destruct (hasAttribute _ _); [discriminate|].
    now destruct (closest w el PROCESSED).
  - split; [|eauto]. now destruct (closest w el PROCESSED).
Qed.

(** C2. Under every configuration (the three ways of detection) and in
    every state of the document, an element that [findUnprocessedMermaidBlocks]
    returns is in the document, and neither it nor any of its ancestors up
    to the document element carries the processed marker. *)
Theorem findUnprocessed_excludes_processed
  (w : World) (config : PlatformConfig) (el : Ref) :
  In el (findUnprocessedMermaidBlocks w config) ->
  let chain := chain_of w el in
  chain_ref chain = Some el
  /\ Ancestry chain /\ rootedInDocument w chain
  /\ forall a, In a chain -> ~ carriesProcessedMarker w a.
Proof.
  intros H chain. apply findUnprocessed_filter in H as [Hc [sel Hq]].
  apply querySelectorAll_chain in Hq as [Hin Href].
  apply document_chains_ancestry in Hin as [Ha Hr].
  repeat split; auto; try apply Hr.
  intros a Ha'. apply unmarked. eapply closest_in_None; eauto.
Qed.

(** ** The two revisions of the renderer *)

(** C9. The earlier and the current revision of renderer.ts agree on the
    helpers they share: [createPreservingWrapper] builds the same
    container, hidden source and rendered region from every source string
    in every state, and [extractSourceCode] and [getWrapperToReplace]
    return the same results for every element and configuration. *)
Theorem helpers_agree
  (sourceCode : string) (element : Ref) (config : PlatformConfig)
  (st : State) :
  Previous.createPreservingWrapper sourceCode st
  = createPreservingWrapper sourceCode st
  /\ Previous.extractSourceCode element config st
     = extractSourceCode element config st
  /\ Previous.getWrapperToReplace element config st
     = getWrapperToReplace element config st.
Proof. repeat split. Qed.

(** ** The wrapper to replace *)

(** C10. [getWrapperToReplace] returns in every state and for every
    element and configuration, without raising and without touching the
    state: the element itself for the configuration of Grok, and for every
    other configuration the parent element when there is one and the
    element itself when there is none. *)
Theorem getWrapperToReplace_total
  (element : Ref) (config : PlatformConfig) (st : State) :
  getWrapperToReplace element config st
  = (Return
       (if Platform_eqb (platform config) grok then element
        else match parentElement (world st) element with
             | Some parent => parent
             | None => element
             end),
     st).
Proof.
  unfold getWrapperToReplace.
  destruct (Platform_eqb (platform config) grok); [reflexivity|].
  unfold bind, Document.parentElement, readWorld, get.
  now destruct (parentElement (world st) element).
Qed.

(** ** The toggle *)

Lemma display_setDisplay el value w x :
  display (element_of (setDisplay el value w) x)
  = if el =? x then value else display (element_of w x).
Proof.
  unfold setDisplay, update_element, element_of. simpl.
  now destruct (el =? x).
Qed.

Lemma display_setAttribute el name value w x :
  display (element_of (setAttribute el name value w) x)
  = display (element_of w x).
Proof.
  unfold setAttribute, update_element, element_of. simpl.
  destruct (el =? x) eqn:E; [|reflexivity].
  apply Nat.eqb_eq in E. now subst.
Qed.

Lemma element_of_update_children el f w x :
  element_of (update_children el f w) x = element_of w x.
Proof. reflexivity. Qed.

Lemma toggleClicked_world s r b showing st :
  toggleClicked s r b showing st
  = (Return (negb showing),
     set_world
       (setTitle b (if showing then "Show source code" else "Show diagram")
          (setTextContent b (if showing then "{ }" else PLAY_ICON)
             (setDisplay r (if showing then "block" else "none")
                (setDisplay s (if showing then "none" else "block")
                   (world st))))) st).
Proof. destruct st, showing; reflexivity. Qed.

Lemma toggleClicked_visibility st s r b showing :
  s <> r ->
  let st' := exec (toggleClicked s r b showing) st in
  visible (world st') s = negb showing
  /\ visible (world st') r = showing.
Proof.
  intros Hne st'. subst st'. unfold exec. rewrite toggleClicked_world.
  cbn [snd world set_world]. unfold visible, setTitle, setTextContent.
  rewrite !display_setAttribute, !element_of_update_children,
    !display_setDisplay.
  rewrite Nat.eqb_refl.
  replace (r =? s) with false by (symmetry; apply Nat.eqb_neq; congruence).
  rewrite Nat.eqb_refl. now destruct showing.
Qed.

Lemma click_single st s r b showing :
  listeners st = [(b, ToggleClick s r b showing)] ->
  step (Click b) st
  = set_listeners [(b, ToggleClick s r b (negb showing))]
      (exec (toggleClicked s r b showing) st).
Proof.
  intros Hl. unfold step, exec, click, bind, get. rewrite Hl.
  cbn [dispatchClick]. rewrite Nat.eqb_refl. unfold bind.
  rewrite toggleClicked_world. reflexivity.
Qed.

Lemma clicks_visibility n : forall st s r b showing,
  s <> r ->
  listeners st = [(b, ToggleClick s r b showing)] ->
  let st' := run (repeat (Click b) (S n)) st in
  visible (world st') s = negb (visible (world st') r).
Proof.
  induction n as [|n IH]; intros st s r b showing Hne Hl.
  - cbn [repeat run fold_left]. rewrite (click_single _ _ _ _ _ Hl).
    destruct (toggleClicked_visibility st s r b showing Hne) as [H1 H2].
    cbn [world set_listeners]. rewrite H1, H2. reflexivity.
  - change (repeat (Click b) (S (S n))) with (Click b :: repeat (Click b) (S n)).
    unfold run. cbn [fold_left]. rewrite (click_single _ _ _ _ _ Hl).
    apply (IH _ s r b (negb showing) Hne). reflexivity.
Qed.

Lemma createToggleButton_world s r initial st :
  faults st = [] ->
  createToggleButton s r initial st
  = let b := nextRef (world st) in
    let w1 := setAttribute b "aria-label"
                "Toggle between source code and diagram"
                (setClassName b "mpr-toggle"
                   (snd (createElement "button" (world st)))) in
    (Return b,
     set_listeners (listeners st ++ [(b, ToggleClick s r b initial)])
       (set_world
          (if initial then
             setTitle b "Show diagram"
               (setTextContent b PLAY_ICON
                  (setDisplay r "block" (setDisplay s "block" w1)))
           else
             setTitle b "Show source code" (setTextContent b "{ }" w1))
          st)).
Proof.
  destruct st as [w rc ts ls os fs infl con tr fl]. cbn [faults].
  intros ->. destruct initial; reflexivity.
Qed.

Lemma display_createElement name w x :
  x < nextRef w ->
  display (element_of (snd (createElement name w)) x)
  = display (element_of w x).
Proof.
  intros H. unfold createElement, element_of. simpl.
  replace (nextRef w =? x) with false by (symmetry; apply Nat.eqb_neq; lia).
  reflexivity.
Qed.

Lemma createToggleButton_displays st s r initial :
  faults st = [] ->
  s < nextRef (world st) -> r < nextRef (world st) ->
  let st' := exec (createToggleButton s r initial) st in
  display (element_of (world st') s)
  = (if initial then "block" else display (element_of (world st) s))
  /\ display (element_of (world st') r)
     = (if initial then "block" else display (element_of (world st) r)).
Proof.
  intros Hf Hs Hr st'. subst st'. unfold exec.
  rewrite (createToggleButton_world _ _ _ _ Hf).
  cbn [snd world set_world set_listeners].
  unfold setTitle, setTextContent, setClassName.
  destruct initial;
    rewrite !display_setAttribute, !element_of_update_children,
      ?display_setDisplay, ?display_setAttribute, ?Nat.eqb_refl.
  - split; [|reflexivity]. now destruct (r =? s).
  - now rewrite !display_createElement.
Qed.


(** The claim C4 as stated fails at construction: when the render is
    rejected, the toggle is built with [initialShowSource] and both the
    source region (9) and the display region (11) are visible. *)
Lemma toggle_shows_both_on_error :
  exec (renderMermaidBlock 3 chatgptConfig
          (Rejected (VError "Parse error on line 3"))) exampleState
  = rejectedState
  /\ listeners rejectedState = [(16, ToggleClick 9 11 16 true)]
  /\ visible (world rejectedState) 9 = true
  /\ visible (world rejectedState) 11 = true.
Proof. vm_compute. repeat split. Qed.

(** ** The observation loop *)

Lemma mutationsObserved_frameCallbacks st :
  frameCallbacks (step MutationsObserved st)
  = frameCallbacks st ++ map SweepFrame (observers st).
Proof.
  unfold step.
  assert (H : forall os st0,
             frameCallbacks
               (fold_left (fun st config => exec (mutationCallback config) st)
                          os st0)
             = frameCallbacks st0 ++ map SweepFrame os
             ).
  { induction os as [|o os IH]; intros st0; simpl.
    - now rewrite app_nil_r.
    - rewrite IH. cbn. now rewrite <- app_assoc. }
  apply H.
Qed.

(** C5 fails on the code.  Two batches of mutation records delivered before
    the next animation frame leave two frame callbacks, and the frame runs
    two sweeps: the one unprocessed block of the page (3) is found and sent
    to the renderer twice. *)
Theorem mutation_bursts_not_coalesced :
  let observing := exec (setupMutationObserver chatgptConfig) exampleState in
  let burst := run [MutationsObserved; MutationsObserved] observing in
  let st := step AnimationFrame burst in
  List.length (frameCallbacks burst) = 2
  /\ map s_element (inflight st) = [3; 3]
  /\ trace st = [CallRender "mpr-diagram-1" "graph TD; A-->B;";
                 CallRender "mpr-diagram-2" "graph TD; A-->B;"].
Proof. vm_compute. repeat split. Qed.

(** ** The document: references that do not occur *)


Lemma absent_Node r r' ks :
  absent r (Node r' ks) <-> r' <> r /\ Forall (absent r) ks.
Proof.
  unfold absent. simpl. rewrite Forall_forall. split.
  - intros H. split; [intros E; apply H; now left|].
    intros k Hk Hin. apply H. right. apply in_flat_map. now exists k.
  - intros [Hne Hall] [E|Hin]; [now apply Hne|].
    apply in_flat_map in Hin as [k [Hk Hin]]. exact (Hall k Hk Hin).
Qed.

Lemma absent_isRef r t : absent r t -> isRef r t = false.
Proof.
  destruct t as [r' ks| |]; simpl; try reflexivity.
  intros H. apply absent_Node in H as [H _]. now apply Nat.eqb_neq.
Qed.

Lemma update_absent r f t : absent r t -> update r f t = t.
Proof.
  induction t as [r' ks IH| |] using Tree_induction; simpl; try reflexivity.
  intros H. apply absent_Node in H as [Hne Hall].
  apply Nat.eqb_neq in Hne. rewrite Hne. f_equal.
  induction ks as [|k ks IHks]; simpl; [reflexivity|].
  inversion IH; inversion Hall; subst. f_equal; auto.
Qed.

Lemma prune_absent r t : absent r t -> prune r t = t.
Proof.
  induction t as [r' ks IH| |] using Tree_induction; simpl; try reflexivity.
  intros H. apply absent_Node in H as [Hne Hall]. f_equal.
  induction ks as [|k ks IHks]; simpl; [reflexivity|].
  inversion IH; inversion Hall; subst.
  rewrite (absent_isRef _ _ H5). simpl. f_equal; auto.
Qed.

Lemma substitute_absent r m t : absent r t -> substitute r m t = t.
Proof.
  induction t as [r' ks IH| |] using Tree_induction; simpl; try reflexivity.
  intros H. apply absent_Node in H as [Hne Hall]. f_equal.
  induction ks as [|k ks IHks]; simpl; [reflexivity|].
  inversion IH; inversion Hall; subst.
  rewrite (absent_isRef _ _ H5). f_equal; auto.
Qed.

Lemma find_flat_map_none {A B} (p : B -> bool) (f : A -> list B) l :
  Forall (fun x => find p (f x) = None) l -> find p (flat_map f l) = None.
Proof.
  induction 1 as [|x l Hx Hl IH]; simpl; [reflexivity|].
  now rewrite find_app, Hx.
Qed.

Lemma chains_absent r t up : absent r t -> find (chain_isRef r) (chains up t) = None.
Proof.
  revert up. induction t as [r' ks IH| |] using Tree_induction; intros up; simpl; try reflexivity.
  intros H. apply absent_Node in H as [Hne Hall].
  apply Nat.eqb_neq in Hne. rewrite Hne.
  apply find_flat_map_none.
  rewrite Forall_forall in *. intros k Hk. apply IH; auto.
Qed.

Lemma bounded_absent k r t : bounded k t = true -> k <= r -> absent r t.
Proof.
  unfold bounded, absent. rewrite forallb_forall. intros H Hle Hin.
  apply H in Hin. apply Nat.ltb_lt in Hin. lia.
Qed.

(** ** The statements as functions of the world *)

Set Warnings "-implicit-create-rewrite-hint-db".

Lemma fst_createElement name w : fst (createElement name w) = nextRef w.
Proof. reflexivity. Qed.
Lemma nextRef_createElement name w :
  nextRef (snd (createElement name w)) = S (nextRef w).
Proof. reflexivity. Qed.
Lemma nextRef_update_element r f w : nextRef (update_element r f w) = nextRef w.
Proof. reflexivity. Qed.
Lemma nextRef_update_children r f w : nextRef (update_children r f w) = nextRef w.
Proof. reflexivity. Qed.
Lemma nextRef_appendChild p c w : nextRef (appendChild p c w) = nextRef w.
Proof. reflexivity. Qed.
Lemma nextRef_remove r w : nextRef (remove r w) = nextRef w.
Proof. reflexivity. Qed.
Lemma nextRef_replaceWith a b w : nextRef (replaceWith a b w) = nextRef w.
Proof. reflexivity. Qed.
Lemma nextRef_setAttribute r a v w : nextRef (setAttribute r a v w) = nextRef w.
Proof. reflexivity. Qed.
Lemma nextRef_setClassName r v w : nextRef (setClassName r v w) = nextRef w.
Proof. reflexivity. Qed.
Lemma nextRef_setTitle r v w : nextRef (setTitle r v w) = nextRef w.
Proof. reflexivity. Qed.
Lemma nextRef_setDisplay r v w : nextRef (setDisplay r v w) = nextRef w.
Proof. reflexivity. Qed.
Lemma nextRef_classListAdd r v w : nextRef (classListAdd r v w) = nextRef w.
Proof. reflexivity. Qed.
Lemma nextRef_setTextContent r v w : nextRef (setTextContent r v w) = nextRef w.
Proof. reflexivity. Qed.
Lemma nextRef_setInnerHTML r v w : nextRef (setInnerHTML r v w) = nextRef w.
Proof. reflexivity. Qed.

#[export] Hint Rewrite fst_createElement nextRef_createElement
  nextRef_update_element nextRef_update_children nextRef_appendChild
  nextRef_remove nextRef_replaceWith nextRef_setAttribute
  nextRef_setClassName nextRef_setTitle nextRef_setDisplay
  nextRef_classListAdd nextRef_setTextContent nextRef_setInnerHTML : refs.

(** Unfold the statements down to the calls into the document. *)
Ltac run_statements :=
  cbv beta iota zeta delta
    [bind ret throw try_catch get modify mayRaise readWorld writeWorld
     forEach
     Document.createElement Document.querySelectorAll
     Document.querySelector Document.setAttribute Document.appendChild
     Document.replaceWith Document.classListAdd Document.setInnerHTML
     Document.remove Document.setClassName Document.setTitle
     Document.setDisplay Document.setTextContent Document.textContent
     Document.parentElement Document.addEventListener Document.setTimeout
     Document.requestAnimationFrame Document.console_error Document.record
     set_world set_renderCounter set_timeouts set_listeners set_observers
     set_frameCallbacks set_inflight set_console set_trace set_faults
     world renderCounter timeouts listeners observers frameCallbacks
     inflight console trace faults].

Lemma createPreservingWrapper_world sourceCode st :
  faults st = [] ->
  createPreservingWrapper sourceCode st
  = (Return (nextRef (world st), S (nextRef (world st)),
             S (S (S (nextRef (world st))))),
     set_world (wrapperWorld sourceCode (world st)) st).
Proof.
  destruct st as [w rc ts ls os fs infl con tr fl]. cbn [faults].
  intros ->. unfold createPreservingWrapper, wrapperWorld.
  run_statements.
  autorewrite with refs.
  reflexivity.
Qed.



Lemma set_world_set_world w1 w2 st :
  set_world w2 (set_world w1 st) = set_world w2 st.
Proof. reflexivity. Qed.

Lemma extractSourceCode_world element config st :
  faults st = [] ->
  extractSourceCode element config st
  = (Return (sourceOf (world st) element config), st).
Proof.
  destruct st as [w rc ts ls os fs infl con tr fl]. cbn [faults].
  intros ->. unfold extractSourceCode, sourceOf.
  destruct (Platform_eqb (platform config) grok); run_statements.
  - now destruct (querySelector w element [[Tag "pre"]; [Tag "code"]]).
  - reflexivity.
Qed.

Lemma getWrapperToReplace_world element config st :
  getWrapperToReplace element config st
  = (Return (wrapperOf (world st) element config), st).
Proof.
  unfold getWrapperToReplace, wrapperOf.
  destruct (Platform_eqb (platform config) grok); [reflexivity|].
  run_statements. now destruct (parentElement _ element).
Qed.

Lemma forEach_remove els st :
  forEach els Document.remove st
  = (Return tt,
     set_world (fold_left (fun w el => remove el w) els (world st)) st).
Proof.
  revert st. induction els as [|el els IH]; intros st.
  - now destruct st.
  - cbn [forEach fold_left]. unfold bind at 1.
    unfold Document.remove at 1, writeWorld, modify.
    rewrite IH. reflexivity.
Qed.

Lemma cleanup_world renderId st :
  faults st = [] ->
  cleanupMermaidErrorElements renderId st
  = (Return tt,
     set_world (cleanupWorld renderId (world st))
       (set_trace (trace st ++ [CallCleanup renderId]) st)).
Proof.
  destruct st as [w rc ts ls os fs infl con tr fl]. cbn [faults].
  intros ->. unfold cleanupMermaidErrorElements, cleanupWorld, errorSelectors.
  cbn [forEach fold_left].
  do 4 (cbv beta iota zeta delta
          [bind try_catch Document.record modify Document.querySelectorAll
           mayRaise readWorld get ret faults set_trace set_world world
           trace];
        rewrite forEach_remove).
  reflexivity.
Qed.

Lemma createErrorElement_world parsedError st :
  faults st = [] ->
  createErrorElement parsedError st
  = (Return (nextRef (world st)),
     set_world (errorElementWorld parsedError (world st)) st).
Proof.
  destruct st as [w rc ts ls os fs infl con tr fl]. cbn [faults].
  intros ->. unfold createErrorElement, errorElementWorld.
  destruct (details parsedError) as [[|c r]|];
    run_statements; autorewrite with refs; reflexivity.
Qed.

Lemma createToggleButton_toggleWorld s r initial st :
  faults st = [] ->
  createToggleButton s r initial st
  = (Return (nextRef (world st)),
     set_listeners
       (listeners st
        ++ [(nextRef (world st), ToggleClick s r (nextRef (world st)) initial)])
       (set_world (toggleWorld s r initial (world st)) st)).
Proof.
  destruct st as [w rc ts ls os fs infl con tr fl]. cbn [faults].
  intros ->. unfold createToggleButton, toggleWorld.
  destruct initial; run_statements; autorewrite with refs; reflexivity.
Qed.

Lemma parseErrorMessage_printable error message st :
  printable error = Some message ->
  parseErrorMessage error st
  = (Return (firstPattern ERROR_PATTERNS message), st).
Proof.
  unfold parseErrorMessage.
  destruct error as [m| | |s|[s|]]; cbn [printable]; intros H;
    try discriminate; injection H as <-; reflexivity.
Qed.

Lemma parseErrorMessage_unprintable error st :
  printable error = None ->
  parseErrorMessage error st
  = (Throw (VError "Cannot convert object to primitive value"), st).
Proof.
  destruct error as [m| | |s|[s|]]; cbn [printable]; intros H;
    try discriminate.
  reflexivity.
Qed.

Lemma faults_set_world w st : faults (set_world w st) = faults st.
Proof. reflexivity. Qed.

Lemma renderFailed_world k error message st :
  faults st = [] ->
  printable error = Some message ->
  renderFailed k error st
  = (Return tt,
     set_world
       (failedWorld k (firstPattern ERROR_PATTERNS message) (world st))
       (set_timeouts (timeouts st ++ [CleanupTimeout (s_uniqueId k)])
          (set_trace (trace st ++ [CallCleanup (s_uniqueId k)]) st))).
Proof.
  intros Hf Hp. unfold renderFailed, failedWorld.
  unfold bind at 1. rewrite (cleanup_world _ _ Hf).
  unfold bind at 1. unfold Document.setTimeout at 1, modify.
  unfold bind at 1. rewrite (parseErrorMessage_printable _ _ _ Hp).
  destruct st as [w rc ts ls os fs infl con tr fl]. cbn [faults] in Hf.
  subst fl.
  unfold bind at 1.
  unfold Document.setInnerHTML at 1, bind, mayRaise, writeWorld, modify.
  cbn [faults set_world set_timeouts set_trace world timeouts trace].
  rewrite createErrorElement_world by reflexivity.
  run_statements. autorewrite with refs. reflexivity.
Qed.

Lemma attachAndCommit_world k hasError st :
  faults st = [] ->
  attachAndCommit k hasError st
  = (Return (Some (s_container k)),
     set_listeners
       (listeners st
        ++ [(nextRef (world st),
             ToggleClick (s_sourceWrapper k) (s_renderedDiv k)
               (nextRef (world st)) hasError)])
       (set_world (committedWorld k hasError (world st)) st)).
Proof.
  intros Hf. unfold attachAndCommit, committedWorld.
  unfold bind at 1. rewrite (createToggleButton_toggleWorld _ _ _ _ Hf).
  destruct st as [w rc ts ls os fs infl con tr fl]. cbn [faults] in Hf.
  subst fl.
  unfold bind at 1. unfold Document.appendChild at 1, bind, mayRaise,
    writeWorld, modify.
  cbn [faults set_world set_listeners world listeners].
  rewrite getWrapperToReplace_world.
  run_statements. reflexivity.
Qed.

(** ** Frames *)

Lemma frame_base w : frame [] (nextRef w) [] w = w.
Proof. now destruct w. Qed.

Lemma old_document n w d :
  old n w -> document w = Some d -> bounded n d = true.
Proof.
  unfold old, roots. intros H E. rewrite E in H. simpl in H.
  now apply andb_true_iff in H as [H _].
Qed.

Lemma old_detached n w :
  old n w -> Forall (fun t => bounded n t = true) (detached w).
Proof.
  unfold old, roots. intros H. apply Forall_forall. intros t Ht.
  rewrite forallb_forall in H. apply H.
  destruct (document w); [now right|exact Ht].
Qed.

Lemma old_absent_document n w r d :
  old n w -> n <= r -> document w = Some d -> absent r d.
Proof. intros H Hr E. eapply bounded_absent; eauto using old_document. Qed.

Lemma old_absent_detached n w r :
  old n w -> n <= r -> Forall (absent r) (detached w).
Proof.
  intros H Hr. eapply Forall_impl; [|apply (old_detached _ _ H)].
  intros t Ht. simpl in Ht. exact (bounded_absent _ _ _ Ht Hr).
Qed.

Lemma map_id_Forall {A} (f : A -> A) l :
  Forall (fun x => f x = x) l -> map f l = l.
Proof. induction 1; simpl; congruence. Qed.

Lemma update_children_frame n r f L k E base :
  old n base -> n <= r ->
  update_children r f (frame L k E base)
  = frame (map (update r f) L) k E base.
Proof.
  intros Ho Hr. unfold update_children, frame, set_shape. cbn. f_equal.
  - destruct (document base) as [d|] eqn:Ed; [|reflexivity]. cbn.
    f_equal. apply update_absent. eapply old_absent_document; eauto.
  - rewrite map_app. f_equal. apply map_id_Forall.
    eapply Forall_impl; [|apply (old_absent_detached _ _ r Ho Hr)].
    intros t. apply update_absent.
Qed.

Lemma flat_map_prune_absent r l :
  Forall (absent r) l ->
  flat_map (fun t => if isRef r t then [] else [prune r t]) l = l.
Proof.
  induction 1 as [|t l Ht Hl IH]; simpl; [reflexivity|].
  now rewrite (absent_isRef _ _ Ht), (prune_absent _ _ Ht), IH.
Qed.

Lemma unlink_frame n r L k E base :
  old n base -> n <= r ->
  unlink r (frame L k E base)
  = frame (flat_map (fun t => if isRef r t then [] else [prune r t]) L)
      k E base.
Proof.
  intros Ho Hr. unfold unlink, frame, set_shape, isDocumentElement. cbn.
  f_equal.
  - destruct (document base) as [d|] eqn:Ed; [|reflexivity].
    pose proof (old_absent_document _ _ _ _ Ho Hr Ed) as Ha.
    rewrite (absent_isRef _ _ Ha). cbn. now rewrite (prune_absent _ _ Ha).
  - rewrite flat_map_app. f_equal. apply flat_map_prune_absent.
    now apply (old_absent_detached n).
Qed.

Lemma find_chains_absent_list r l :
  Forall (absent r) l -> find (chain_isRef r) (flat_map (chains []) l) = None.
Proof.
  intros H. apply find_flat_map_none.
  eapply Forall_impl; [|exact H]. intros t. apply chains_absent.
Qed.

Lemma chain_of_frame_fresh n r L k E base :
  old n base -> n <= r ->
  chain_of (frame L k E base) r
  = match find (chain_isRef r) (flat_map (chains []) L) with
    | Some ch => ch
    | None => []
    end.
Proof.
  intros Ho Hr. unfold chain_of, all_chains, document_chains, frame. cbn.
  rewrite find_app.
  assert (Hd : find (chain_isRef r)
                 match document base with
                 | Some root => chains [] root
                 | None => []
                 end = None).
  { destruct (document base) as [d|] eqn:Ed; [|reflexivity].
    apply chains_absent. eapply old_absent_document; eauto. }
  rewrite Hd, flat_map_app, find_app.
  destruct (find (chain_isRef r) (flat_map (chains []) L)); [reflexivity|].
  now rewrite (find_chains_absent_list _ _ (old_absent_detached _ _ r Ho Hr)).
Qed.

Lemma appendChild_frame n p c L k E base :
  old n base -> n <= p -> n <= c ->
  appendChild p c (frame L k E base) = frame (local_append p c L) k E base.
Proof.
  intros Ho Hp Hc. unfold appendChild, node_of, local_append.
  rewrite (chain_of_frame_fresh n) by assumption.
  destruct (find (chain_isRef c) (flat_map (chains []) L)) as [[|nd up]|];
    try reflexivity.
  cbn [hd_error]. rewrite (unlink_frame n), (update_children_frame n)
    by assumption.
  reflexivity.
Qed.

Lemma createElement_frame name L k E base :
  snd (createElement name (frame L k E base))
  = frame (Node k [] :: L) (S k)
      ((k, {| localName := name; attributes := []; display := "" |}) :: E)
      base.
Proof. reflexivity. Qed.

Lemma nextRef_frame L k E base : nextRef (frame L k E base) = k.
Proof. reflexivity. Qed.

Lemma update_element_frame r f L k E base :
  update_element r f (frame L k E base)
  = frame L k ((r, f (lookup (E ++ elements base) r)) :: E) base.
Proof. reflexivity. Qed.

Lemma setTextContent_frame n r v L k E base :
  old n base -> n <= r ->
  setTextContent r v (frame L k E base)
  = frame (map (update r (fun _ => if String.eqb v "" then [] else [Text v]))
             L) k E base.
Proof. intros. unfold setTextContent. now apply update_children_frame with n. Qed.

Lemma setInnerHTML_frame n r v L k E base :
  old n base -> n <= r ->
  setInnerHTML r v (frame L k E base)
  = frame (map (update r (fun _ => if String.eqb v "" then [] else [Markup v]))
             L) k E base.
Proof. intros. unfold setInnerHTML. now apply update_children_frame with n. Qed.

(** Decide the comparisons of references that arithmetic decides. *)
Ltac norm_eqb :=
  repeat match goal with
    | |- context [Nat.eqb ?a ?b] =>
        first [ rewrite (proj2 (Nat.eqb_eq a b)) by lia
              | rewrite (proj2 (Nat.eqb_neq a b)) by lia ]
    end.

Ltac frame_step n :=
  first
    [ rewrite createElement_frame
    | rewrite nextRef_frame
    | rewrite (appendChild_frame n) by (assumption || lia)
    | rewrite (setTextContent_frame n) by (assumption || lia)
    | rewrite (setInnerHTML_frame n) by (assumption || lia)
    | rewrite update_element_frame ].

Ltac eval_locals :=
  unfold local_append;
  repeat (progress
            (cbn [flat_map chains app find chain_isRef isRef map update
                  prune lookup hd_error withAttribute withDisplay assoc_set
                  attributes display localName String.eqb Ascii.eqb
                  Bool.eqb fst snd];
             norm_eqb)).

Lemma eqb_empty_false s : s <> "" -> String.eqb s "" = false.
Proof. intros H. now apply String.eqb_neq. Qed.

Lemma wrapperWorld_frame sourceCode base :
  old (nextRef base) base ->
  sourceCode <> "" ->
  exists E,
    wrapperWorld sourceCode base
    = frame [Node (nextRef base)
               [Node (S (nextRef base))
                  [Node (S (S (nextRef base))) [Text sourceCode]];
                Node (S (S (S (nextRef base)))) []]]
        (S (S (S (S (nextRef base))))) E base
    /\ fresh (nextRef base) [] E
    /\ lookup (E ++ elements base) (nextRef base)
       = {| localName := "div";
            attributes := [("class", "mpr-container");
                           ("data-mpr-processed", "true")];
            display := "" |}
    /\ lookup (E ++ elements base) (S (nextRef base))
       = {| localName := "pre";
            attributes := [("class", "mpr-source")];
            display := "none" |}
    /\ lookup (E ++ elements base) (S (S (nextRef base)))
       = {| localName := "code";
            attributes := [("class", "language-mermaid")];
            display := "" |}
    /\ lookup (E ++ elements base) (S (S (S (nextRef base))))
       = {| localName := "div";
            attributes := [("class", "mpr-rendered")];
            display := "" |}.
Proof.
  intros Ho Hsrc. set (n := nextRef base) in *.
  eexists. split.
  { replace (wrapperWorld sourceCode base)
      with (wrapperWorld sourceCode (frame [] n [] base))
      by (unfold n; now rewrite frame_base).
    unfold wrapperWorld, setClassName, setAttribute, setDisplay.
    cbv zeta.
    repeat frame_step n.
    rewrite (eqb_empty_false _ Hsrc).
    eval_locals. reflexivity. }
  split.
  { split; [constructor|]. repeat constructor; cbn [fst]; lia. }
  cbn [app lookup]. norm_eqb. repeat split.
Qed.

(** *** Chains and the references of a tree *)

Lemma chains_members up t ch x :
  In ch (chains up t) -> In x ch ->
  In x up \/ (forall r, isRef r x = true -> In r (tree_refs t))
             /\ incl (tree_refs x) (tree_refs t).
Proof.
  revert up ch. induction t as [r0 ks IH| |] using Tree_induction;
    intros up ch Hch Hx; simpl in Hch; try contradiction.
  destruct Hch as [<-|Hch].
  - destruct Hx as [<-|Hx]; [|now left]. right. split.
    + intros r Hr. simpl in Hr. apply Nat.eqb_eq in Hr. subst. now left.
    + apply incl_refl.
  - apply in_flat_map in Hch as [k [Hk Hch]].
    rewrite Forall_forall in IH.
    destruct (IH k Hk _ _ Hch Hx) as [[<-|Hup]|[H1 H2]].
    + right. split.
      * intros r Hr. simpl in Hr. apply Nat.eqb_eq in Hr. subst. now left.
      * apply incl_refl.
    + now left.
    + right. split.
      * intros r Hr. simpl. right. apply in_flat_map. exists k. auto.
      * intros r Hr. simpl. right. apply in_flat_map. exists k. auto.
Qed.

Lemma bounded_incl n t x :
  bounded n t = true -> incl (tree_refs x) (tree_refs t) -> bounded n x = true.
Proof.
  unfold bounded. rewrite !forallb_forall. intros H Hi r Hr. auto.
Qed.

Lemma prune_refs r t : incl (tree_refs (prune r t)) (tree_refs t).
Proof.
  induction t as [r0 ks IH| |] using Tree_induction; simpl;
    try apply incl_refl.
  intros x [<-|Hx]; [now left|]. right.
  apply in_flat_map in Hx as [k' [Hk' Hx]].
  apply in_flat_map in Hk' as [k [Hk Hk']].
  destruct (isRef r k); [contradiction|]. destruct Hk' as [<-|[]].
  rewrite Forall_forall in IH. apply in_flat_map. exists k. split; auto.
  now apply IH.
Qed.

(** The roots of a world in one list. *)
Lemma old_roots n w :
  old n w <-> Forall (fun t => bounded n t = true) (roots w).
Proof. unfold old. rewrite forallb_forall, Forall_forall. tauto. Qed.

Lemma all_chains_roots w ch :
  In ch (all_chains w) -> exists t, In t (roots w) /\ In ch (chains [] t).
Proof.
  unfold all_chains, document_chains, roots. intros H.
  apply in_app_or in H as [H|H].
  - destruct (document w) as [d|]; [|contradiction]. exists d. split; auto.
    now left.
  - apply in_flat_map in H as [t [Ht H]]. exists t. split; auto.
    destruct (document w); [now right|exact Ht].
Qed.

Lemma chain_of_members n w r x :
  old n w -> In x (chain_of w r) -> bounded n x = true.
Proof.
  intros Ho Hx. unfold chain_of in Hx.
  destruct (find (chain_isRef r) (all_chains w)) as [ch|] eqn:E;
    [|contradiction].
  apply find_some in E as [E _].
  apply all_chains_roots in E as [t [Ht E]].
  destruct (chains_members _ _ _ _ E Hx) as [[]|[_ Hi]].
  apply old_roots in Ho. rewrite Forall_forall in Ho.
  eapply bounded_incl; eauto.
Qed.

Lemma bounded_root n r ks : bounded n (Node r ks) = true -> r < n.
Proof.
  unfold bounded. simpl. intros H. apply andb_true_iff in H as [H _].
  now apply Nat.ltb_lt.
Qed.

Lemma chain_of_head w r ch x :
  chain_of w r = x :: ch -> isRef r x = true.
Proof.
  unfold chain_of.
  destruct (find (chain_isRef r) (all_chains w)) as [c|] eqn:E;
    [|discriminate].
  intros ->. now apply find_some in E as [_ E].
Qed.

Lemma chain_of_old n w r :
  old n w -> chain_of w r <> [] -> r < n.
Proof.
  intros Ho Hne. destruct (chain_of w r) as [|x ch] eqn:E; [congruence|].
  pose proof (chain_of_head _ _ _ _ E) as Hr.
  assert (Hb : bounded n x = true)
    by (eapply chain_of_members; eauto; rewrite E; now left).
  destruct x as [r' ks| |]; try discriminate.
  simpl in Hr. apply Nat.eqb_eq in Hr. subst. eapply bounded_root; eauto.
Qed.

(** *** Reading the old elements through a frame *)

Lemma lookup_fresh n E els r :
  Forall (fun e : Ref * Element => n <= fst e) E -> r < n ->
  lookup (E ++ els) r = lookup els r.
Proof.
  induction 1 as [|[k e] E Hk HE IH]; intros Hr; simpl; [reflexivity|].
  simpl in Hk. replace (k =? r) with false
    by (symmetry; apply Nat.eqb_neq; lia). auto.
Qed.

Lemma chain_of_frame_old n r L k E base :
  fresh n L E -> r < n ->
  chain_of (frame L k E base) r = chain_of base r.
Proof.
  intros [HL _] Hr. unfold chain_of, all_chains, document_chains, frame. cbn.
  rewrite flat_map_app, !find_app.
  rewrite (find_chains_absent_list r L); [reflexivity|].
  eapply Forall_impl; [|exact HL]. intros t Ht Hin.
  rewrite Forall_forall in Ht. apply Ht in Hin. lia.
Qed.

Lemma wrapperOf_frame n element config L k E base :
  fresh n L E -> element < n ->
  wrapperOf (frame L k E base) element config
  = wrapperOf base element config.
Proof.
  intros Hf Hr. unfold wrapperOf, parentElement.
  now rewrite (chain_of_frame_old n).
Qed.

Lemma wrapperOf_old n w element config :
  old n w -> element < n -> wrapperOf w element config < n.
Proof.
  intros Ho Hr. unfold wrapperOf, parentElement.
  destruct (Platform_eqb (platform config) grok); [exact Hr|].
  destruct (chain_of w element) as [|x [|[p ks| |] up]] eqn:E; try exact Hr.
  assert (Hb : bounded n (Node p ks) = true).
  { eapply chain_of_members; eauto. rewrite E. right. now left. }
  eapply bounded_root; eauto.
Qed.

(** *** Selecting and removing through a frame *)

Lemma matches_compound_ext els1 els2 x c :
  (forall r, isRef r x = true -> els1 r = els2 r) ->
  matches_compound els1 x c = matches_compound els2 x c.
Proof.
  destruct x as [r ks| |]; simpl; try reflexivity.
  intros H. rewrite (H r (Nat.eqb_refl r)). reflexivity.
Qed.

Lemma matches_ancestors_ext els1 els2 cs up :
  (forall x r, In x up -> isRef r x = true -> els1 r = els2 r) ->
  matches_ancestors els1 cs up = matches_ancestors els2 cs up.
Proof.
  revert up. induction cs as [|c cs IH]; intros up H; [reflexivity|].
  induction up as [|a up IHup]; [reflexivity|].
  cbn [matches_ancestors] in *.
  rewrite (matches_compound_ext els1 els2 a c)
    by (intros r; apply H; now left).
  rewrite (IH up) by (intros x r Hx; apply H; now right).
  f_equal. apply IHup. intros x r Hx. apply H. now right.
Qed.

Lemma chain_matches_ext els1 els2 sel ch :
  (forall x r, In x ch -> isRef r x = true -> els1 r = els2 r) ->
  chain_matches els1 sel ch = chain_matches els2 sel ch.
Proof.
  destruct ch as [|x up]; [reflexivity|]. intros H.
  unfold chain_matches, matches. destruct (List.rev sel) as [|c cs];
    [reflexivity|].
  rewrite (matches_compound_ext els1 els2 x c)
    by (intros r; apply H; now left).
  f_equal. apply matches_ancestors_ext. intros y r Hy. apply H. now right.
Qed.

Lemma document_chains_old n w ch x r :
  old n w -> In ch (document_chains w) -> In x ch -> isRef r x = true ->
  r < n.
Proof.
  intros Ho Hch Hx Hr. unfold document_chains in Hch.
  destruct (document w) as [d|] eqn:Ed; [|contradiction].
  destruct (chains_members _ _ _ _ Hch Hx) as [[]|[H _]].
  apply H in Hr. pose proof (old_document _ _ _ Ho Ed) as Hb.
  unfold bounded in Hb. rewrite forallb_forall in Hb.
  apply Hb in Hr. now apply Nat.ltb_lt.
Qed.

Lemma querySelectorAll_frame n sel L k E base :
  old n base -> fresh n L E ->
  querySelectorAll (frame L k E base) sel = querySelectorAll base sel.
Proof.
  intros Ho [_ HE]. unfold querySelectorAll.
  change (document_chains (frame L k E base)) with (document_chains base).
  f_equal. apply filter_ext_in. intros ch Hch.
  apply chain_matches_ext. intros x r Hx Hr.
  unfold element_of, frame. cbn. apply (lookup_fresh n); auto.
  eapply document_chains_old; eauto.
Qed.

Lemma refs_of_old n w l r :
  old n w -> incl l (document_chains w) -> In r (refs_of l) -> r < n.
Proof.
  intros Ho Hl Hr. apply refs_of_In in Hr as [ch [Hch Href]].
  destruct ch as [|[r' ks| |] up]; try discriminate.
  injection Href as ->.
  apply (document_chains_old n w (Node r ks :: up) (Node r ks) r); auto.
  - now left.
  - apply Nat.eqb_refl.
Qed.

Lemma querySelectorAll_old n w sel :
  old n w -> Forall (fun r => r < n) (querySelectorAll w sel).
Proof.
  intros Ho. apply Forall_forall. intros r Hr.
  eapply refs_of_old; eauto. intros ch Hch.
  now apply filter_In in Hch as [Hch _].
Qed.

Lemma fresh_absent n L E r :
  fresh n L E -> r < n -> Forall (absent r) L.
Proof.
  intros [HL _] Hr. eapply Forall_impl; [|exact HL]. intros t Ht Hin.
  rewrite Forall_forall in Ht. apply Ht in Hin. lia.
Qed.

Lemma unlink_frame_old n r L k E base :
  fresh n L E -> r < n ->
  unlink r (frame L k E base) = frame L k E (unlink r base).
Proof.
  intros Hf Hr. unfold unlink, frame, set_shape, isDocumentElement. cbn.
  f_equal. rewrite flat_map_app. f_equal.
  apply flat_map_prune_absent. eapply fresh_absent; eauto.
Qed.

Lemma remove_frame n r L k E base :
  fresh n L E -> r < n ->
  remove r (frame L k E base) = frame L k E (remove r base).
Proof.
  intros Hf Hr. unfold remove, node_of.
  rewrite (chain_of_frame_old n) by assumption.
  destruct (hd_error (chain_of base r)) as [nd|]; [|reflexivity].
  cbv zeta. rewrite (unlink_frame_old n) by assumption.
  unfold reshape, set_shape, frame. cbn. f_equal. now rewrite app_assoc.
Qed.

Lemma fold_remove_frame n els L k E base :
  fresh n L E -> Forall (fun r => r < n) els ->
  fold_left (fun w el => remove el w) els (frame L k E base)
  = frame L k E (fold_left (fun w el => remove el w) els base).
Proof.
  intros Hf H. revert base. induction H as [|r els Hr Hels IH]; intros base;
    [reflexivity|].
  cbn [fold_left]. rewrite (remove_frame n) by assumption. apply IH.
Qed.

Lemma flat_map_Forall {A B} (P : B -> Prop) (f : A -> list B) l :
  (forall x, In x l -> Forall P (f x)) -> Forall P (flat_map f l).
Proof.
  intros H. apply Forall_forall. intros y Hy.
  apply in_flat_map in Hy as [x [Hx Hy]].
  specialize (H x Hx). rewrite Forall_forall in H. auto.
Qed.

Lemma old_remove n r w : old n w -> old n (remove r w).
Proof.
  intros Ho. unfold remove, node_of.
  destruct (chain_of w r) as [|nd up] eqn:E; cbn [hd_error].
  - unfold reshape, set_shape. now destruct w.
  - assert (Hnd : bounded n nd = true)
      by (eapply chain_of_members; eauto; rewrite E; now left).
    apply old_roots. apply old_roots in Ho.
    unfold roots, reshape, set_shape, unlink, isDocumentElement in *. cbn.
    assert (Hp : forall t, bounded n t = true -> bounded n (prune r t) = true)
      by (intros t Ht; eapply bounded_incl; eauto using prune_refs).
    assert (Hdet : Forall (fun t => bounded n t = true)
                     (flat_map
                        (fun k => if isRef r k then [] else [prune r k])
                        (detached w) ++ [nd])).
    { apply Forall_app. split; [|now constructor].
      apply flat_map_Forall. intros t Ht.
      destruct (isRef r t); constructor; [|constructor].
      apply Hp. rewrite Forall_forall in Ho. apply Ho.
      destruct (document w); [now right|exact Ht]. }
    destruct (document w) as [d|] eqn:Ed; [|exact Hdet].
    destruct (isRef r d); cbn; [exact Hdet|].
    constructor; [|exact Hdet]. apply Hp. now inversion Ho.
Qed.

Lemma old_fold_remove n els w :
  old n w -> old n (fold_left (fun w el => remove el w) els w).
Proof.
  revert w. induction els as [|r els IH]; intros w Ho; [exact Ho|].
  cbn [fold_left]. apply IH. now apply old_remove.
Qed.

Lemma removeAll_frame n sel L k E base :
  old n base -> fresh n L E ->
  removeAll sel (frame L k E base) = frame L k E (removeAll sel base).
Proof.
  intros Ho Hf. unfold removeAll.
  rewrite (querySelectorAll_frame n) by assumption.
  apply (fold_remove_frame n); auto. now apply querySelectorAll_old.
Qed.

Lemma old_removeAll n sel w : old n w -> old n (removeAll sel w).
Proof. intros Ho. now apply old_fold_remove. Qed.

Lemma cleanupWorld_frame n renderId L k E base :
  old n base -> fresh n L E ->
  cleanupWorld renderId (frame L k E base)
  = frame L k E (cleanupWorld renderId base)
  /\ old n (cleanupWorld renderId base).
Proof.
  intros Ho Hf. unfold cleanupWorld.
  generalize (errorSelectors renderId). intros sels. revert base Ho.
  induction sels as [|sel sels IH]; intros base Ho; [now split|].
  cbn [fold_left]. rewrite (removeAll_frame n) by assumption.
  apply IH. now apply old_removeAll.
Qed.

Lemma elements_fold_remove els w :
  elements (fold_left (fun w el => remove el w) els w) = elements w
  /\ nextRef (fold_left (fun w el => remove el w) els w) = nextRef w.
Proof.
  revert w. induction els as [|r els IH]; intros w; [now split|].
  cbn [fold_left]. destruct (IH (remove r w)) as [-> ->]. now split.
Qed.

Lemma elements_cleanupWorld renderId w :
  elements (cleanupWorld renderId w) = elements w
  /\ nextRef (cleanupWorld renderId w) = nextRef w.
Proof.
  unfold cleanupWorld. generalize (errorSelectors renderId).
  intros sels. revert w. induction sels as [|sel sels IH]; intros w;
    [now split|].
  cbn [fold_left]. destruct (IH (removeAll sel w)) as [-> ->].
  apply elements_fold_remove.
Qed.

(** *** Where [replaceWith] puts the new tree *)

Lemma all_chains_roots_eq w : all_chains w = flat_map (chains []) (roots w).
Proof.
  unfold all_chains, document_chains, roots.
  destruct (document w); [reflexivity|reflexivity].
Qed.

Lemma find_flat_map_chains_none r up ks :
  existsb (fun k => isRef r k || below r k) ks = false ->
  Forall (fun k => forall up, isRef r k = false -> below r k = false ->
                   find (chain_isRef r) (chains up k) = None) ks ->
  find (chain_isRef r) (flat_map (chains up) ks) = None.
Proof.
  induction ks as [|k ks IH]; intros He Hall; [reflexivity|].
  cbn [existsb] in He. apply orb_false_elim in He as [Hk He].
  apply orb_false_elim in Hk as [Hk1 Hk2].
  inversion Hall as [|? ? Hk' Hks]; subst.
  cbn [flat_map]. rewrite find_app, (Hk' up Hk1 Hk2). auto.
Qed.

Lemma find_chains_none r t : forall up,
  isRef r t = false -> below r t = false ->
  find (chain_isRef r) (chains up t) = None.
Proof.
  induction t as [r0 ks IH| |] using Tree_induction; intros up Hr Hb;
    try reflexivity.
  cbn [chains find chain_isRef]. rewrite Hr.
  now apply find_flat_map_chains_none.
Qed.

Lemma find_chains_some r t up :
  find (chain_isRef r) (chains up t) <> None ->
  isRef r t || below r t = true.
Proof.
  intros H. destruct (isRef r t) eqn:Hr; [reflexivity|].
  destruct (below r t) eqn:Hb; [reflexivity|].
  now rewrite find_chains_none in H.
Qed.

Lemma substitute_not_below r m t :
  below r t = false -> substitute r m t = t.
Proof.
  induction t as [r0 ks IH| |] using Tree_induction; intros Hb;
    try reflexivity.
  cbn [substitute]. f_equal. cbn [below] in Hb.
  induction ks as [|k ks IHks]; [reflexivity|].
  cbn [existsb] in Hb. apply orb_false_elim in Hb as [Hk Hb].
  apply orb_false_elim in Hk as [Hk1 Hk2].
  inversion IH; subst. cbn [map]. rewrite Hk1. f_equal; auto.
Qed.

Section Substitute.

Variables (wrapper c : Ref) (ks0 : list Tree).
Let T := Node c ks0.

Lemma find_T up : find (chain_isRef c) (chains up T) = Some (T :: up).
Proof. subst T. cbn. now rewrite Nat.eqb_refl. Qed.

Lemma substitute_find t : forall up,
  absent c t -> below wrapper t = true ->
  exists p, find (chain_isRef c) (chains up (substitute wrapper T t))
            = Some (T :: p).
Proof.
  induction t as [r0 ks IH| |] using Tree_induction; intros up Ha Hb;
    try discriminate.
  apply absent_Node in Ha as [Hne Hall].
  cbn [substitute chains find chain_isRef isRef].
  replace (r0 =? c) with false by (symmetry; now apply Nat.eqb_neq).
  set (N' := Node r0 _). clearbody N'.
  cbn [below] in Hb.
  induction ks as [|k ks IHks]; [discriminate|].
  inversion IH as [|? ? IHk IHrest]; subst.
  inversion Hall as [|? ? Hak Harest]; subst.
  cbn [map flat_map]. rewrite find_app.
  destruct (isRef wrapper k) eqn:Hk.
  - rewrite find_T. eauto.
  - cbn [existsb] in Hb. rewrite Hk in Hb. cbn [orb] in Hb.
    destruct (below wrapper k) eqn:Hbk.
    + destruct (IHk (N' :: up) Hak eq_refl) as [p ->]. eauto.
    + rewrite (substitute_not_below _ _ _ Hbk).
      rewrite (chains_absent _ _ _ Hak). cbn [orb] in Hb. auto.
Qed.

Lemma substitute_find_list ts tail :
  Forall (absent c) ts ->
  existsb (fun t => isRef wrapper t) ts = false ->
  existsb (fun t => isRef wrapper t || below wrapper t) ts = true ->
  exists p,
    find (chain_isRef c)
         (flat_map (chains []) (map (substitute wrapper T) ts ++ tail))
    = Some (T :: p).
Proof.
  induction 1 as [|t ts Ht Hts IH]; intros Hroot Hex; [discriminate|].
  cbn [existsb] in Hroot, Hex.
  apply orb_false_elim in Hroot as [Hr Hroot]. rewrite Hr in Hex.
  cbn [orb map app flat_map]. rewrite find_app.
  destruct (below wrapper t) eqn:Hb.
  - destruct (substitute_find t [] Ht Hb) as [p ->]. eauto.
  - rewrite (substitute_not_below _ _ _ Hb), (chains_absent _ _ _ Ht).
    apply IH; auto.
Qed.

End Substitute.

Lemma node_of_shape w1 w2 r :
  document w1 = document w2 -> detached w1 = detached w2 ->
  node_of w1 r = node_of w2 r.
Proof.
  intros Hd Ht. unfold node_of, chain_of, all_chains, document_chains.
  now rewrite Hd, Ht.
Qed.

Lemma node_of_reshape shape w r : node_of (reshape shape w) r = node_of shape r.
Proof. reflexivity. Qed.

Lemma existsb_isRef_roots wrapper w :
  existsb (isRef wrapper) (detached w) = false ->
  isDocumentElement w wrapper = false ->
  existsb (fun t => isRef wrapper t) (roots w) = false.
Proof.
  unfold roots, isDocumentElement. intros Hd Hr.
  destruct (document w); cbn [existsb]; [now rewrite Hr|exact Hd].
Qed.

Lemma replaceWith_lookup n wrapper c ks k E base :
  old n base -> wrapper < n -> n <= c ->
  node_of (replaceWith wrapper c (frame [Node c ks] k E base)) c
  = Some (Node c ks).
Proof.
  intros Ho Hw Hc. set (W := frame [Node c ks] k E base).
  assert (HT : node_of W c = Some (Node c ks)).
  { unfold node_of, W. rewrite (chain_of_frame_fresh n) by assumption.
    cbn [flat_map app]. now rewrite find_app, find_T. }
  unfold replaceWith.
  rewrite node_of_reshape.
  destruct (existsb (isRef wrapper) (detached W)) eqn:Hdet; [exact HT|].
  rewrite HT. cbv zeta.
  assert (Hu : unlink c W = frame [] k E base).
  { unfold W. rewrite (unlink_frame n) by assumption.
    cbn [flat_map app isRef]. now rewrite Nat.eqb_refl. }
  rewrite Hu.
  destruct (node_of (frame [] k E base) wrapper) as [o|] eqn:Ho'; [|exact HT].
  unfold node_of, chain_of. rewrite all_chains_roots_eq.
  unfold roots, set_shape. cbn [document detached frame app].
  assert (Hdet' : existsb (isRef wrapper) (detached base) = false).
  { unfold W, frame in Hdet. cbn in Hdet.
    now apply orb_false_elim in Hdet as [_ Hdet]. }
  destruct (isDocumentElement (frame [] k E base) wrapper) eqn:Hroot.
  - cbn [flat_map]. now rewrite find_app, find_T.
  - assert (Hex : existsb (fun t => isRef wrapper t || below wrapper t)
                    (roots base) = true).
    { unfold node_of, chain_of in Ho'.
      destruct (find (chain_isRef wrapper) (all_chains (frame [] k E base)))
        as [ch|] eqn:Ef; [|discriminate].
      apply find_some in Ef as [Hin Hhead].
      apply all_chains_roots in Hin as [t [Ht Hin]].
      apply existsb_exists. exists t. split; [exact Ht|].
      apply (find_chains_some _ _ []).
      intros Hnone. apply (find_none _ _ Hnone) in Hin. congruence. }
    assert (Hroots : existsb (fun t => isRef wrapper t) (roots base) = false)
      by (apply existsb_isRef_roots; assumption).
    assert (Habs : Forall (absent c) (roots base)).
    { apply old_roots in Ho. eapply Forall_impl; [|exact Ho].
      intros t Ht. simpl in Ht. exact (bounded_absent _ _ _ Ht Hc). }
    destruct (substitute_find_list wrapper c ks (roots base) [o]
                Habs Hroots Hex) as [p Hp].
    unfold roots in Hp. destruct (document base) as [d|]; cbn [option_map];
      cbn [map app] in Hp |- *; now rewrite Hp.
Qed.

(** ** [renderMermaidBlock] as a function of the world *)

Lemma start_empty element config st :
  faults st = [] ->
  sourceOf (world st) element config = "" ->
  renderMermaidBlock_start element config st = (Return (Done None), st).
Proof.
  intros Hf Hs. unfold renderMermaidBlock_start, try_catch.
  unfold bind at 1. rewrite (extractSourceCode_world _ _ _ Hf), Hs.
  reflexivity.
Qed.

Lemma start_awaiting element config st :
  faults st = [] ->
  sourceOf (world st) element config <> "" ->
  renderMermaidBlock_start element config st
  = (Return (Awaiting (suspendedAt st element config)),
     set_trace
       (trace st
        ++ [CallRender (s_uniqueId (suspendedAt st element config))
              (sourceOf (world st) element config)])
       (set_renderCounter (S (renderCounter st))
          (set_world
             (wrapperWorld (sourceOf (world st) element config) (world st))
             st))).
Proof.
  intros Hf Hs. unfold renderMermaidBlock_start, try_catch.
  unfold bind at 1. rewrite (extractSourceCode_world _ _ _ Hf).
  rewrite (eqb_empty_false _ Hs).
  unfold bind at 1. rewrite (createPreservingWrapper_world _ _ Hf).
  destruct st as [w rc ts ls os fs infl con tr fl]. cbn [faults] in Hf.
  subst fl. reflexivity.
Qed.

Lemma resume_resolved k svg st :
  faults st = [] ->
  renderMermaidBlock_resume k (Resolved svg) st
  = (Return (Some (s_container k)),
     set_listeners
       (listeners st
        ++ [(nextRef (world st),
             ToggleClick (s_sourceWrapper k) (s_renderedDiv k)
               (nextRef (world st)) false)])
       (set_world
          (committedWorld k false
             (setInnerHTML (s_renderedDiv k) svg (world st)))
          st)).
Proof.
  intros Hf. unfold renderMermaidBlock_resume.
  unfold try_catch at 1. unfold bind at 1. unfold try_catch at 1.
  unfold bind at 1. unfold Document.setInnerHTML at 1, bind, mayRaise.
  rewrite Hf. unfold writeWorld, modify, ret.
  rewrite attachAndCommit_world by exact Hf.
  destruct st; reflexivity.
Qed.

Lemma resume_rejected k error message st :
  faults st = [] ->
  printable error = Some message ->
  renderMermaidBlock_resume k (Rejected error) st
  = (Return (Some (s_container k)),
     set_listeners
       (listeners st
        ++ [(nextRef (world st) + 4,
             ToggleClick (s_sourceWrapper k) (s_renderedDiv k)
               (nextRef (world st) + 4) true)])
       (set_world
          (committedWorld k true
             (failedWorld k (firstPattern ERROR_PATTERNS message)
                (world st)))
          (set_timeouts (timeouts st ++ [CleanupTimeout (s_uniqueId k)])
             (set_trace (trace st ++ [CallCleanup (s_uniqueId k)]) st)))).
Proof.
  intros Hf Hp. unfold renderMermaidBlock_resume.
  unfold try_catch at 1. unfold bind at 1. unfold try_catch at 1.
  unfold throw. unfold bind at 1.
  rewrite (renderFailed_world _ _ _ _ Hf Hp). unfold ret.
  rewrite attachAndCommit_world by exact Hf.
  assert (Hn : nextRef (failedWorld k (firstPattern ERROR_PATTERNS message)
                          (world st)) = nextRef (world st) + 4).
  { unfold failedWorld, errorElementWorld. cbv zeta.
    destruct (details _) as [[|? ?]|]; autorewrite with refs;
      rewrite (proj2 (elements_cleanupWorld _ _)); lia. }
  destruct st as [w rc ts ls os fs infl con tr fl].
  cbn [world set_world set_timeouts set_trace listeners] in *.
  rewrite Hn. reflexivity.
Qed.

Lemma resume_unprintable k error st :
  faults st = [] ->
  printable error = None ->
  fst (renderMermaidBlock_resume k (Rejected error) st) = Return None.
Proof.
  intros Hf Hp. unfold renderMermaidBlock_resume.
  unfold try_catch at 1. unfold bind at 1. unfold try_catch at 1.
  unfold throw. unfold bind at 1. unfold renderFailed.
  unfold bind at 1. rewrite (cleanup_world _ _ Hf).
  unfold bind at 1. unfold Document.setTimeout at 1, modify.
  unfold bind at 1. rewrite (parseErrorMessage_unprintable _ _ Hp).
  reflexivity.
Qed.

(** ** The artifact *)

Lemma element_of_replaceWith a b w r :
  element_of (replaceWith a b w) r = element_of w r.
Proof. reflexivity. Qed.

Lemma element_of_frame L k E base r :
  element_of (frame L k E base) r = lookup (E ++ elements base) r.
Proof. reflexivity. Qed.

Ltac solve_fresh :=
  split;
  repeat first [ apply Forall_nil | apply Forall_cons
               | progress cbn [tree_refs flat_map app fst] | lia ].

Ltac unfold_setters :=
  unfold setClassName, setTitle, setAttribute, setDisplay, classListAdd.

(** Evaluate the calls that are applied to a frame. *)
Ltac stage n :=
  cbn [s_element s_config s_sourceCode s_container s_sourceWrapper
       s_renderedDiv s_uniqueId];
  cbv zeta; unfold_setters;
  repeat frame_step n;
  eval_locals.

Lemma nextRef_cleanupWorld renderId w :
  nextRef (cleanupWorld renderId w) = nextRef w.
Proof. apply elements_cleanupWorld. Qed.

Lemma elements_cleanupWorld' renderId w :
  elements (cleanupWorld renderId w) = elements w.
Proof. apply elements_cleanupWorld. Qed.

Lemma precommit_resolved base k svg :
  let n := nextRef base in
  old n base ->
  s_sourceCode k <> "" ->
  s_element k < n ->
  s_container k = n -> s_sourceWrapper k = S n ->
  s_renderedDiv k = S (S (S n)) ->
  exists E,
    committedWorld k false
      (setInnerHTML (S (S (S n))) svg (wrapperWorld (s_sourceCode k) base))
    = replaceWith (wrapperOf base (s_element k) (s_config k)) n
        (frame
           [Node n
              [Node (S n) [Node (S (S n)) [Text (s_sourceCode k)]];
               Node (S (S (S n)))
                 (if String.eqb svg "" then [] else [Markup svg]);
               Node (S (S (S (S n)))) [Text "{ }"]]]
           (S (S (S (S (S n))))) E base)
    /\ lookup (E ++ elements base) n
       = {| localName := "div";
            attributes := [("class", "mpr-container");
                           ("data-mpr-processed", "true")];
            display := "" |}
    /\ lookup (E ++ elements base) (S n)
       = {| localName := "pre"; attributes := [("class", "mpr-source")];
            display := "none" |}
    /\ lookup (E ++ elements base) (S (S n))
       = {| localName := "code";
            attributes := [("class", "language-mermaid")];
            display := "" |}
    /\ lookup (E ++ elements base) (S (S (S n)))
       = {| localName := "div"; attributes := [("class", "mpr-rendered")];
            display := "" |}.
Proof.
  intros n Ho Hsrc Hel Hc Hsw Hrd.
  destruct k as [element' config' src c sw rd uid].
  cbn [s_element s_config s_sourceCode s_container s_sourceWrapper
       s_renderedDiv] in *. subst c sw rd.
  eexists. split.
  { replace base with (frame [] n [] base) at 1
      by (unfold n; now rewrite frame_base).
    unfold wrapperWorld. stage n.
    rewrite (eqb_empty_false _ Hsrc). stage n.
    destruct (String.eqb svg ""); stage n;
      unfold committedWorld, toggleWorld; stage n;
      (rewrite (wrapperOf_frame n) by (solve_fresh || assumption));
      reflexivity. }
  cbn [app lookup]; norm_eqb; repeat split.
Qed.

Lemma precommit_rejected base k parsedError :
  let n := nextRef base in
  let base' := cleanupWorld (s_uniqueId k) base in
  old n base ->
  s_sourceCode k <> "" ->
  userMessage parsedError <> "" ->
  s_element k < n ->
  s_container k = n -> s_sourceWrapper k = S n ->
  s_renderedDiv k = S (S (S n)) ->
  exists E,
    committedWorld k true
      (failedWorld k parsedError (wrapperWorld (s_sourceCode k) base))
    = replaceWith (wrapperOf base' (s_element k) (s_config k)) n
        (frame
           [Node n
              [Node (S n) [Node (S (S n)) [Text (s_sourceCode k)]];
               Node (S (S (S n)))
                 [Node (4 + n)
                    [Node (5 + n) [Text (userMessage parsedError)];
                     Node (6 + n)
                       match details parsedError with
                       | Some (String c r) => [Text (String c r)]
                       | _ => []
                       end;
                     Node (7 + n) [Text "Check the source code below"]]];
               Node (8 + n) [Text PLAY_ICON]]]
           (9 + n) E base')
    /\ old n base'
    /\ lookup (E ++ elements base') n
       = {| localName := "div";
            attributes := [("class", "mpr-container");
                           ("data-mpr-processed", "true")];
            display := "" |}
    /\ lookup (E ++ elements base') (S n)
       = {| localName := "pre"; attributes := [("class", "mpr-source")];
            display := "block" |}
    /\ lookup (E ++ elements base') (S (S n))
       = {| localName := "code";
            attributes := [("class", "language-mermaid")];
            display := "" |}
    /\ lookup (E ++ elements base') (S (S (S n)))
       = {| localName := "div";
            attributes := [("class", "mpr-rendered mpr-error-container")];
            display := "block" |}
    /\ lookup (E ++ elements base') (4 + n)
       = {| localName := "div"; attributes := [("class", "mpr-error")];
            display := "" |}.
Proof.
  intros n base' Ho Hsrc Hmsg Hel Hc Hsw Hrd.
  destruct k as [element' config' src c sw rd uid].
  cbn [s_element s_config s_sourceCode s_container s_sourceWrapper
       s_renderedDiv s_uniqueId] in *. subst c sw rd.
  assert (Ho' : old n base').
  { apply (cleanupWorld_frame n uid [] n [] base Ho). split; constructor. }
  destruct parsedError as [um [[|c r]|] oe];
  cbn [userMessage details] in *;
  (eexists; split;
   [ replace base with (frame [] n [] base) at 1
       by (unfold n; now rewrite frame_base);
     unfold wrapperWorld; stage n;
     rewrite (eqb_empty_false _ Hsrc); stage n;
     unfold failedWorld; stage n;
     match goal with
     | |- context [cleanupWorld uid (frame ?L ?k ?E base)] =>
         rewrite (proj1 (cleanupWorld_frame n uid L k E base Ho
                           ltac:(solve_fresh)))
     end;
     fold base'; stage n;
     unfold errorElementWorld; cbn [userMessage details]; stage n;
     rewrite (eqb_empty_false _ Hmsg); stage n;
     cbn [classList_add classList_contains classList getAttribute assoc
          attributes existsb Js.tokens isAsciiWhitespace nat_of_ascii
          Nat.eqb orb String.concat app String.append];
     stage n;
     unfold committedWorld, toggleWorld; stage n;
     (rewrite (wrapperOf_frame n) by (solve_fresh || assumption));
     reflexivity
   | split; [exact Ho'|];
     cbn [app lookup]; norm_eqb; repeat split ]).
Qed.

Lemma trim_empty : Js.trim "" = "".
Proof. reflexivity. Qed.

Lemma sourceOf_element n w element config :
  old n w -> sourceOf w element config <> "" -> element < n.
Proof.
  intros Ho Hs. apply (chain_of_old n w); [exact Ho|]. intros Hc.
  apply Hs. unfold sourceOf, querySelector, textContent_of, node_of.
  rewrite Hc. now destruct (Platform_eqb (platform config) grok).
Qed.

Lemma userMessage_firstPattern ps message :
  userMessage (firstPattern ps message) = "Failed to render diagram".
Proof.
  induction ps as [|p ps IH]; [reflexivity|]. cbn [firstPattern].
  now destruct (Regex.search (pattern p) message).
Qed.

Lemma renderMermaidBlock_empty element config settled st :
  faults st = [] ->
  sourceOf (world st) element config = "" ->
  renderMermaidBlock element config settled st = (Return None, st).
Proof.
  intros Hf Hs. unfold renderMermaidBlock, bind.
  now rewrite (start_empty _ _ _ Hf Hs).
Qed.

Lemma renderMermaidBlock_resolved element config svg st :
  faults st = [] ->
  sourceOf (world st) element config <> "" ->
  exists st',
    renderMermaidBlock element config (Resolved svg) st
    = (Return (Some (nextRef (world st))), st')
    /\ world st'
       = committedWorld (suspendedAt st element config) false
           (setInnerHTML (S (S (S (nextRef (world st))))) svg
              (wrapperWorld (sourceOf (world st) element config) (world st)))
    /\ trace st'
       = trace st
         ++ [CallRender (s_uniqueId (suspendedAt st element config))
               (sourceOf (world st) element config)]
    /\ timeouts st' = timeouts st.
Proof.
  intros Hf Hs. unfold renderMermaidBlock, bind.
  rewrite (start_awaiting _ _ _ Hf Hs).
  rewrite resume_resolved by (destruct st; exact Hf).
  eexists. split; [reflexivity|].
  destruct st as [w rc ts ls os fs infl con tr fl]. repeat split.
Qed.

Lemma renderMermaidBlock_rejected element config error message st :
  faults st = [] ->
  sourceOf (world st) element config <> "" ->
  printable error = Some message ->
  exists st',
    renderMermaidBlock element config (Rejected error) st
    = (Return (Some (nextRef (world st))), st')
    /\ world st'
       = committedWorld (suspendedAt st element config) true
           (failedWorld (suspendedAt st element config)
              (firstPattern ERROR_PATTERNS message)
              (wrapperWorld (sourceOf (world st) element config) (world st)))
    /\ trace st'
       = trace st
         ++ [CallRender (s_uniqueId (suspendedAt st element config))
               (sourceOf (world st) element config);
             CallCleanup (s_uniqueId (suspendedAt st element config))]
    /\ timeouts st'
       = timeouts st
         ++ [CleanupTimeout (s_uniqueId (suspendedAt st element config))].
Proof.
  intros Hf Hs Hp. unfold renderMermaidBlock, bind.
  rewrite (start_awaiting _ _ _ Hf Hs).
  rewrite (resume_rejected _ _ message) by (destruct st; assumption).
  eexists. split; [reflexivity|].
  destruct st as [w rc ts ls os fs infl con tr fl].
  cbn [world trace timeouts set_world set_trace set_timeouts
       set_renderCounter set_listeners].
  rewrite <- app_assoc. repeat split.
Qed.

(** ** A render rejected with an error that cannot be printed *)

Lemma renderMermaidBlock_unprintable element config error st :
  faults st = [] ->
  sourceOf (world st) element config <> "" ->
  printable error = None ->
  let k := suspendedAt st element config in
  exists st',
    renderMermaidBlock element config (Rejected error) st
    = (Return None, st')
    /\ world st'
       = cleanupWorld (s_uniqueId k)
           (wrapperWorld (sourceOf (world st) element config) (world st))
    /\ trace st'
       = trace st
         ++ [CallRender (s_uniqueId k) (sourceOf (world st) element config);
             CallCleanup (s_uniqueId k)]
    /\ timeouts st' = timeouts st ++ [CleanupTimeout (s_uniqueId k)]
    /\ console st' = console st ++ ["[MPR] Render error:"]
    /\ listeners st' = listeners st
    /\ faults st' = [].
Proof.
  intros Hf Hs Hp k. unfold renderMermaidBlock, bind.
  rewrite (start_awaiting _ _ _ Hf Hs). fold k.
  unfold renderMermaidBlock_resume.
  unfold try_catch at 1. unfold bind at 1. unfold try_catch at 1.
  unfold throw. unfold bind at 1. unfold renderFailed.
  unfold bind at 1. rewrite cleanup_world by (destruct st; exact Hf).
  unfold bind at 1. unfold Document.setTimeout at 1, modify.
  unfold bind at 1. rewrite (parseErrorMessage_unprintable _ _ Hp).
  unfold outerCatch, bind, Document.console_error, modify, ret.
  eexists. split; [reflexivity|].
  destruct st as [w rc ts ls os fs infl con tr fl]. cbn in Hf. subst fl.
  cbn [world trace timeouts console listeners faults set_world set_trace
       set_timeouts set_console set_renderCounter].
  rewrite <- app_assoc. repeat split.
Qed.

Lemma artifact_resolved element config svg st :
  faults st = [] ->
  wellFormed (world st) = true ->
  sourceOf (world st) element config <> "" ->
  let n := nextRef (world st) in
  let src := sourceOf (world st) element config in
  exists st',
    renderMermaidBlock element config (Resolved svg) st
    = (Return (Some n), st')
    /\ node_of (world st') n
       = Some (Node n
                 [Node (S n) [Node (S (S n)) [Text src]];
                  Node (S (S (S n)))
                    (if String.eqb svg "" then [] else [Markup svg]);
                  Node (S (S (S (S n)))) [Text "{ }"]])
    /\ element_of (world st') n
       = {| localName := "div";
            attributes := [("class", "mpr-container");
                           ("data-mpr-processed", "true")];
            display := "" |}
    /\ element_of (world st') (S n)
       = {| localName := "pre"; attributes := [("class", "mpr-source")];
            display := "none" |}
    /\ element_of (world st') (S (S n))
       = {| localName := "code";
            attributes := [("class", "language-mermaid")];
            display := "" |}
    /\ element_of (world st') (S (S (S n)))
       = {| localName := "div"; attributes := [("class", "mpr-rendered")];
            display := "" |}.
Proof.
  intros Hf Hw Hs n src.
  destruct (renderMermaidBlock_resolved element config svg st Hf Hs)
    as [st' [Hr [Hworld _]]].
  exists st'. split; [exact Hr|]. rewrite Hworld.
  pose proof (sourceOf_element n _ _ _ Hw Hs) as Hel.
  destruct (precommit_resolved (world st) (suspendedAt st element config)
              svg Hw Hs Hel eq_refl eq_refl eq_refl)
    as [E [HW [H0 [H1 [H2 H3]]]]].
  cbn [s_sourceCode s_element s_config suspendedAt] in HW.
  fold n src in HW |- *. rewrite HW.
  split.
  { apply (replaceWith_lookup n); [exact Hw| |lia].
    now apply wrapperOf_old. }
  rewrite !element_of_replaceWith, !element_of_frame. auto.
Qed.

Lemma artifact_rejected element config error message st :
  faults st = [] ->
  wellFormed (world st) = true ->
  sourceOf (world st) element config <> "" ->
  printable error = Some message ->
  let n := nextRef (world st) in
  let src := sourceOf (world st) element config in
  let parsedError := firstPattern ERROR_PATTERNS message in
  exists st',
    renderMermaidBlock element config (Rejected error) st
    = (Return (Some n), st')
    /\ node_of (world st') n
       = Some (Node n
                 [Node (S n) [Node (S (S n)) [Text src]];
                  Node (S (S (S n)))
                    [Node (4 + n)
                       [Node (5 + n) [Text "Failed to render diagram"];
                        Node (6 + n)
                          match details parsedError with
                          | Some (String c r) => [Text (String c r)]
                          | _ => []
                          end;
                        Node (7 + n) [Text "Check the source code below"]]];
                  Node (8 + n) [Text PLAY_ICON]])
    /\ element_of (world st') n
       = {| localName := "div";
            attributes := [("class", "mpr-container");
                           ("data-mpr-processed", "true")];
            display := "" |}
    /\ element_of (world st') (S n)
       = {| localName := "pre"; attributes := [("class", "mpr-source")];
            display := "block" |}
    /\ element_of (world st') (S (S n))
       = {| localName := "code";
            attributes := [("class", "language-mermaid")];
            display := "" |}
    /\ element_of (world st') (S (S (S n)))
       = {| localName := "div";
            attributes := [("class", "mpr-rendered mpr-error-container")];
            display := "block" |}
    /\ element_of (world st') (4 + n)
       = {| localName := "div"; attributes := [("class", "mpr-error")];
            display := "" |}
    /\ trace st'
       = trace st
         ++ [CallRender (s_uniqueId (suspendedAt st element config)) src;
             CallCleanup (s_uniqueId (suspendedAt st element config))]
    /\ timeouts st'
       = timeouts st
         ++ [CleanupTimeout (s_uniqueId (suspendedAt st element config))].
Proof.
  intros Hf Hw Hs Hp n src parsedError.
  destruct (renderMermaidBlock_rejected element config error message st
              Hf Hs Hp) as [st' [Hr [Hworld [Htrace Htime]]]].
  exists st'. split; [exact Hr|]. rewrite Hworld.
  pose proof (sourceOf_element n _ _ _ Hw Hs) as Hel.
  assert (Hmsg : userMessage parsedError <> "")
    by (unfold parsedError; rewrite userMessage_firstPattern; discriminate).
  destruct (precommit_rejected (world st) (suspendedAt st element config)
              parsedError Hw Hs Hmsg Hel eq_refl eq_refl eq_refl)
    as [E [HW [Ho' [H0 [H1 [H2 [H3 H4]]]]]]].
  cbn [s_sourceCode s_element s_config suspendedAt] in HW.
  fold n src parsedError in HW |- *. rewrite HW.
  unfold parsedError at 1. rewrite userMessage_firstPattern.
  fold parsedError.
  split.
  { apply (replaceWith_lookup n); [exact Ho'| |lia].
    now apply wrapperOf_old. }
  rewrite !element_of_replaceWith, !element_of_frame.
  repeat split; auto.
Qed.
Set Warnings "-implicit-create-rewrite-hint-db".

(** ** Source preservation *)

Lemma holdsSource_artifact w n src others :
  element_of w (S n)
  = {| localName := "pre"; attributes := [("class", "mpr-source")];
       display := display (element_of w (S n)) |} ->
  element_of w (S (S n))
  = {| localName := "code"; attributes := [("class", "language-mermaid")];
       display := "" |} ->
  holdsSource w
    (Node n (Node (S n) [Node (S (S n)) [Text src]] :: others)) src.
Proof.
  intros H1 H2. exists n, (S n), (Node (S (S n)) [Text src]), others.
  split; [reflexivity|]. split; [now rewrite H1|]. split.
  - exists (S (S n)), [Text src]. rewrite H2. repeat split.
  - reflexivity.
Qed.

(** The claim C1 as stated fails when the render is rejected: the artifact
    (8) holds the source text in its source region (9), and that region is
    not hidden. *)
Lemma source_region_shown_on_error :
  fst (renderMermaidBlock 3 chatgptConfig
         (Rejected (VError "Parse error on line 3")) exampleState)
  = Return (Some 8)
  /\ exec (renderMermaidBlock 3 chatgptConfig
             (Rejected (VError "Parse error on line 3"))) exampleState
     = rejectedState
  /\ sourceRegionOf
       (match node_of (world rejectedState) 8 with
        | Some artifact => artifact
        | None => Text ""
        end) = Some 9
  /\ visible (world rejectedState) 9 = true.
Proof. vm_compute. repeat split. Qed.

(** ** Cleaning up after the renderer *)

Lemma refs_of_app l1 l2 : refs_of (l1 ++ l2) = refs_of l1 ++ refs_of l2.
Proof.
  induction l1 as [|ch l1 IH]; [reflexivity|]. cbn [app refs_of].
  destruct (chain_ref ch); cbn; now rewrite IH.
Qed.

Lemma refs_of_chains t : forall up, refs_of (chains up t) = tree_refs t.
Proof.
  induction t as [r ks IH| |] using Tree_induction; intros up;
    try reflexivity.
  cbn [chains refs_of chain_ref tree_refs]. f_equal.
  generalize (Node r ks :: up). intros up'.
  induction ks as [|k ks IHks]; [reflexivity|].
  inversion IH; subst. cbn [flat_map]. rewrite refs_of_app. f_equal; auto.
Qed.

Lemma documentRefs_tree w :
  documentRefs w = match document w with
                   | Some d => tree_refs d
                   | None => []
                   end.
Proof.
  unfold documentRefs, document_chains. destruct (document w);
    [apply refs_of_chains|reflexivity].
Qed.

Lemma prune_removes r t :
  isRef r t = false -> ~ In r (tree_refs (prune r t)).
Proof.
  induction t as [r0 ks IH| |] using Tree_induction; cbn; auto.
  intros Hr [E|Hin]; [subst; now rewrite Nat.eqb_refl in Hr|].
  apply in_flat_map in Hin as [k' [Hk' Hin]].
  apply in_flat_map in Hk' as [k [Hk Hk']].
  destruct (isRef r k) eqn:Ek; [contradiction|]. destruct Hk' as [<-|[]].
  rewrite Forall_forall in IH. exact (IH k Hk Ek Hin).
Qed.

Lemma refs_of_none r l :
  find (chain_isRef r) l = None -> ~ In r (refs_of l).
Proof.
  intros Hf Hin. apply refs_of_In in Hin as [ch [Hch Href]].
  apply chain_ref_isRef in Href. apply (find_none _ _ Hf) in Hch. congruence.
Qed.

Lemma documentRefs_remove el w :
  incl (documentRefs (remove el w)) (documentRefs w)
  /\ ~ In el (documentRefs (remove el w)).
Proof.
  rewrite !documentRefs_tree. unfold remove, reshape, set_shape, node_of.
  cbn [document].
  destruct (chain_of w el) as [|nd up] eqn:Ec; cbn [hd_error].
  - split; [apply incl_refl|].
    rewrite <- documentRefs_tree. apply refs_of_none.
    unfold chain_of, all_chains in Ec. rewrite find_app in Ec.
    destruct (find (chain_isRef el) (document_chains w)) as [ch|] eqn:Ef;
      [|reflexivity].
    subst ch. apply find_some in Ef as [_ Ef]. discriminate.
  - cbn [unlink set_shape document]. unfold isDocumentElement.
    destruct (document w) as [d|]; [|split; [apply incl_refl|intros []]].
    destruct (isRef el d) eqn:Er; cbn [option_map].
    + split; [intros x []|intros []].
    + split; [apply prune_refs|now apply prune_removes].
Qed.

Lemma documentRefs_fold_remove els : forall w,
  let w' := fold_left (fun w el => remove el w) els w in
  incl (documentRefs w') (documentRefs w)
  /\ forall el, In el els -> ~ In el (documentRefs w').
Proof.
  induction els as [|e els IH]; intros w; cbn [fold_left].
  - split; [apply incl_refl|intros el []].
  - destruct (IH (remove e w)) as [Hi Hn].
    destruct (documentRefs_remove e w) as [Hi' Hn'].
    split; [eapply incl_tran; eauto|].
    intros el [<-|Hel]; [|now apply Hn]. intros Hin. apply Hn'. now apply Hi.
Qed.


Lemma element_of_fold_remove els w r :
  element_of (fold_left (fun w el => remove el w) els w) r = element_of w r.
Proof.
  unfold element_of. now rewrite (proj1 (elements_fold_remove els w)).
Qed.






(** ** Failures while a candidate is processed *)

Lemma outerCatch_returns {A} (m : M A) (null : A) st :
  exists res st',
    try_catch m (outerCatch null) st = (Return res, st')
    /\ (res = null \/ m st = (Return res, st')).
Proof.
  unfold try_catch, outerCatch.
  destruct (m st) as [[a|e] st1]; eexists _, _;
    (split; [reflexivity|auto]).
Qed.

Lemma bind_returns {A B} (m : M A) (f : A -> M B) st b st' :
  bind m f st = (Return b, st') ->
  exists a st1, m st = (Return a, st1) /\ f a st1 = (Return b, st').
Proof.
  unfold bind. destruct (m st) as [[a|e] st1]; [|discriminate].
  intros H. now exists a, st1.
Qed.

Lemma attachAndCommit_returns k hasError st res st' :
  attachAndCommit k hasError st = (Return res, st') ->
  res = Some (s_container k).
Proof.
  unfold attachAndCommit. intros H.
  repeat (apply bind_returns in H; destruct H as [? [? [_ H]]]).
  unfold ret in H. congruence.
Qed.

Lemma start_returns element config st :
  exists p st', renderMermaidBlock_start element config st = (Return p, st').
Proof.
  unfold renderMermaidBlock_start.
  match goal with
  | |- context [try_catch ?m _ st] =>
      destruct (outerCatch_returns m (Done None) st) as [p [st' [H _]]]
  end.
  now exists p, st'.
Qed.

Lemma resume_returns k r st :
  exists res st',
    renderMermaidBlock_resume k r st = (Return res, st')
    /\ (res = None \/ res = Some (s_container k)).
Proof.
  unfold renderMermaidBlock_resume.
  match goal with
  | |- context [try_catch ?m _ st] =>
      destruct (outerCatch_returns m None st) as [res [st' [H [E|E]]]]
  end; exists res, st'; (split; [exact H|]); [now left|right].
  apply bind_returns in E. destruct E as [h [st1 [_ E]]].
  exact (attachAndCommit_returns _ _ _ _ _ E).
Qed.

Lemma call_returns config block st :
  renderMermaidBlock_call config block st
  = (Return tt, exec (renderMermaidBlock_call config block) st).
Proof.
  unfold exec, renderMermaidBlock_call, bind.
  destruct (start_returns block config st) as [p [st' ->]].
  now destruct p.
Qed.

Lemma forEach_calls config blocks st :
  forEach blocks (renderMermaidBlock_call config) st
  = (Return tt,
     fold_left (fun st block => exec (renderMermaidBlock_call config block) st)
       blocks st).
Proof.
  revert st. induction blocks as [|b bs IH]; intros st; [reflexivity|].
  cbn [forEach fold_left]. unfold bind at 1. rewrite call_returns.
  apply IH.
Qed.

Lemma extractSourceCode_plain element config st :
  Platform_eqb (platform config) grok = false ->
  extractSourceCode element config st
  = (Return (sourceOf (world st) element config), st).
Proof.
  intros Hp. unfold extractSourceCode, sourceOf. now rewrite Hp.
Qed.

Lemma extractSourceCode_grok element config st rest :
  Platform_eqb (platform config) grok = true ->
  faults st = false :: rest ->
  extractSourceCode element config st
  = (Return (sourceOf (world st) element config), set_faults rest st).
Proof.
  intros Hp Hf. unfold extractSourceCode, sourceOf. rewrite Hp.
  unfold Document.querySelector, bind at 1. unfold bind at 1.
  unfold mayRaise. rewrite Hf. unfold readWorld, get.
  cbn [world set_faults].
  replace (world (set_faults rest st)) with (world st)
    by now destruct st.
  now destruct (querySelector (world st) element _).
Qed.

Lemma extractSourceCode_raises element config st rest :
  Platform_eqb (platform config) grok = true ->
  faults st = true :: rest ->
  exists st', extractSourceCode element config st
              = (Throw (VError "raised"), st').
Proof.
  intros Hp Hf. unfold extractSourceCode. rewrite Hp.
  unfold Document.querySelector, bind at 1. unfold bind at 1.
  unfold mayRaise. rewrite Hf. now eexists.
Qed.

Ltac shell_cases j :=
  do 8 (destruct j as [|j]; [lazy; reflexivity|]);
  do 2 (destruct j as [|j];
        [cbn [repeat app];
         unfold renderMermaidBlock_resume, createPreservingWrapper,
           mermaid_render;
         run_statements;
         erewrite renderFailed_world by reflexivity;
         run_statements;
         rewrite attachAndCommit_world by reflexivity;
         reflexivity|]);
  do 3 (destruct j as [|j]; [lazy; reflexivity|]);
  destruct j as [|j];
    cbn [repeat app];
    unfold renderMermaidBlock_resume, createPreservingWrapper,
      mermaid_render, attachAndCommit, createToggleButton;
    run_statements; rewrite getWrapperToReplace_world;
    run_statements; reflexivity.

Lemma single_fault element config svg st j :
  sourceOf (world st) element config <> "" ->
  faults st = repeat false j ++ [true] ->
  fst (renderMermaidBlock element config (Resolved svg) st)
  = Return (outcomeAt config j (nextRef (world st))).
Proof.
  intros Hs Hf. unfold renderMermaidBlock, renderMermaidBlock_start.
  unfold bind at 1. unfold try_catch at 1. unfold bind at 1.
  unfold outcomeAt, extractionCalls.
  destruct (Platform_eqb (platform config) grok) eqn:Hp.
  - destruct j as [|j].
    + destruct (extractSourceCode_raises element config st [] Hp Hf)
        as [st' ->].
      reflexivity.
    + rewrite (extractSourceCode_grok _ _ _ _ Hp Hf),
        (eqb_empty_false _ Hs).
      destruct st as [w rc ts ls os fs infl con tr fl]. cbn [faults] in Hf.
      cbn [world set_faults]. clear Hf Hs.
      shell_cases j.
  - rewrite (extractSourceCode_plain _ _ _ Hp), (eqb_empty_false _ Hs).
    destruct st as [w rc ts ls os fs infl con tr fl]. cbn [faults] in Hf.
    subst fl. cbn [world]. clear Hs.
    shell_cases j.
Qed.

(** C8 as stated fails: a render that is rejected leaves an artifact, in
    place of the block in the document. *)
Lemma render_exception_leaves_artifact :
  renderMermaidBlock 3 chatgptConfig
    (Rejected (VError "Parse error on line 3")) exampleState
  = (Return (Some 8), rejectedState)
  /\ In 8 (documentRefs (world rejectedState))
  /\ ~ In 2 (documentRefs (world rejectedState)).
Proof.
  split; [vm_compute; reflexivity|].
  split; vm_compute; intuition discriminate.
Qed.

Lemma findUnprocessed_excludes_processed_witness :
  In 3 (findUnprocessedMermaidBlocks examplePage chatgptConfig)
  /\ chain_ref (chain_of examplePage 3) = Some 3
  /\ forall a, In a (chain_of examplePage 3) ->
               ~ carriesProcessedMarker examplePage a.
Proof.
  assert (H : In 3 (findUnprocessedMermaidBlocks examplePage chatgptConfig))
    by (vm_compute; auto).
  split; [exact H|].
  destruct (findUnprocessed_excludes_processed examplePage chatgptConfig 3 H)
    as [Hc [_ [_ Hm]]].
  split; [exact Hc|exact Hm].
Defined.
(** ** Cleaning up twice *)

Lemma refs_of_filter_In (f : list Tree -> bool) l r :
  In r (refs_of (filter f l)) ->
  exists ch, In ch l /\ f ch = true /\ chain_ref ch = Some r.
Proof.
  induction l as [|ch l IH]; cbn; [intros []|].
  destruct (f ch) eqn:Hf; cbn.
  - destruct (chain_ref ch) as [r'|] eqn:Hc.
    + intros [->|Hin]; [exists ch; auto|].
      destruct (IH Hin) as [ch' [H1 H2]]. exists ch'. auto.
    + intros Hin. destruct (IH Hin) as [ch' [H1 H2]]. exists ch'. auto.
  - intros Hin. destruct (IH Hin) as [ch' [H1 H2]]. exists ch'. auto.
Qed.

Lemma refs_of_member l ch r :
  In ch l -> chain_ref ch = Some r -> In r (refs_of l).
Proof.
  induction l as [|c l IH]; cbn; [intros []|].
  intros [->|Hin] Hc.
  - rewrite Hc. now left.
  - destruct (chain_ref c); [right|]; auto.
Qed.









(** ** The render ids *)

Lemma ofNumber_inj n n' : Js.ofNumber n = Js.ofNumber n' -> n = n'.
Proof.
  unfold Js.ofNumber. intros H.
  apply (f_equal DecimalString.NilZero.uint_of_string) in H.
  assert (Hn : forall k, Nat.to_uint k <> Decimal.Nil).
  { intros k E. pose proof (f_equal Nat.of_uint E) as E'.
    rewrite DecimalNat.Unsigned.of_to in E'. cbn in E'. subst k.
    discriminate E. }
  rewrite !DecimalString.NilZero.usu in H by apply Hn.
  injection H as H. now apply DecimalNat.Unsigned.to_uint_inj.
Qed.

Lemma renderIdOf_inj n n' : renderIdOf n = renderIdOf n' -> n = n'.
Proof.
  unfold renderIdOf. intros H. cbn in H. apply ofNumber_inj.
  congruence.
Qed.

Lemma minted_refl st : minted st st.
Proof.
  exists 0. split; [lia|]. cbn. now rewrite app_nil_r.
Qed.

Lemma minted_trans st1 st2 st3 :
  minted st1 st2 -> minted st2 st3 -> minted st1 st3.
Proof.
  intros [k [Hc Ht]] [k' [Hc' Ht']]. exists (k + k'). split; [lia|].
  rewrite Ht', Ht, Hc, <- app_assoc. f_equal.
  now rewrite seq_app, map_app.
Qed.

Lemma quiet_minted st st' :
  renderCounter st' = renderCounter st ->
  renderIds (trace st') = renderIds (trace st) ->
  minted st st'.
Proof.
  intros Hc Ht. exists 0. split; [lia|]. cbn. now rewrite app_nil_r.
Qed.

Lemma Quiet_Minting {A} (m : M A) : Quiet m -> Minting m.
Proof. intros H st. destruct (H st). now apply quiet_minted. Qed.

(** *** Statements that call no render *)

Lemma Quiet_ret {A} (a : A) : Quiet (ret a).
Proof. intros st. now split. Qed.

Lemma Quiet_throw {A} e : Quiet (@throw A e).
Proof. intros st. now split. Qed.

Lemma Quiet_bind {A B} (m : M A) (f : A -> M B) :
  Quiet m -> (forall a, Quiet (f a)) -> Quiet (bind m f).
Proof.
  intros Hm Hf st. unfold bind. specialize (Hm st).
  destruct (m st) as [[a|e] st1]; cbn [snd] in *; [|exact Hm].
  destruct (Hf a st1) as [H1 H2]. destruct Hm as [H3 H4].
  split; congruence.
Qed.

Lemma Quiet_try_catch {A} (m : M A) handler :
  Quiet m -> (forall e, Quiet (handler e)) -> Quiet (try_catch m handler).
Proof.
  intros Hm Hh st. unfold try_catch. specialize (Hm st).
  destruct (m st) as [[a|e] st1]; cbn [snd] in *; [exact Hm|].
  destruct (Hh e st1) as [H1 H2]. destruct Hm as [H3 H4].
  split; congruence.
Qed.

Lemma Quiet_get {A} (f : State -> A) : Quiet (get f).
Proof. intros st. now split. Qed.

Lemma Quiet_modify f :
  (forall st, renderCounter (f st) = renderCounter st
              /\ renderIds (trace (f st)) = renderIds (trace st)) ->
  Quiet (modify f).
Proof. intros H st. apply H. Qed.

Lemma Quiet_forEach {A} (l : list A) f :
  (forall a, Quiet (f a)) -> Quiet (forEach l f).
Proof.
  intros Hf. induction l as [|a l IH]; cbn [forEach].
  - apply Quiet_ret.
  - apply Quiet_bind; auto.
Qed.

Lemma Quiet_mayRaise : Quiet mayRaise.
Proof.
  intros st. unfold mayRaise. destruct (faults st) as [|[|] rest];
    now destruct st.
Qed.

Lemma Quiet_readWorld {A} (f : World -> A) : Quiet (readWorld f).
Proof. apply Quiet_get. Qed.

Lemma Quiet_writeWorld f : Quiet (writeWorld f).
Proof. apply Quiet_modify. intros st. now destruct st. Qed.

Lemma Quiet_if {A} (b : bool) (m1 m2 : M A) :
  Quiet m1 -> Quiet m2 -> Quiet (if b then m1 else m2).
Proof. now destruct b. Qed.

Create HintDb quiet.

#[export] Hint Resolve Quiet_ret Quiet_throw Quiet_get Quiet_mayRaise
  Quiet_readWorld Quiet_writeWorld : quiet.

(** Statement by statement. *)
Ltac quiet :=
  repeat first
    [ progress intros
    | solve [auto with quiet]
    | apply Quiet_bind
    | apply Quiet_try_catch
    | apply Quiet_forEach
    | apply Quiet_if
    | apply Quiet_modify; intros st; now destruct st
    | match goal with
      | |- Quiet (match ?x with _ => _ end) => destruct x
      end ].

Lemma Quiet_createElement name : Quiet (Document.createElement name).
Proof. unfold Document.createElement. quiet. Qed.

Lemma Quiet_querySelectorAll sel : Quiet (Document.querySelectorAll sel).
Proof. unfold Document.querySelectorAll. quiet. Qed.

Lemma Quiet_querySelector el sel : Quiet (Document.querySelector el sel).
Proof. unfold Document.querySelector. quiet. Qed.

Lemma Quiet_setAttribute el n v : Quiet (Document.setAttribute el n v).
Proof. unfold Document.setAttribute. quiet. Qed.

Lemma Quiet_appendChild p c : Quiet (Document.appendChild p c).
Proof. unfold Document.appendChild. quiet. Qed.

Lemma Quiet_replaceWith o n : Quiet (Document.replaceWith o n).
Proof. unfold Document.replaceWith. quiet. Qed.

Lemma Quiet_classListAdd el c : Quiet (Document.classListAdd el c).
Proof. unfold Document.classListAdd. quiet. Qed.

Lemma Quiet_setInnerHTML el h : Quiet (Document.setInnerHTML el h).
Proof. unfold Document.setInnerHTML. quiet. Qed.

Lemma Quiet_remove el : Quiet (Document.remove el).
Proof. unfold Document.remove. quiet. Qed.

Lemma Quiet_setClassName el v : Quiet (Document.setClassName el v).
Proof. unfold Document.setClassName. quiet. Qed.

Lemma Quiet_setTitle el v : Quiet (Document.setTitle el v).
Proof. unfold Document.setTitle. quiet. Qed.

Lemma Quiet_setDisplay el v : Quiet (Document.setDisplay el v).
Proof. unfold Document.setDisplay. quiet. Qed.

Lemma Quiet_setTextContent el v : Quiet (Document.setTextContent el v).
Proof. unfold Document.setTextContent. quiet. Qed.

Lemma Quiet_textContent el : Quiet (Document.textContent el).
Proof. unfold Document.textContent. quiet. Qed.

Lemma Quiet_parentElement el : Quiet (Document.parentElement el).
Proof. unfold Document.parentElement. quiet. Qed.

Lemma Quiet_addEventListener el l : Quiet (Document.addEventListener el l).
Proof. unfold Document.addEventListener. quiet. Qed.

Lemma Quiet_setTimeout t : Quiet (Document.setTimeout t).
Proof. unfold Document.setTimeout. quiet. Qed.

Lemma Quiet_requestAnimationFrame c :
  Quiet (Document.requestAnimationFrame c).
Proof. unfold Document.requestAnimationFrame. quiet. Qed.

Lemma Quiet_console_error msg : Quiet (Document.console_error msg).
Proof. unfold Document.console_error. quiet. Qed.

Lemma Quiet_recordCleanup renderId :
  Quiet (Document.record (CallCleanup renderId)).
Proof.
  unfold Document.record. apply Quiet_modify. intros st.
  destruct st as [w rc ts ls os fs infl con tr fl]. cbn. split; auto.
  unfold renderIds. rewrite flat_map_app. cbn. now rewrite app_nil_r.
Qed.

#[export] Hint Resolve Quiet_createElement Quiet_querySelectorAll
  Quiet_querySelector Quiet_setAttribute Quiet_appendChild
  Quiet_replaceWith Quiet_classListAdd Quiet_setInnerHTML Quiet_remove
  Quiet_setClassName Quiet_setTitle Quiet_setDisplay Quiet_setTextContent
  Quiet_textContent Quiet_parentElement Quiet_addEventListener
  Quiet_setTimeout Quiet_requestAnimationFrame Quiet_console_error
  Quiet_recordCleanup : quiet.

Lemma Quiet_cleanup renderId : Quiet (cleanupMermaidErrorElements renderId).
Proof. unfold cleanupMermaidErrorElements. quiet. Qed.

Lemma Quiet_parseErrorMessage err : Quiet (parseErrorMessage err).
Proof. unfold parseErrorMessage, errorToString. quiet. Qed.

Lemma Quiet_createErrorElement pe : Quiet (createErrorElement pe).
Proof. unfold createErrorElement. quiet. Qed.

Lemma Quiet_createToggleButton s r b : Quiet (createToggleButton s r b).
Proof. unfold createToggleButton. quiet. Qed.

Lemma Quiet_createPreservingWrapper src :
  Quiet (createPreservingWrapper src).
Proof. unfold createPreservingWrapper. quiet. Qed.

Lemma Quiet_extractSourceCode el config :
  Quiet (extractSourceCode el config).
Proof. unfold extractSourceCode. quiet. Qed.

Lemma Quiet_getWrapperToReplace el config :
  Quiet (getWrapperToReplace el config).
Proof. unfold getWrapperToReplace. quiet. Qed.

#[export] Hint Resolve Quiet_cleanup Quiet_parseErrorMessage
  Quiet_createErrorElement Quiet_createToggleButton
  Quiet_createPreservingWrapper Quiet_extractSourceCode
  Quiet_getWrapperToReplace : quiet.

Lemma Quiet_renderFailed k err : Quiet (renderFailed k err).
Proof. unfold renderFailed. quiet. Qed.

Lemma Quiet_attachAndCommit k b : Quiet (attachAndCommit k b).
Proof. unfold attachAndCommit. quiet. Qed.

#[export] Hint Resolve Quiet_renderFailed Quiet_attachAndCommit : quiet.

Lemma Quiet_resume k r : Quiet (renderMermaidBlock_resume k r).
Proof. unfold renderMermaidBlock_resume, outerCatch. quiet. Qed.

Lemma Quiet_toggleClicked s r b showing : Quiet (toggleClicked s r b showing).
Proof. unfold toggleClicked. quiet. Qed.

#[export] Hint Resolve Quiet_resume Quiet_toggleClicked : quiet.

Lemma Quiet_dispatchClick target ls : Quiet (dispatchClick target ls).
Proof.
  induction ls as [|[el [s r b showing]] ls IH]; cbn [dispatchClick];
    quiet.
Qed.

Lemma Quiet_click target : Quiet (click target).
Proof.
  unfold click. pose proof (Quiet_dispatchClick target). quiet.
Qed.

(** *** The statement that calls the render *)

Lemma Renders_bind {A B} id (m : M A) (f : A -> M B) :
  Renders id m -> (forall a, Quiet (f a)) -> Renders id (bind m f).
Proof.
  intros Hm Hf st. unfold bind. specialize (Hm st).
  destruct (m st) as [[a|e] st1]; cbn [snd] in *; [|exact Hm].
  destruct (Hf a st1) as [H1 H2]. destruct Hm as [H3 H4].
  split; congruence.
Qed.

Lemma Renders_try_catch {A} id (m : M A) handler :
  Renders id m -> (forall e, Quiet (handler e)) ->
  Renders id (try_catch m handler).
Proof.
  intros Hm Hh st. unfold try_catch. specialize (Hm st).
  destruct (m st) as [[a|e] st1]; cbn [snd] in *; [exact Hm|].
  destruct (Hh e st1) as [H1 H2]. destruct Hm as [H3 H4].
  split; congruence.
Qed.

Lemma Renders_mermaid_render id sourceCode :
  Renders id (mermaid_render id sourceCode).
Proof.
  unfold mermaid_render. intros st. unfold bind, Document.record, modify.
  cbv beta iota.
  destruct (Quiet_mayRaise (set_trace (trace st ++ [CallRender id sourceCode]) st))
    as [H1 H2].
  rewrite H1, H2. destruct st as [w rc ts ls os fs infl con tr fl]. cbn.
  split; [reflexivity|]. unfold renderIds. now rewrite flat_map_app.
Qed.

Lemma Minting_bind {A B} (m : M A) (f : A -> M B) :
  Minting m -> (forall a, Minting (f a)) -> Minting (bind m f).
Proof.
  intros Hm Hf st. unfold bind. specialize (Hm st).
  destruct (m st) as [[a|e] st1]; cbn [snd] in *; [|exact Hm].
  eapply minted_trans; [exact Hm|apply Hf].
Qed.

Lemma Minting_try_catch {A} (m : M A) handler :
  Minting m -> (forall e, Minting (handler e)) ->
  Minting (try_catch m handler).
Proof.
  intros Hm Hh st. unfold try_catch. specialize (Hm st).
  destruct (m st) as [[a|e] st1]; cbn [snd] in *; [exact Hm|].
  eapply minted_trans; [exact Hm|apply Hh].
Qed.

Lemma Minting_forEach {A} (l : list A) f :
  (forall a, Minting (f a)) -> Minting (forEach l f).
Proof.
  intros Hf. induction l as [|a l IH]; cbn [forEach].
  - apply Quiet_Minting, Quiet_ret.
  - apply Minting_bind; auto.
Qed.

(** [++renderCounter] and the render that follows it. *)
Lemma Minting_render {A} (rest : nat -> M A) :
  (forall n, Renders (renderIdOf (S n)) (rest n)) ->
  Minting (n <- get renderCounter ;;
           modify (set_renderCounter (S n)) ;; rest n).
Proof.
  intros H st. unfold bind, get, modify. cbv beta iota.
  destruct (H (renderCounter st)
              (set_renderCounter (S (renderCounter st)) st)) as [H1 H2].
  exists 1. rewrite H1, H2.
  destruct st as [w rc ts ls os fs infl con tr fl]. cbn.
  split; [lia|reflexivity].
Qed.

Lemma Minting_start element config :
  Minting (renderMermaidBlock_start element config).
Proof.
  unfold renderMermaidBlock_start.
  apply Minting_try_catch;
    [|intros e; apply Quiet_Minting; unfold outerCatch; quiet].
  apply Minting_bind; [apply Quiet_Minting; quiet|]. intros sourceCode.
  destruct (String.eqb sourceCode ""); [apply Quiet_Minting; quiet|].
  apply Minting_bind; [apply Quiet_Minting; quiet|].
  intros [[container sourceWrapper] renderedDiv].
  apply Minting_render. intros n.
  apply Renders_bind.
  - apply Renders_try_catch; [|quiet].
    apply Renders_bind; [apply Renders_mermaid_render|quiet].
  - quiet.
Qed.

Lemma Minting_call config block :
  Minting (renderMermaidBlock_call config block).
Proof.
  unfold renderMermaidBlock_call.
  apply Minting_bind; [apply Minting_start|].
  intros [result|k]; apply Quiet_Minting; quiet.
Qed.

Lemma Minting_sweep config :
  Minting (blocks <- readWorld
                       (fun w => findUnprocessedMermaidBlocks w config) ;;
           forEach blocks (renderMermaidBlock_call config)).
Proof.
  apply Minting_bind; [apply Quiet_Minting; quiet|]. intros blocks.
  apply Minting_forEach. intros block. apply Minting_call.
Qed.

Lemma minted_fold {A} (f : A -> M unit) (l : list A) :
  (forall a, Minting (f a)) ->
  forall st, minted st (fold_left (fun st a => exec (f a) st) l st).
Proof.
  intros Hf. induction l as [|a l IH]; intros st; cbn [fold_left].
  - apply minted_refl.
  - eapply minted_trans; [apply (Hf a st)|apply IH].
Qed.

Lemma minted_step ev st : minted st (step ev st).
Proof.
  destruct ev as [| |i r| |target]; cbn [step].
  - apply minted_fold. intros config. apply Quiet_Minting.
    unfold mutationCallback. quiet.
  - eapply minted_trans; [|apply minted_fold].
    + apply quiet_minted; now destruct st.
    + intros [config]. apply Minting_sweep.
  - destruct (nth_error (inflight st) i) as [k|]; [|apply minted_refl].
    eapply minted_trans;
      [|apply (Quiet_Minting _ (Quiet_resume k r))].
    apply quiet_minted; now destruct st.
  - destruct (timeouts st) as [|[renderId] rest]; [apply minted_refl|].
    eapply minted_trans;
      [|apply (Quiet_Minting _ (Quiet_cleanup renderId))].
    apply quiet_minted; now destruct st.
  - apply (Quiet_Minting _ (Quiet_click target)).
Qed.

Lemma minted_run evs : forall st, minted st (run evs st).
Proof.
  unfold run. induction evs as [|ev evs IH]; intros st; cbn [fold_left].
  - apply minted_refl.
  - eapply minted_trans; [apply minted_step|apply IH].
Qed.

Lemma NoDup_minted k : forall n, NoDup (map renderIdOf (seq n k)).
Proof.
  induction k as [|k IH]; intros n; cbn [seq map]; constructor; [|apply IH].
  intros Hin. apply in_map_iff in Hin as [m [Hm Hin]].
  apply renderIdOf_inj in Hm. subst m. apply in_seq in Hin. lia.
Qed.

(** X2. The render ids never repeat.  From a state in which no render
    was called yet, after the first sweep of [processExistingBlocks] and
    any events after it (mutation records, animation frames, settled
    renders, timeouts, clicks), whatever calls raise: the renders that were
    called have the ids [mpr-diagram-(c+1)], ..., [mpr-diagram-(c+k)] in
    this order, [c] being the counter at the start and [c+k] the counter
    at the end; no two of them are the same. *)
Theorem render_ids_unique
  (config : PlatformConfig) (evs : list Event) (st : State) :
  renderIds (trace st) = [] ->
  let st' := run evs (exec (processExistingBlocks config) st) in
  renderIds (trace st')
  = map renderIdOf
      (seq (S (renderCounter st)) (renderCounter st' - renderCounter st))
  /\ renderCounter st <= renderCounter st'
  /\ NoDup (renderIds (trace st')).
Proof.
  intros Ht st'.
  assert (H : minted st st').
  { eapply minted_trans; [|apply minted_run].
    apply (Minting_sweep config). }
  destruct H as [k [Hc Hi]]. rewrite Ht in Hi. cbn [app] in Hi.
  replace (renderCounter st' - renderCounter st) with k by lia.
  split; [exact Hi|]. split; [lia|].
  rewrite Hi. apply NoDup_minted.
Qed.

Lemma render_ids_unique_witness :
  renderIds (trace (exec (setupMutationObserver chatgptConfig) exampleState))
  = []
  /\ NoDup
       (renderIds
          (trace
             (run [MutationsObserved; MutationsObserved; AnimationFrame;
                   RenderSettled 0 (Resolved "<svg/>")]
                (exec (processExistingBlocks chatgptConfig)
                   (exec (setupMutationObserver chatgptConfig)
                      exampleState))))).
Proof.
  split; [reflexivity|].
  exact (proj2 (proj2
           (render_ids_unique chatgptConfig
              [MutationsObserved; MutationsObserved; AnimationFrame;
               RenderSettled 0 (Resolved "<svg/>")]
              (exec (setupMutationObserver chatgptConfig) exampleState)
              eq_refl))).
Defined.

(** ** What is committed is not selected again *)

Lemma chains_through up t ch :
  In ch (chains up t) -> In t ch /\ incl up ch.
Proof.
  revert up ch. induction t as [r ks IH| |] using Tree_induction;
    intros up ch Hin; cbn [chains] in Hin; try contradiction.
  destruct Hin as [<-|Hin].
  - split; [now left|]. intros x Hx. now right.
  - apply in_flat_map in Hin as [k [Hk Hin]].
    rewrite Forall_forall in IH.
    destruct (IH k Hk _ _ Hin) as [_ Hi].
    split; [apply Hi; now left|]. intros x Hx. apply Hi. now right.
Qed.

Lemma find_inside r t up :
  In r (tree_refs t) ->
  exists ch, find (chain_isRef r) (chains up t) = Some ch /\ In t ch.
Proof.
  intros Hr. rewrite <- (refs_of_chains t up) in Hr.
  apply refs_of_In in Hr as [ch [Hch Href]].
  apply chain_ref_isRef in Href.
  destruct (find (chain_isRef r) (chains up t)) as [c|] eqn:E.
  - exists c. split; [reflexivity|].
    apply find_some in E as [E _]. now apply chains_through in E.
  - apply (find_none _ _ E) in Hch. congruence.
Qed.

Section SubstituteInside.

Variables (wrapper : Ref) (T : Tree) (r : Ref).
Hypothesis inside : In r (tree_refs T).

Lemma substitute_inside t : forall up,
  absent r t -> below wrapper t = true ->
  exists ch, find (chain_isRef r) (chains up (substitute wrapper T t))
             = Some ch /\ In T ch.
Proof.
  induction t as [r0 ks IH| |] using Tree_induction; intros up Ha Hb;
    try discriminate.
  apply absent_Node in Ha as [Hne Hall].
  cbn [substitute chains find chain_isRef isRef].
  replace (r0 =? r) with false by (symmetry; now apply Nat.eqb_neq).
  set (N' := Node r0 _). clearbody N'.
  cbn [below] in Hb.
  induction ks as [|k ks IHks]; [discriminate|].
  inversion IH as [|? ? IHk IHrest]; subst.
  inversion Hall as [|? ? Hak Harest]; subst.
  cbn [map flat_map]. rewrite find_app.
  destruct (isRef wrapper k) eqn:Hk.
  - destruct (find_inside r T (N' :: up) inside) as [ch [-> Hch]]. eauto.
  - cbn [existsb] in Hb. rewrite Hk in Hb. cbn [orb] in Hb.
    destruct (below wrapper k) eqn:Hbk.
    + destruct (IHk (N' :: up) Hak eq_refl) as [ch [-> Hch]]. eauto.
    + rewrite (substitute_not_below _ _ _ Hbk).
      rewrite (chains_absent _ _ _ Hak). cbn [orb] in Hb. auto.
Qed.

Lemma substitute_inside_list ts tail :
  Forall (absent r) ts ->
  existsb (fun t => isRef wrapper t) ts = false ->
  existsb (fun t => isRef wrapper t || below wrapper t) ts = true ->
  exists ch,
    find (chain_isRef r)
         (flat_map (chains []) (map (substitute wrapper T) ts ++ tail))
    = Some ch /\ In T ch.
Proof.
  induction 1 as [|t ts Ht Hts IH]; intros Hroot Hex; [discriminate|].
  cbn [existsb] in Hroot, Hex.
  apply orb_false_elim in Hroot as [Hr Hroot]. rewrite Hr in Hex.
  cbn [orb map app flat_map]. rewrite find_app.
  destruct (below wrapper t) eqn:Hb.
  - destruct (substitute_inside t [] Ht Hb) as [ch [-> Hch]]. eauto.
  - rewrite (substitute_not_below _ _ _ Hb), (chains_absent _ _ _ Ht).
    apply IH; auto.
Qed.

End SubstituteInside.

(** Once the container [c] has taken the place of [wrapper], the chain of
    every element of its tree goes through it. *)
Lemma replaceWith_chain n wrapper c ks k E base r :
  old n base -> wrapper < n -> n <= c ->
  Forall (fun x => n <= x) (tree_refs (Node c ks)) ->
  In r (tree_refs (Node c ks)) ->
  In (Node c ks)
     (chain_of (replaceWith wrapper c (frame [Node c ks] k E base)) r).
Proof.
  intros Ho Hw Hc Hfresh Hr. set (T := Node c ks) in *.
  set (W := frame [T] k E base).
  assert (Hn : n <= r) by (rewrite Forall_forall in Hfresh; auto).
  assert (HW : In T (chain_of W r)).
  { unfold W. rewrite (chain_of_frame_fresh n) by assumption.
    cbn [flat_map]. rewrite app_nil_r.
    now destruct (find_inside r T [] Hr) as [ch [-> Hch]]. }
  assert (HT : node_of W c = Some T).
  { unfold node_of, W. rewrite (chain_of_frame_fresh n) by assumption.
    cbn [flat_map app]. unfold T. now rewrite find_app, find_T. }
  assert (Hshape : forall shape,
             chain_of (reshape shape W) r = chain_of shape r)
    by reflexivity.
  unfold replaceWith. rewrite Hshape.
  destruct (existsb (isRef wrapper) (detached W)) eqn:Hdet; [exact HW|].
  rewrite HT. cbv zeta.
  assert (Hu : unlink c W = frame [] k E base).
  { unfold W. rewrite (unlink_frame n) by assumption.
    unfold T. cbn [flat_map app isRef]. now rewrite Nat.eqb_refl. }
  rewrite Hu.
  destruct (node_of (frame [] k E base) wrapper) as [o|] eqn:Ho'; [|exact HW].
  unfold chain_of. rewrite all_chains_roots_eq.
  unfold roots, set_shape. cbn [document detached frame app].
  assert (Hdet' : existsb (isRef wrapper) (detached base) = false).
  { unfold W, frame in Hdet. cbn in Hdet.
    now apply orb_false_elim in Hdet as [_ Hdet]. }
  destruct (isDocumentElement (frame [] k E base) wrapper) eqn:Hroot.
  - cbn [flat_map]. rewrite find_app.
    now destruct (find_inside r T [] Hr) as [ch [-> Hch]].
  - assert (Hex : existsb (fun t => isRef wrapper t || below wrapper t)
                    (roots base) = true).
    { unfold node_of, chain_of in Ho'.
      destruct (find (chain_isRef wrapper) (all_chains (frame [] k E base)))
        as [ch|] eqn:Ef; [|discriminate].
      apply find_some in Ef as [Hin Hhead].
      apply all_chains_roots in Hin as [t [Ht Hin]].
      apply existsb_exists. exists t. split; [exact Ht|].
      apply (find_chains_some _ _ []).
      intros Hnone. apply (find_none _ _ Hnone) in Hin. congruence. }
    assert (Hroots : existsb (fun t => isRef wrapper t) (roots base) = false)
      by (apply existsb_isRef_roots; assumption).
    assert (Habs : Forall (absent r) (roots base)).
    { apply old_roots in Ho. eapply Forall_impl; [|exact Ho].
      intros t Ht. simpl in Ht. exact (bounded_absent _ _ _ Ht Hn). }
    destruct (substitute_inside_list wrapper T r Hr (roots base) [o]
                Habs Hroots Hex) as [ch [Hp Hch]].
    unfold roots in Hp. destruct (document base) as [d|]; cbn [option_map];
      cbn [map app] in Hp |- *; now rewrite Hp.
Qed.

Lemma closest_in_marked els ch a :
  In a ch ->
  matches_compound els a [AttrEq "data-mpr-processed" "true"] = true ->
  closest_in els PROCESSED ch <> None.
Proof.
  intros Hin Hm Hc. now rewrite (closest_in_None _ _ _ Hc Hin) in Hm.
Qed.

Lemma marked_excluded w c ks r :
  In (Node c ks) (chain_of w r) ->
  getAttribute (element_of w c) "data-mpr-processed" = Some "true" ->
  forall config,
    ~ In r (findUnprocessedMermaidBlocks w config)
    /\ isMermaidCodeBlock w r config = false.
Proof.
  intros Hin Hm config.
  assert (Hc : closest w r PROCESSED <> None).
  { apply (closest_in_marked _ _ (Node c ks) Hin).
    cbn. now rewrite Hm. }
  split.
  - intros Hf. now apply findUnprocessed_filter in Hf as [Hf _].
  - unfold isMermaidCodeBlock.
    destruct (closest w r PROCESSED); [reflexivity|congruence].
Qed.

(** X3. What [renderMermaidBlock] commits is never selected again.  When
    no call raises and the candidate has source text, the container that
    is returned and every element of its tree (the preserved [code]
    element with its class [language-mermaid] among them) are left out by
    [findUnprocessedMermaidBlocks] and refused by [isMermaidCodeBlock],
    under every configuration, whether the render resolved or was
    rejected. *)
Theorem committed_not_reselected
  (st : State) (element : Ref) (config : PlatformConfig) (settled : Settled) :
  faults st = [] ->
  wellFormed (world st) = true ->
  sourceOf (world st) element config <> "" ->
  (forall error, settled = Rejected error -> printable error <> None) ->
  exists st' artifact,
    renderMermaidBlock element config settled st
    = (Return (Some (nextRef (world st))), st')
    /\ node_of (world st') (nextRef (world st)) = Some artifact
    /\ In (S (S (nextRef (world st)))) (tree_refs artifact)
    /\ forall config' r,
         In r (tree_refs artifact) ->
         ~ In r (findUnprocessedMermaidBlocks (world st') config')
         /\ isMermaidCodeBlock (world st') r config' = false.
Proof.
  intros Hf Hw Hs Hp. set (n := nextRef (world st)).
  pose proof (sourceOf_element n _ _ _ Hw Hs) as Hel.
  destruct settled as [svg|error].
  - destruct (renderMermaidBlock_resolved element config svg st Hf Hs)
      as [st' [Hr [Hworld _]]].
    destruct (precommit_resolved (world st) (suspendedAt st element config)
                svg Hw Hs Hel eq_refl eq_refl eq_refl)
      as [E [HW [H0 _]]].
    cbn [s_sourceCode s_element s_config suspendedAt] in HW.
    eexists st', _. split; [exact Hr|].
    rewrite Hworld, HW. fold n in H0 |- *. split.
    { apply (replaceWith_lookup n); [exact Hw| |lia].
      now apply wrapperOf_old. }
    split; [cbn; auto|].
    intros config' r Hin. eapply marked_excluded.
    + apply (replaceWith_chain n); [exact Hw| |lia| |exact Hin].
      * now apply wrapperOf_old.
      * destruct (String.eqb svg "");
          repeat first [apply Forall_nil | apply Forall_cons
                       | progress cbn [tree_refs flat_map app] | lia].
    + rewrite element_of_replaceWith, element_of_frame, H0. reflexivity.
  - destruct (printable error) as [message|] eqn:Hm;
      [|now elim (Hp error eq_refl)].
    destruct (renderMermaidBlock_rejected element config error message st
                Hf Hs Hm) as [st' [Hr [Hworld _]]].
    set (parsedError := firstPattern ERROR_PATTERNS message) in *.
    assert (Hmsg : userMessage parsedError <> "")
      by (unfold parsedError; rewrite userMessage_firstPattern;
          discriminate).
    destruct (precommit_rejected (world st) (suspendedAt st element config)
                parsedError Hw Hs Hmsg Hel eq_refl eq_refl eq_refl)
      as [E [HW [Ho' [H0 _]]]].
    cbn [s_sourceCode s_element s_config suspendedAt] in HW.
    eexists st', _. split; [exact Hr|].
    rewrite Hworld, HW. fold n in H0, Ho' |- *. split.
    { apply (replaceWith_lookup n); [exact Ho'| |lia].
      now apply wrapperOf_old. }
    split; [cbn; auto|].
    intros config' r Hin. eapply marked_excluded.
    + apply (replaceWith_chain n); [exact Ho'| |lia| |exact Hin].
      * now apply wrapperOf_old.
      * destruct (details parsedError) as [[|c0 r0]|];
          repeat first [apply Forall_nil | apply Forall_cons
                       | progress cbn [tree_refs flat_map app] | lia].
    + rewrite element_of_replaceWith, element_of_frame, H0. reflexivity.
Qed.

Lemma committed_not_reselected_witness :
  (faults exampleState = []
   /\ wellFormed (world exampleState) = true
   /\ sourceOf (world exampleState) 3 chatgptConfig <> "")
  /\ exists st' artifact,
       renderMermaidBlock 3 chatgptConfig (Resolved "<svg/>") exampleState
       = (Return (Some 8), st')
       /\ node_of (world st') 8 = Some artifact
       /\ In 10 (tree_refs artifact)
       /\ forall config' r,
            In r (tree_refs artifact) ->
            ~ In r (findUnprocessedMermaidBlocks (world st') config')
            /\ isMermaidCodeBlock (world st') r config' = false.
Proof.
  assert (H1 : faults exampleState = []) by reflexivity.
  assert (H2 : wellFormed (world exampleState) = true) by reflexivity.
  assert (H3 : sourceOf (world exampleState) 3 chatgptConfig <> "")
    by (vm_compute; intros H; discriminate H).
  split; [repeat split; assumption|].
  apply (committed_not_reselected exampleState 3 chatgptConfig
           (Resolved "<svg/>") H1 H2 H3).
  intros error H. discriminate H.
Defined.

(** ** What is left of a candidate that gives no artifact *)

Lemma Forall_refs_update (P : Ref -> Prop) r f t :
  Forall P (tree_refs t) ->
  (forall ks, Forall P (flat_map tree_refs ks) ->
              Forall P (flat_map tree_refs (f ks))) ->
  Forall P (tree_refs (update r f t)).
Proof.
  intros Ht Hf. induction t as [r0 ks IH| |] using Tree_induction;
    cbn [update]; try exact Ht.
  cbn [tree_refs] in Ht. inversion Ht as [|? ? H0 Hks]; subst.
  destruct (r0 =? r); cbn [tree_refs]; constructor; auto.
  clear Ht. induction ks as [|k ks IHks]; [constructor|].
  cbn [map flat_map] in *. apply Forall_app in Hks as [Hk Hks].
  inversion IH; subst. apply Forall_app. split; auto.
Qed.

Lemma fresh_update n r f L E :
  fresh n L E ->
  (forall ks, Forall (fun x => n <= x) (flat_map tree_refs ks) ->
              Forall (fun x => n <= x) (flat_map tree_refs (f ks))) ->
  fresh n (map (update r f) L) E.
Proof.
  intros [HL HE] Hf. split; [|exact HE].
  apply Forall_forall. intros t Ht. apply in_map_iff in Ht as [t0 [<- Ht0]].
  rewrite Forall_forall in HL. apply Forall_refs_update; auto.
Qed.

Lemma fresh_text n r v L E :
  fresh n L E ->
  fresh n (map (update r (fun _ => if String.eqb v "" then []
                                   else [Text v])) L) E.
Proof.
  intros H. apply fresh_update; [exact H|].
  intros ks _. destruct (String.eqb v ""); constructor.
Qed.

Lemma fresh_markup n r v L E :
  fresh n L E ->
  fresh n (map (update r (fun _ => if String.eqb v "" then []
                                   else [Markup v])) L) E.
Proof.
  intros H. apply fresh_update; [exact H|].
  intros ks _. destruct (String.eqb v ""); constructor.
Qed.

Lemma fresh_pruned n c L E :
  fresh n L E ->
  fresh n (flat_map (fun t => if isRef c t then [] else [prune c t]) L) E.
Proof.
  intros [HL HE]. split; [|exact HE].
  apply Forall_forall. intros t Ht. apply in_flat_map in Ht as [t0 [Ht0 Ht]].
  destruct (isRef c t0); [contradiction|]. destruct Ht as [<-|[]].
  rewrite Forall_forall in HL. specialize (HL t0 Ht0).
  rewrite Forall_forall in HL |- *. intros x Hx. apply HL.
  now apply prune_refs in Hx.
Qed.

Lemma fresh_local_append n p c L E :
  fresh n L E -> fresh n (local_append p c L) E.
Proof.
  intros H. unfold local_append.
  destruct (find (chain_isRef c) (flat_map (chains []) L))
    as [[|nd up]|] eqn:Ef; try exact H.
  apply fresh_update; [now apply fresh_pruned|].
  intros ks Hks. rewrite flat_map_app. apply Forall_app. split; [exact Hks|].
  cbn [flat_map]. rewrite app_nil_r.
  apply find_some in Ef as [Hin _].
  apply in_flat_map in Hin as [t [Ht Hin]].
  destruct (chains_members [] t _ nd Hin ltac:(now left)) as [[]|[_ Hi]].
  destruct H as [HL _]. rewrite Forall_forall in HL. specialize (HL t Ht).
  rewrite Forall_forall in HL |- *. auto.
Qed.

Lemma fresh_created n name k L E :
  fresh n L E -> n <= k ->
  fresh n (Node k [] :: L)
    ((k, {| localName := name; attributes := []; display := "" |}) :: E).
Proof.
  intros [HL HE] Hk. split; constructor; auto.
  cbn. constructor; [exact Hk|constructor].
Qed.

Lemma fresh_written n r e L E :
  fresh n L E -> n <= r -> fresh n L ((r, e) :: E).
Proof. intros [HL HE] Hr. split; [exact HL|]. now constructor. Qed.

Lemma Triple_ret {A} (P : State -> Prop) (a : A) (Q : A -> State -> Prop) X :
  (forall st, P st -> Q a st) -> Triple P (ret a) Q X.
Proof. intros H st HP. now apply H. Qed.

Lemma Triple_bind {A B} P (m : M A) (f : A -> M B) Q R X :
  Triple P m Q X -> (forall a, Triple (Q a) (f a) R X) ->
  Triple P (bind m f) R X.
Proof.
  intros Hm Hf st HP. unfold bind. specialize (Hm st HP).
  destruct (m st) as [[a|e] st1]; [|exact Hm]. now apply Hf.
Qed.

Lemma Triple_try_catch {A} P (m : M A) handler Q X' X :
  Triple P m Q X' -> (forall e, Triple X' (handler e) Q X) ->
  Triple P (try_catch m handler) Q X.
Proof.
  intros Hm Hh st HP. unfold try_catch. specialize (Hm st HP).
  destruct (m st) as [[a|e] st1]; [exact Hm|]. now apply Hh.
Qed.

Lemma Triple_weaken {A} (P P' : State -> Prop) (m : M A)
  (Q Q' : A -> State -> Prop) (X X' : State -> Prop) :
  Triple P' m Q' X' ->
  (forall st, P st -> P' st) ->
  (forall a st, Q' a st -> Q a st) ->
  (forall st, X' st -> X st) ->
  Triple P m Q X.
Proof.
  intros Hm HP HQ HX st Hst. specialize (Hm st (HP st Hst)).
  destruct (m st) as [[a|e] st1]; auto.
Qed.

(** A pure fact that the precondition carries. *)
Lemma Triple_fact {A} (fact : Prop) (P : State -> Prop) (m : M A) Q X :
  (fact -> Triple P m Q X) ->
  Triple (fun st => fact /\ P st) m Q X.
Proof. intros H st [Hf HP]. now apply H. Qed.

Lemma Triple_forEach {A} (P : State -> Prop) (l : list A) f :
  (forall a, Triple P (f a) (fun _ => P) P) ->
  Triple P (forEach l f) (fun _ => P) P.
Proof.
  intros Hf. induction l as [|a l IH]; cbn [forEach].
  - now apply Triple_ret.
  - eapply Triple_bind; [apply Hf|]. intros ?. exact IH.
Qed.

Section IntactProofs.

Variable st0 : State.
Let n := nextRef (world st0).

Lemma Intact_called st : Intact st0 true st -> Intact st0 false st.
Proof.
  intros [base [L [k [E [extra [H1 [H2 [H3 [H4 [H5 [H6 [H7 [_ H9]]]]]]]]]]]]].
  exists base, L, k, E, extra. repeat (split; [assumption|]).
  split; [exact I|exact H9].
Qed.

(** A statement that leaves the world and the trace. *)
Lemma Intact_same called st st' :
  world st' = world st ->
  cleanupIds (trace st') = cleanupIds (trace st) ->
  Intact st0 called st -> Intact st0 called st'.
Proof.
  intros Hw Ht [base [L [k [E [extra H]]]]].
  exists base, L, k, E, extra. now rewrite Hw, Ht.
Qed.

(** A statement that goes from a frame to a frame on the same base. *)
Lemma Intact_frame called st st' :
  cleanupIds (trace st') = cleanupIds (trace st) ->
  (forall base L k E,
      world st = frame L k E base -> fresh n L E -> n <= k -> old n base ->
      exists L' k' E',
        world st' = frame L' k' E' base /\ fresh n L' E' /\ n <= k') ->
  Intact st0 called st -> Intact st0 called st'.
Proof.
  intros Ht Hw [base [L [k [E [extra [H1 [H2 [H3 [H4 H]]]]]]]]].
  destruct (Hw base L k E H1 H2 H3 H4) as [L' [k' [E' [H1' [H2' H3']]]]].
  exists base, L', k', E', extra. rewrite Ht. auto.
Qed.

Lemma Triple_mayRaise called :
  Triple (Intact st0 called) mayRaise (fun _ => Intact st0 called)
    (Intact st0 called).
Proof.
  intros st H. unfold mayRaise.
  destruct (faults st) as [|[|] rest]; [exact H| |];
    (eapply Intact_same; [| |exact H]); now destruct st.
Qed.

Lemma Triple_get {A} called (f : State -> A) (Q : A -> Prop) X :
  (forall st, Q (f st)) ->
  Triple (Intact st0 called) (get f)
    (fun a st => Q a /\ Intact st0 called st) X.
Proof. intros HQ st H. cbn. auto. Qed.

(** A statement that writes the world after a call that may raise. *)
Lemma Triple_write called (f : World -> World) :
  (forall base L k E,
      fresh n L E -> n <= k -> old n base ->
      exists L' k' E',
        f (frame L k E base) = frame L' k' E' base
        /\ fresh n L' E' /\ n <= k') ->
  Triple (Intact st0 called) (writeWorld f)
    (fun _ => Intact st0 called) (Intact st0 called).
Proof.
  intros Hf st H. unfold writeWorld, modify.
  eapply Intact_frame; [| |exact H]; [now destruct st|].
  intros base L k E Hw HL Hk Ho.
  destruct (Hf base L k E HL Hk Ho) as [L' [k' [E' [Hf' H']]]].
  exists L', k', E'. split; [|exact H'].
  destruct st as [w rc ts ls os fs infl con tr fl]. cbn in *. now subst w.
Qed.

Lemma Triple_raising_write called (f : World -> World) :
  (forall base L k E,
      fresh n L E -> n <= k -> old n base ->
      exists L' k' E',
        f (frame L k E base) = frame L' k' E' base
        /\ fresh n L' E' /\ n <= k') ->
  Triple (Intact st0 called) (mayRaise ;; writeWorld f)
    (fun _ => Intact st0 called) (Intact st0 called).
Proof.
  intros Hf. eapply Triple_bind; [apply Triple_mayRaise|].
  intros ?. now apply Triple_write.
Qed.

Lemma Triple_modify called f :
  (forall st, world (f st) = world st
              /\ cleanupIds (trace (f st)) = cleanupIds (trace st)) ->
  Triple (Intact st0 called) (modify f)
    (fun _ => Intact st0 called) (Intact st0 called).
Proof.
  intros Hf st H. unfold modify. destruct (Hf st) as [Hw Ht].
  now apply (Intact_same called st).
Qed.

(** *** The calls to the page *)

Lemma Triple_createElement called name :
  Triple (Intact st0 called) (Document.createElement name)
    (fun r st => n <= r /\ Intact st0 called st) (Intact st0 called).
Proof.
  unfold Document.createElement.
  eapply Triple_bind; [apply Triple_mayRaise|]. intros ? st H.
  unfold bind, readWorld, get, writeWorld, modify, ret.
  destruct H as [base [L [k [E [extra [H1 [H2 [H3 H]]]]]]]].
  rewrite H1. cbn [fst createElement nextRef frame]. split; [exact H3|].
  exists base, (Node k [] :: L), (S k),
    ((k, {| localName := name; attributes := []; display := "" |}) :: E),
    extra.
  split; [now destruct st|].
  split; [now apply fresh_created|]. split; [lia|].
  now destruct st.
Qed.

Lemma Triple_setElement called (f : Element -> Element) el :
  n <= el ->
  Triple (Intact st0 called) (writeWorld (update_element el f))
    (fun _ => Intact st0 called) (Intact st0 called).
Proof.
  intros Hel. apply Triple_write. intros base L k E HL Hk Ho.
  rewrite update_element_frame. eexists _, _, _. split; [reflexivity|].
  split; [now apply fresh_written|exact Hk].
Qed.

Lemma Triple_setClassName called el v :
  n <= el ->
  Triple (Intact st0 called) (Document.setClassName el v)
    (fun _ => Intact st0 called) (Intact st0 called).
Proof. apply Triple_setElement. Qed.

Lemma Triple_setTitle called el v :
  n <= el ->
  Triple (Intact st0 called) (Document.setTitle el v)
    (fun _ => Intact st0 called) (Intact st0 called).
Proof. apply Triple_setElement. Qed.

Lemma Triple_setDisplay called el v :
  n <= el ->
  Triple (Intact st0 called) (Document.setDisplay el v)
    (fun _ => Intact st0 called) (Intact st0 called).
Proof. apply Triple_setElement. Qed.

Lemma Triple_setAttribute called el name v :
  n <= el ->
  Triple (Intact st0 called) (Document.setAttribute el name v)
    (fun _ => Intact st0 called) (Intact st0 called).
Proof.
  intros Hel. unfold Document.setAttribute.
  eapply Triple_bind; [apply Triple_mayRaise|]. intros ?.
  now apply Triple_setElement.
Qed.

Lemma Triple_classListAdd called el c :
  n <= el ->
  Triple (Intact st0 called) (Document.classListAdd el c)
    (fun _ => Intact st0 called) (Intact st0 called).
Proof.
  intros Hel. unfold Document.classListAdd.
  eapply Triple_bind; [apply Triple_mayRaise|]. intros ?.
  now apply Triple_setElement.
Qed.

Lemma Triple_setTextContent called el v :
  n <= el ->
  Triple (Intact st0 called) (Document.setTextContent el v)
    (fun _ => Intact st0 called) (Intact st0 called).
Proof.
  intros Hel. apply Triple_write. intros base L k E HL Hk Ho.
  rewrite (setTextContent_frame n) by assumption.
  eexists _, _, _. split; [reflexivity|].
  split; [now apply fresh_text|exact Hk].
Qed.

Lemma Triple_setInnerHTML called el v :
  n <= el ->
  Triple (Intact st0 called) (Document.setInnerHTML el v)
    (fun _ => Intact st0 called) (Intact st0 called).
Proof.
  intros Hel. apply Triple_raising_write. intros base L k E HL Hk Ho.
  rewrite (setInnerHTML_frame n) by assumption.
  eexists _, _, _. split; [reflexivity|].
  split; [now apply fresh_markup|exact Hk].
Qed.

Lemma Triple_appendChild called p c :
  n <= p -> n <= c ->
  Triple (Intact st0 called) (Document.appendChild p c)
    (fun _ => Intact st0 called) (Intact st0 called).
Proof.
  intros Hp Hc. apply Triple_raising_write. intros base L k E HL Hk Ho.
  rewrite (appendChild_frame n) by assumption.
  eexists _, _, _. split; [reflexivity|].
  split; [now apply fresh_local_append|exact Hk].
Qed.

Lemma Triple_addEventListener called el l :
  Triple (Intact st0 called) (Document.addEventListener el l)
    (fun _ => Intact st0 called) (Intact st0 called).
Proof. apply Triple_modify. intros st. now destruct st. Qed.

Lemma Triple_setTimeout called t :
  Triple (Intact st0 called) (Document.setTimeout t)
    (fun _ => Intact st0 called) (Intact st0 called).
Proof. apply Triple_modify. intros st. now destruct st. Qed.

Lemma Triple_console_error called msg :
  Triple (Intact st0 called) (Document.console_error msg)
    (fun _ => Intact st0 called) (Intact st0 called).
Proof. apply Triple_modify. intros st. now destruct st. Qed.

Lemma Triple_recordRender called id src :
  Triple (Intact st0 called) (Document.record (CallRender id src))
    (fun _ => Intact st0 called) (Intact st0 called).
Proof.
  apply Triple_modify. intros st.
  destruct st as [w rc ts ls os fs infl con tr fl]. cbn. split; auto.
  unfold cleanupIds. rewrite flat_map_app. cbn. now rewrite app_nil_r.
Qed.

Lemma Triple_recordCleanup called id :
  Triple (Intact st0 called) (Document.record (CallCleanup id))
    (fun _ => Intact st0 true) (Intact st0 true).
Proof.
  intros st [base [L [k [E [extra [H1 [H2 [H3 [H4 [H5 [H6 [H7 _]]]]]]]]]]]].
  unfold Document.record, modify.
  exists base, L, k, E, (extra ++ [id]).
  split; [now destruct st|]. repeat (split; [assumption|]).
  split.
  { destruct st as [w rc ts ls os fs infl con tr fl]. cbn in *.
    unfold cleanupIds in *. rewrite flat_map_app, H7. cbn.
    now rewrite app_assoc. }
  split; [now destruct extra|]. now destruct extra.
Qed.

Lemma Triple_read {A} called (f : World -> A) :
  Triple (Intact st0 called) (readWorld f)
    (fun _ => Intact st0 called) (Intact st0 called).
Proof. intros st H. exact H. Qed.

Lemma Triple_querySelectorAll called sel :
  Triple (Intact st0 called) (Document.querySelectorAll sel)
    (fun els st => Forall (fun r => r < n) els /\ Intact st0 called st)
    (Intact st0 called).
Proof.
  unfold Document.querySelectorAll.
  eapply Triple_bind; [apply Triple_mayRaise|]. intros ? st H.
  unfold readWorld, get. split; [|exact H].
  destruct H as [base [L [k [E [extra [H1 [H2 [H3 [H4 _]]]]]]]]].
  rewrite H1, (querySelectorAll_frame n) by assumption.
  now apply querySelectorAll_old.
Qed.

Lemma Triple_removeAll els :
  Forall (fun r => r < n) els ->
  Triple (Intact st0 true) (forEach els Document.remove)
    (fun _ => Intact st0 true) (Intact st0 true).
Proof.
  intros Hels st H. rewrite forEach_remove.
  destruct H as [base [L [k [E [extra [H1 [H2 [H3 [H4 [H5 [H6 [H7 [H8 H9]]]]]]]]]]]]].
  exists (fold_left (fun w el => remove el w) els base), L, k, E, extra.
  split.
  { destruct st as [w rc ts ls os fs infl con tr fl]. cbn in *. subst w.
    now apply (fold_remove_frame n). }
  split; [assumption|]. split; [assumption|].
  split; [now apply old_fold_remove|].
  split; [now rewrite (proj1 (elements_fold_remove els base))|].
  split.
  { eapply incl_tran; [|exact H6].
    apply (documentRefs_fold_remove els base). }
  split; [now destruct st|]. split; [exact H8|].
  intros ->. now elim H8.
Qed.

Lemma Triple_cleanup called renderId :
  Triple (Intact st0 called) (cleanupMermaidErrorElements renderId)
    (fun _ => Intact st0 true) (Intact st0 true).
Proof.
  unfold cleanupMermaidErrorElements.
  eapply Triple_bind; [apply Triple_recordCleanup|]. intros ?.
  apply Triple_forEach. intros sel.
  eapply Triple_try_catch.
  - eapply Triple_bind; [apply Triple_querySelectorAll|]. intros els.
    apply Triple_fact. intros Hels. now apply Triple_removeAll.
  - intros e. now apply Triple_ret.
Qed.

Ltac page_call :=
  first
    [ apply Triple_createElement
    | apply Triple_setClassName; assumption
    | apply Triple_setTitle; assumption
    | apply Triple_setDisplay; assumption
    | apply Triple_setAttribute; assumption
    | apply Triple_classListAdd; assumption
    | apply Triple_setTextContent; assumption
    | apply Triple_setInnerHTML; assumption
    | apply Triple_appendChild; assumption
    | apply Triple_addEventListener
    | apply Triple_setTimeout
    | apply Triple_console_error
    | apply Triple_recordRender
    | apply Triple_read
    | apply Triple_mayRaise ].

(** One statement of a sequence. *)
Ltac statement :=
  eapply Triple_bind;
  [ page_call
  | intros ?; cbv beta; try (apply Triple_fact; intros ?) ].

Lemma Triple_createPreservingWrapper called sourceCode :
  Triple (Intact st0 called) (createPreservingWrapper sourceCode)
    (fun '(container, sourceWrapper, renderedDiv) st =>
       (n <= container /\ n <= sourceWrapper /\ n <= renderedDiv)
       /\ Intact st0 called st)
    (Intact st0 called).
Proof.
  unfold createPreservingWrapper. do 14 statement.
  apply Triple_ret. intros st Hst. auto.
Qed.

Lemma Triple_createErrorElement called parsedError :
  Triple (Intact st0 called) (createErrorElement parsedError)
    (fun r st => n <= r /\ Intact st0 called st) (Intact st0 called).
Proof.
  unfold createErrorElement. do 8 statement.
  apply (Triple_bind _ _ _ (fun _ => Intact st0 called)).
  { destruct (details parsedError) as [[|c r]|]; page_call. }
  intros ?; cbv beta. do 5 statement.
  apply Triple_ret. intros st Hst. auto.
Qed.

Lemma Triple_createToggleButton called sourceEl renderedEl initial :
  n <= sourceEl -> n <= renderedEl ->
  Triple (Intact st0 called) (createToggleButton sourceEl renderedEl initial)
    (fun r st => n <= r /\ Intact st0 called st) (Intact st0 called).
Proof.
  intros Hs Hr. unfold createToggleButton. do 3 statement.
  apply (Triple_bind _ _ _ (fun _ => Intact st0 called)).
  { destruct initial; [do 3 statement|statement]; page_call. }
  intros ?; cbv beta. statement.
  apply Triple_ret. intros st Hst. auto.
Qed.

Lemma Triple_parseErrorMessage called err :
  Triple (Intact st0 called) (parseErrorMessage err)
    (fun _ => Intact st0 called) (Intact st0 called).
Proof.
  unfold parseErrorMessage.
  apply (Triple_bind _ _ _ (fun _ => Intact st0 called)).
  - unfold errorToString.
    destruct err as [m| | |s|[s|]];
      try (apply Triple_ret; intros st H; exact H).
    intros st Hst. exact Hst.
  - intros ?. cbv beta. apply Triple_ret. auto.
Qed.

Lemma Triple_renderFailed called k err :
  freshLocals st0 k ->
  Triple (Intact st0 called) (renderFailed k err)
    (fun _ => Intact st0 true) (Intact st0 true).
Proof.
  intros [Hc [Hs Hr]]. fold n in Hc, Hs, Hr. unfold renderFailed.
  eapply Triple_bind; [apply Triple_cleanup|]. intros ?. cbv beta.
  statement.
  eapply Triple_bind; [apply Triple_parseErrorMessage|]. intros parsedError.
  cbv beta. statement.
  eapply Triple_bind; [apply Triple_createErrorElement|]. intros errorEl.
  cbv beta. apply Triple_fact. intros He.
  statement. page_call.
Qed.

(** Steps 4 and 5 either return the container or throw with the page
    intact. *)
Lemma Triple_attachAndCommit called k hasError :
  freshLocals st0 k ->
  Triple (Intact st0 called) (attachAndCommit k hasError)
    (fun result _ => result <> None) (Intact st0 called).
Proof.
  intros [Hc [Hs Hr]]. fold n in Hc, Hs, Hr. unfold attachAndCommit.
  eapply Triple_bind; [now apply Triple_createToggleButton|].
  intros toggleBtn. cbv beta. apply Triple_fact. intros Hb.
  statement.
  apply (Triple_bind _ _ _ (fun _ => Intact st0 called)).
  { unfold getWrapperToReplace.
    destruct (Platform_eqb (platform (s_config k)) grok).
    - apply Triple_ret. intros st Hst. exact Hst.
    - eapply Triple_bind; [apply Triple_read|]. intros parent. cbv beta.
      destruct parent; apply Triple_ret; intros st H; exact H. }
  intros wrapperToReplace. cbv beta.
  apply (Triple_bind _ _ _ (fun _ _ => True)).
  { unfold Document.replaceWith.
    eapply Triple_bind; [apply Triple_mayRaise|]. intros ? st Hst.
    exact I. }
  intros ?. cbv beta. apply Triple_ret. intros st _. discriminate.
Qed.

Lemma Triple_extractSourceCode called element config :
  Triple (Intact st0 called) (extractSourceCode element config)
    (fun _ => Intact st0 called) (Intact st0 called).
Proof.
  unfold extractSourceCode.
  destruct (Platform_eqb (platform config) grok).
  - unfold Document.querySelector.
    eapply Triple_bind.
    { eapply Triple_bind; [apply Triple_mayRaise|]. intros ?.
      apply Triple_read. }
    intros codeEl. cbv beta. destruct codeEl as [c|].
    + eapply Triple_bind; [apply Triple_read|]. intros text.
      apply Triple_ret. auto.
    + apply Triple_ret. auto.
  - eapply Triple_bind; [apply Triple_read|]. intros text.
    apply Triple_ret. auto.
Qed.

Lemma Triple_render k :
  freshLocals st0 k ->
  Triple (Intact st0 false)
    (try_catch (mermaid_render (s_uniqueId k) (s_sourceCode k) ;; ret false)
       (fun err => renderFailed k err ;; ret true))
    (fun _ => Intact st0 false) (Intact st0 false).
Proof.
  intros Hk. eapply Triple_try_catch.
  - unfold mermaid_render. eapply Triple_bind.
    + eapply Triple_bind; [apply Triple_recordRender|]. intros ?.
      apply Triple_mayRaise.
    + intros ?. apply Triple_ret. auto.
  - intros err.
    apply (Triple_weaken _ (Intact st0 false) _ _
             (fun _ => Intact st0 true) _ (Intact st0 true)).
    + eapply Triple_bind; [apply (Triple_renderFailed false k err Hk)|].
      intros ?.
      apply Triple_ret. intros st Hst. exact Hst.
    + auto.
    + intros a st. apply Intact_called.
    + intros st. apply Intact_called.
Qed.

Lemma Triple_start element config :
  Triple (Intact st0 false) (renderMermaidBlock_start element config)
    (started st0) (fun _ => False).
Proof.
  unfold renderMermaidBlock_start.
  apply (Triple_try_catch _ _ _ _ (Intact st0 false)).
  2:{ intros e. unfold outerCatch.
      apply (Triple_bind _ _ _ (fun _ => Intact st0 false));
        [apply Triple_console_error|]. intros ?.
      apply Triple_ret. intros st Hst. exact Hst. }
  eapply Triple_bind; [apply Triple_extractSourceCode|].
  intros sourceCode. cbv beta.
  destruct (String.eqb sourceCode "").
  { apply Triple_ret. intros st Hst. exact Hst. }
  eapply Triple_bind; [apply Triple_createPreservingWrapper|].
  intros [[container sourceWrapper] renderedDiv]. cbv beta iota.
  apply Triple_fact. intros [Hc [Hs Hr]].
  apply (Triple_bind _ _ _ (fun _ => Intact st0 false)).
  { intros st Hst. exact Hst. }
  intros counter.
  apply (Triple_bind _ _ _ (fun _ => Intact st0 false)).
  { apply Triple_modify. intros st. now destruct st. }
  intros ?. cbv zeta.
  match goal with
  | |- context [renderFailed ?k'] => set (k := k')
  end.
  assert (Hk : freshLocals st0 k) by (repeat split; assumption).
  eapply Triple_bind; [apply (Triple_render k Hk)|].
  intros hasError. cbv beta. destruct hasError.
  - apply (Triple_bind _ _ _ (fun result _ => result <> None)).
    + now apply Triple_attachAndCommit.
    + intros result st Hres. cbn. now destruct result.
  - apply Triple_ret. intros st Hst. split; assumption.
Qed.

Lemma Triple_resume k r :
  freshLocals st0 k ->
  Triple (Intact st0 false) (renderMermaidBlock_resume k r)
    (fun result st => result = None -> Intact st0 false st)
    (fun _ => False).
Proof.
  intros Hk. unfold renderMermaidBlock_resume.
  apply (Triple_try_catch _ _ _ _ (Intact st0 false)).
  2:{ intros e. unfold outerCatch.
      apply (Triple_bind _ _ _ (fun _ => Intact st0 false));
        [apply Triple_console_error|]. intros ?.
      apply Triple_ret. intros st Hst _. exact Hst. }
  apply (Triple_bind _ _ _ (fun _ => Intact st0 false)).
  - eapply Triple_try_catch.
    + destruct r as [svg|err].
      * eapply Triple_bind;
          [apply Triple_setInnerHTML; apply Hk|].
        intros ?. apply Triple_ret. intros st Hst. exact Hst.
      * intros st Hst. exact Hst.
    + intros err.
      apply (Triple_weaken _ (Intact st0 false) _ _
               (fun _ => Intact st0 true) _ (Intact st0 true)).
      * eapply Triple_bind; [apply (Triple_renderFailed false k err Hk)|].
        intros ?.
        apply Triple_ret. intros st Hst. exact Hst.
      * auto.
      * intros a st. apply Intact_called.
      * intros st. apply Intact_called.
  - intros hasError.
    apply (Triple_weaken _ (Intact st0 false) _ _
             (fun result _ => result <> None) _ (Intact st0 false)).
    + now apply Triple_attachAndCommit.
    + auto.
    + intros result st Hres Hnone. congruence.
    + auto.
Qed.

Lemma Triple_renderMermaidBlock element config r :
  Triple (Intact st0 false) (renderMermaidBlock element config r)
    (fun result st => result = None -> Intact st0 false st)
    (fun _ => False).
Proof.
  unfold renderMermaidBlock.
  eapply Triple_bind; [apply Triple_start|].
  intros [[c|]|k]; cbn [started].
  - apply Triple_ret. intros st _ H. discriminate H.
  - apply Triple_ret. intros st Hst _. exact Hst.
  - apply Triple_fact. intros Hk. now apply Triple_resume.
Qed.

End IntactProofs.

Lemma Intact_start st :
  wellFormed (world st) = true -> Intact st false st.
Proof.
  intros Hw. exists (world st), [], (nextRef (world st)), [], [].
  split; [now rewrite frame_base|].
  split; [split; constructor|]. split; [lia|]. split; [exact Hw|].
  split; [reflexivity|]. split; [apply incl_refl|].
  split; [now rewrite app_nil_r|]. auto.
Qed.

(** X4. A candidate for which [renderMermaidBlock] gives no artifact
    leaves the page as it was, whatever raised and however the render
    settled: no element that existed has its attributes or style changed,
    the document holds no element that it did not hold, and when the
    cleanup was not called (the render did not fail) the document is the
    very same tree.  Only the cleanup after a failed render can take
    elements away. *)
Theorem no_artifact_page_intact
  (st st' : State) (element : Ref) (config : PlatformConfig)
  (settled : Settled) :
  wellFormed (world st) = true ->
  renderMermaidBlock element config settled st = (Return None, st') ->
  (forall r, r < nextRef (world st) ->
             element_of (world st') r = element_of (world st) r)
  /\ incl (documentRefs (world st')) (documentRefs (world st))
  /\ (cleanupIds (trace st') = cleanupIds (trace st) ->
      document (world st') = document (world st)).
Proof.
  intros Hw Hrun.
  pose proof (Triple_renderMermaidBlock st element config settled st
                (Intact_start st Hw)) as H.
  rewrite Hrun in H. specialize (H eq_refl).
  destruct H as [base [L [k [E [extra [H1 [H2 [H3 [H4 [H5 [H6 [H7 [_ H9]]]]]]]]]]]]].
  rewrite H1. split; [|split].
  - intros r Hr. rewrite element_of_frame.
    rewrite (lookup_fresh (nextRef (world st))); [|apply H2|exact Hr].
    unfold element_of. now rewrite H5.
  - exact H6.
  - intros Hc. rewrite Hc in H7.
    assert (He : extra = []).
    { apply (f_equal (@List.length string)) in H7.
      rewrite length_app in H7. destruct extra; [reflexivity|].
      cbn in H7. lia. }
    now apply H9.
Qed.

Lemma no_artifact_page_intact_witness :
  (forall r, r < nextRef (world faultyState) ->
             element_of (world abandonedState) r
             = element_of (world faultyState) r)
  /\ incl (documentRefs (world abandonedState))
          (documentRefs (world faultyState))
  /\ (cleanupIds (trace abandonedState) = cleanupIds (trace faultyState) ->
      document (world abandonedState) = document (world faultyState)).
Proof.
  apply (no_artifact_page_intact faultyState abandonedState 3 chatgptConfig
           (Resolved "<svg/>")); vm_compute; reflexivity.
Defined.
(** ** The details of an error *)

Lemma toLowerCase_length s : String.length (Js.toLowerCase s) = String.length s.
Proof. induction s as [|c s IH]; cbn; congruence. Qed.

Lemma sameLetters_length a b : sameLetters a b -> String.length a = String.length b.
Proof.
  unfold sameLetters. intros H. apply (f_equal String.length) in H.
  now rewrite !toLowerCase_length in H.
Qed.

Lemma literal_ci_spec lit : forall s rest,
  Regex.literal_ci lit s = Some rest <->
  exists found, s = (found ++ rest)%string /\ sameLetters found lit.
Proof.
  induction lit as [|a lit IH]; intros s rest; cbn [Regex.literal_ci].
  - split.
    + intros H. injection H as ->. now exists "".
    + intros [found [-> H]]. apply sameLetters_length in H.
      destruct found; [reflexivity|discriminate].
  - destruct s as [|b s].
    + split; [discriminate|]. intros [found [E H]].
      apply sameLetters_length in H.
      destruct found; discriminate.
    + destruct (Ascii.eqb (Js.lowerChar a) (Js.lowerChar b)) eqn:Eab.
      * apply Ascii.eqb_eq in Eab. rewrite IH. split.
        -- intros [found [-> H]]. exists (String b found). split; auto.
           unfold sameLetters in *. cbn. now rewrite H, Eab.
        -- intros [found [E H]]. destruct found as [|c found];
             [apply sameLetters_length in H; discriminate|].
           cbn in E. injection E as -> ->. exists found. split; auto.
           unfold sameLetters in *. cbn in H. now injection H.
      * split; [discriminate|]. intros [found [E H]].
        destruct found as [|c found];
          [apply sameLetters_length in H; discriminate|].
        cbn in E. injection E as -> ->. unfold sameLetters in H. cbn in H.
        injection H as H _. rewrite H, Ascii.eqb_refl in Eab. discriminate.
Qed.

Lemma search_none here s :
  Regex.search here s = None <->
  forall before rest, s = (before ++ rest)%string -> here rest = None.
Proof.
  induction s as [|c s IH]; cbn [Regex.search].
  - destruct (here "") eqn:E; split; try discriminate; auto.
    + intros H. now rewrite (H "" "" eq_refl) in E.
    + intros _ before rest H. destruct before; [|discriminate].
      cbn in H. now subst.
  - destruct (here (String c s)) eqn:E.
    + split; [discriminate|]. intros H.
      now rewrite (H "" (String c s) eq_refl) in E.
    + rewrite IH. split.
      * intros H before rest Hs. destruct before as [|b before].
        -- cbn in Hs. now subst.
        -- cbn in Hs. injection Hs as -> ->. now apply (H before).
      * intros H before rest ->. apply (H (String c before)). reflexivity.
Qed.

(** The match that [search] returns is the leftmost one. *)
Lemma search_leftmost here s before rest m :
  s = (before ++ rest)%string -> here rest = Some m ->
  (forall before' rest', s = (before' ++ rest')%string ->
      String.length before' < String.length before -> here rest' = None) ->
  Regex.search here s = Some m.
Proof.
  revert s. induction before as [|c before IH]; intros s -> Hm Hfirst.
  - cbn [append]. destruct rest; cbn [Regex.search]; now rewrite Hm.
  - cbn [append Regex.search].
    rewrite (Hfirst "" (String c (before ++ rest)) eq_refl) by (cbn; lia).
    apply IH; auto. intros before' rest' E Hlen.
    apply (Hfirst (String c before')); [cbn [append]; congruence|cbn; lia].
Qed.

Lemma takeDigits_prefix ds tail :
  allDigits ds -> ~ startsWithDigit tail ->
  Regex.takeDigits (ds ++ tail) = ds.
Proof.
  intros Hd Ht. induction ds as [|c ds IH]; cbn [append].
  - destruct tail as [|c tail]; [reflexivity|]. cbn in *.
    destruct (Regex.isDigit c); [now elim Ht|reflexivity].
  - destruct Hd as [Hc Hd]. cbn. rewrite Hc. now rewrite IH.
Qed.

Lemma takeDigits_empty rest :
  Regex.takeDigits rest = "" <-> ~ startsWithDigit rest.
Proof.
  destruct rest as [|c rest]; cbn; [tauto|].
  destruct (Regex.isDigit c); split; try discriminate; auto.
  intros H. now elim H.
Qed.

Lemma takeDigits_digit rest d ds :
  Regex.takeDigits rest = String d ds -> startsWithDigit rest.
Proof.
  destruct rest as [|c rest]; cbn; [discriminate|].
  now destruct (Regex.isDigit c).
Qed.

Lemma parse_error_here s :
  (forall m, Regex.parse_error_on_line s = Some m ->
     exists found rest,
       s = (found ++ rest)%string
       /\ sameLetters found "Parse error on line "
       /\ startsWithDigit rest
       /\ nth 1 m "undefined" = Regex.takeDigits rest)
  /\ (Regex.parse_error_on_line s = None <->
      ~ exists found rest,
          s = (found ++ rest)%string
          /\ sameLetters found "Parse error on line "
          /\ startsWithDigit rest).
Proof.
  unfold Regex.parse_error_on_line.
  destruct (Regex.literal_ci "Parse error on line " s) as [rest|] eqn:E.
  - apply literal_ci_spec in E as [found [Hs Hf]].
    destruct (Regex.takeDigits rest) as [|d ds] eqn:Ed.
    + split; [discriminate|]. split; [|reflexivity].
      intros _ [found' [rest' [Hs' [Hf' Hd]]]].
      assert (found' = found /\ rest' = rest) as [-> ->].
      { subst s. pose proof (sameLetters_length _ _ Hf) as H1.
        pose proof (sameLetters_length _ _ Hf') as H2.
        clear - Hs' H1 H2. rewrite <- H2 in H1. clear H2.
        revert found' H1 Hs'.
        induction found as [|c found IH]; intros [|c' found'] H1 Hs';
          try discriminate; [now split|].
        cbn in Hs'. injection Hs' as -> Hs'. cbn in H1.
        destruct (IH found') as [-> ->]; auto. }
      now apply takeDigits_empty in Ed.
    + split.
      * intros m H. injection H as <-. exists found, rest.
        split; [exact Hs|]. split; [exact Hf|].
        split; [now apply (takeDigits_digit rest d ds)|].
        cbn [nth]. now rewrite Ed.
      * split; [discriminate|]. intros H. elim H. exists found, rest.
        split; [exact Hs|]. split; [exact Hf|].
        now apply (takeDigits_digit rest d ds).
  - split; [discriminate|]. split; [|reflexivity].
    intros _ [found [rest [Hs [Hf _]]]].
    assert (H : Regex.literal_ci "Parse error on line " s = Some rest)
      by (apply literal_ci_spec; eauto).
    congruence.
Qed.

Lemma literal_here lit s :
  Regex.literal lit s = None <->
  ~ exists found rest, s = (found ++ rest)%string /\ sameLetters found lit.
Proof.
  unfold Regex.literal.
  destruct (Regex.literal_ci lit s) as [rest|] eqn:E.
  - split; [discriminate|]. intros H. elim H.
    apply literal_ci_spec in E as [found [Hs Hf]]. eauto.
  - split; [|reflexivity]. intros _ [found [rest [Hs Hf]]].
    assert (H : Regex.literal_ci lit s = Some rest)
      by (apply literal_ci_spec; eauto).
    congruence.
Qed.

Lemma search_literal lit s :
  Regex.search (Regex.literal lit) s = None <-> ~ occurs lit s.
Proof.
  rewrite search_none. split.
  - intros H [before [after [found [Hs Hf]]]].
    specialize (H before (found ++ after)%string Hs).
    apply literal_here in H. apply H. eauto.
  - intros H before rest Hs. apply literal_here.
    intros [found [after [Hr Hf]]]. apply H.
    exists before, after, found. split; [now rewrite Hs, Hr|exact Hf].
Qed.

Lemma search_parse_error_none s :
  Regex.search Regex.parse_error_on_line s = None <->
  ~ exists before after, parseErrorAt before after s.
Proof.
  rewrite search_none. split.
  - intros H [before [after [[found [Hs Hf]] Hd]]].
    specialize (H before (found ++ after)%string Hs).
    apply (proj2 (parse_error_here _)) in H. apply H. eauto.
  - intros H before rest Hs. apply (proj2 (parse_error_here rest)).
    intros [found [after [Hr [Hf Hd]]]]. apply H.
    exists before, after. split; [|exact Hd].
    exists found. split; [now rewrite Hs, Hr|exact Hf].
Qed.

Lemma search_parse_error_first s before after :
  parseErrorAt before after s ->
  (forall before' after', parseErrorAt before' after' s ->
      String.length before <= String.length before') ->
  exists m, Regex.search Regex.parse_error_on_line s = Some m
            /\ nth 1 m "undefined" = Regex.takeDigits after.
Proof.
  intros [[found [Hs Hf]] Hd] Hfirst.
  destruct (Regex.parse_error_on_line (found ++ after)) as [m|] eqn:Em.
  2:{ apply (proj2 (parse_error_here _)) in Em. elim Em. eauto. }
  exists m. split.
  - apply (search_leftmost _ _ before (found ++ after)%string); auto.
    intros before' rest' Hs' Hlen.
    apply (proj2 (parse_error_here rest')).
    intros [found' [after' [Hr [Hf' Hd']]]].
    assert (Hp : parseErrorAt before' after' s).
    { split; [|exact Hd']. exists found'. split; [|exact Hf'].
      now rewrite Hs', Hr. }
    apply Hfirst in Hp. lia.
  - destruct (proj1 (parse_error_here _) m Em)
      as [found' [rest' [Hs' [Hf' [_ Hn]]]]].
    rewrite Hn. f_equal.
    pose proof (sameLetters_length _ _ Hf) as H1.
    pose proof (sameLetters_length _ _ Hf') as H2.
    rewrite <- H2 in H1. clear - Hs' H1.
    revert found' H1 Hs'.
    induction found as [|c found IH]; intros [|c' found'] H1 Hs';
      try discriminate; [now cbn in Hs'|].
    cbn in Hs'. injection Hs' as -> Hs'. cbn in H1. apply (IH found'); auto.
Qed.

(** X5. [parseErrorMessage], for an error that converts to the string
    [message]: it returns, without raising or touching the state, the user
    message [Failed to render diagram] and the message as the original
    error.  The details come from the first pattern that the message
    matches, letters in any case: [Syntax error on line N] when the message
    has [Parse error on line ] followed by digits, [N] being the digits of
    the first such place; otherwise [Unsupported diagram type] when it has
    [Unknown diagram type]; otherwise [Syntax error in diagram] when it has
    [Syntax error in text]; otherwise there are no details. *)
Theorem parseErrorMessage_details
  (error : JsValue) (message : string) (st : State) :
  printable error = Some message ->
  exists parsedError,
    parseErrorMessage error st = (Return parsedError, st)
    /\ userMessage parsedError = "Failed to render diagram"
    /\ originalError parsedError = message
    /\ (forall before digits tail,
           parseErrorAt before (digits ++ tail) message ->
           allDigits digits -> ~ startsWithDigit tail ->
           (forall before' after', parseErrorAt before' after' message ->
               String.length before <= String.length before') ->
           details parsedError
           = Some (String.append "Syntax error on line " digits))
    /\ ((~ exists before after, parseErrorAt before after message) ->
        (occurs "Unknown diagram type" message ->
         details parsedError = Some "Unsupported diagram type")
        /\ (~ occurs "Unknown diagram type" message ->
            (occurs "Syntax error in text" message ->
             details parsedError = Some "Syntax error in diagram")
            /\ (~ occurs "Syntax error in text" message ->
                details parsedError = None))).
Proof.
  intros Hp. exists (firstPattern ERROR_PATTERNS message).
  split; [now apply parseErrorMessage_printable|].
  split; [apply userMessage_firstPattern|].
  split.
  { unfold ERROR_PATTERNS. cbn [firstPattern pattern].
    repeat match goal with
           | |- context [Regex.search ?p message] =>
               destruct (Regex.search p message)
           end; reflexivity. }
  split.
  - intros before digits tail Hat Hd Ht Hfirst.
    destruct (search_parse_error_first message before _ Hat Hfirst)
      as [m [Hm Hn]].
    unfold ERROR_PATTERNS. cbn [firstPattern pattern pattern_details].
    rewrite Hm. cbn [details]. now rewrite Hn, takeDigits_prefix.
  - intros H1. apply search_parse_error_none in H1.
    unfold ERROR_PATTERNS. cbn [firstPattern pattern pattern_details].
    rewrite H1. split.
    + intros H2.
      destruct (Regex.search (Regex.literal "Unknown diagram type") message)
        eqn:E2; [reflexivity|].
      apply search_literal in E2. contradiction.
    + intros H2. apply search_literal in H2. rewrite H2. split.
      * intros H3.
        destruct (Regex.search (Regex.literal "Syntax error in text")
                    message) eqn:E3; [reflexivity|].
        apply search_literal in E3. contradiction.
      * intros H3. apply search_literal in H3. now rewrite H3.
Qed.

Lemma parseErrorMessage_details_witness :
  printable (VError "Parse error on line 15: unexpected token")
  = Some "Parse error on line 15: unexpected token"
  /\ exists parsedError,
       parseErrorMessage (VError "Parse error on line 15: unexpected token")
         exampleState
       = (Return parsedError, exampleState)
       /\ details parsedError = Some "Syntax error on line 15".
Proof.
  split; [reflexivity|].
  destruct (parseErrorMessage_details
              (VError "Parse error on line 15: unexpected token")
              "Parse error on line 15: unexpected token" exampleState
              eq_refl)
    as [parsedError [Hrun [_ [_ [Hd _]]]]].
  exists parsedError. split; [exact Hrun|].
  apply (Hd "" "15" ": unexpected token").
  - split; [|reflexivity]. exists "Parse error on line ". now split.
  - cbn. auto.
  - cbn. discriminate.
  - intros before' after' _. cbn. lia.
Defined.

(** ** The label of the toggle *)

Lemma find_update_self b f t : forall up,
  find (chain_isRef b) (chains (map (update b f) up) (update b f t))
  = option_map (map (update b f)) (find (chain_isRef b) (chains up t)).
Proof.
  induction t as [r ks IH| |] using Tree_induction; intros up;
    try reflexivity.
  cbn [update]. destruct (r =? b) eqn:Er.
  - cbn [chains find chain_isRef isRef]. rewrite Er. cbn [option_map map].
    cbn [update]. now rewrite Er.
  - cbn [chains find chain_isRef isRef]. rewrite Er.
    replace (Node r (map (update b f) ks) :: map (update b f) up)
      with (map (update b f) (Node r ks :: up))
      by (cbn [map update]; now rewrite Er).
    generalize (Node r ks :: up). intros up'.
    induction ks as [|k ks IHks]; [reflexivity|].
    inversion IH as [|? ? Hk Hks]; subst.
    cbn [map flat_map]. rewrite !find_app, Hk.
    destruct (find (chain_isRef b) (chains up' k)); [reflexivity|].
    cbn [option_map]. auto.
Qed.

Lemma find_update_list b f ts :
  find (chain_isRef b) (flat_map (chains []) (map (update b f) ts))
  = option_map (map (update b f))
      (find (chain_isRef b) (flat_map (chains []) ts)).
Proof.
  induction ts as [|t ts IH]; [reflexivity|].
  cbn [map flat_map]. rewrite !find_app.
  pose proof (find_update_self b f t []) as Ht. cbn [map] in Ht.
  rewrite Ht.
  destruct (find (chain_isRef b) (chains [] t)); [reflexivity|].
  cbn [option_map]. exact IH.
Qed.

(** The children of [b] once they are rewritten. *)
Lemma node_of_update_children b f w ks :
  node_of w b = Some (Node b ks) ->
  node_of (update_children b f w) b = Some (Node b (f ks)).
Proof.
  unfold node_of, chain_of. rewrite !all_chains_roots_eq.
  assert (Hr : roots (update_children b f w) = map (update b f) (roots w)).
  { unfold roots, update_children, set_shape. cbn.
    now destruct (document w). }
  rewrite Hr, find_update_list.
  destruct (find (chain_isRef b) (flat_map (chains []) (roots w)))
    as [[|x ch]|]; try discriminate.
  cbn [option_map map hd_error]. intros H. injection H as ->.
  cbn [update]. now rewrite Nat.eqb_refl.
Qed.

Lemma node_of_update_element el f w x :
  node_of (update_element el f w) x = node_of w x.
Proof. reflexivity. Qed.

Lemma assoc_assoc_set k v l : assoc k (assoc_set k v l) = Some v.
Proof.
  induction l as [|[k' v'] l IH]; cbn.
  - now rewrite String.eqb_refl.
  - destruct (String.eqb k' k) eqn:E; cbn; [now rewrite String.eqb_refl|].
    now rewrite E.
Qed.

Lemma title_setTitle b v w :
  getAttribute (element_of (setTitle b v w) b) "title" = Some v.
Proof.
  unfold setTitle, setAttribute, update_element, element_of. cbn.
  rewrite Nat.eqb_refl. apply assoc_assoc_set.
Qed.

Lemma world_set_listeners l st : world (set_listeners l st) = world st.
Proof. now destruct st. Qed.

(** What one click leaves. *)
Lemma toggleClicked_label st s r b showing ks :
  s <> r ->
  node_of (world st) b = Some (Node b ks) ->
  let st' := exec (toggleClicked s r b showing) st in
  let shown := negb showing in
  visible (world st') s = shown
  /\ visible (world st') r = negb shown
  /\ node_of (world st') b
     = Some (Node b [Text (if shown then PLAY_ICON else "{ }")])
  /\ getAttribute (element_of (world st') b) "title"
     = Some (if shown then "Show diagram" else "Show source code").
Proof.
  intros Hne Hb st' shown.
  destruct (toggleClicked_visibility st s r b showing Hne) as [H1 H2].
  fold st' in H1, H2. split; [exact H1|].
  split; [now rewrite H2; unfold shown; rewrite negb_involutive|].
  subst st' shown. unfold exec. rewrite toggleClicked_world.
  cbn [snd]. replace (world (set_world _ st)) with
    (setTitle b (if showing then "Show source code" else "Show diagram")
       (setTextContent b (if showing then "{ }" else PLAY_ICON)
          (setDisplay r (if showing then "block" else "none")
             (setDisplay s (if showing then "none" else "block")
                (world st))))) by now destruct st.
  split.
  - unfold setTitle, setAttribute. rewrite node_of_update_element.
    unfold setTextContent.
    rewrite (node_of_update_children b _ _ ks)
      by (unfold setDisplay; now rewrite !node_of_update_element).
    now destruct showing.
  - rewrite title_setTitle. now destruct showing.
Qed.

(** X6. The button of the toggle tells what a click will do.  After any
    number of clicks (one at least) on a toggle whose listener holds
    [showing], the source region is shown exactly when the number of clicks
    is odd and [showing] was false, or even and [showing] was true; the
    display region is shown exactly when the source region is not; the
    button reads the play icon with the title [Show diagram] while the
    source is shown and [{ }] with the title [Show source code] while the
    diagram is shown; two clicks bring back the state of before. *)
Theorem toggle_label_follows
  (clicks : nat) (st : State) (s r b : Ref) (showing : bool)
  (ks : list Tree) :
  s <> r ->
  listeners st = [(b, ToggleClick s r b showing)] ->
  node_of (world st) b = Some (Node b ks) ->
  let st' := run (repeat (Click b) (S clicks)) st in
  let shown := if Nat.even clicks then negb showing else showing in
  visible (world st') s = shown
  /\ visible (world st') r = negb shown
  /\ textContent_of (world st') b = (if shown then PLAY_ICON else "{ }")
  /\ getAttribute (element_of (world st') b) "title"
     = Some (if shown then "Show diagram" else "Show source code")
  /\ listeners st' = [(b, ToggleClick s r b shown)].
Proof.
  revert st showing ks.
  induction clicks as [|clicks IH]; intros st showing ks Hne Hl Hb.
  - cbn [repeat run fold_left Nat.even]. rewrite (click_single _ _ _ _ _ Hl).
    destruct (toggleClicked_label st s r b showing ks Hne Hb)
      as [H1 [H2 [H3 H4]]].
    rewrite world_set_listeners. unfold textContent_of.
    rewrite H1, H2, H3, H4. cbn [textContent map String.concat].
    repeat split; now destruct showing.
  - change (repeat (Click b) (S (S clicks)))
      with (Click b :: repeat (Click b) (S clicks)).
    unfold run. cbn [fold_left]. rewrite (click_single _ _ _ _ _ Hl).
    destruct (toggleClicked_label st s r b showing ks Hne Hb)
      as [_ [_ [H3 _]]].
    set (st1 := set_listeners _ _).
    assert (Hb1 : node_of (world st1) b
                  = Some (Node b [Text (if negb showing then PLAY_ICON
                                        else "{ }")])).
    { unfold st1. now rewrite world_set_listeners. }
    pose proof (IH st1 (negb showing) _ Hne eq_refl Hb1) as H.
    unfold run in H. cbv zeta in H.
    replace (if Nat.even (S clicks) then negb showing else showing)
      with (if Nat.even clicks then negb (negb showing) else negb showing).
    + exact H.
    + rewrite Nat.even_succ, <- Nat.negb_even.
      destruct (Nat.even clicks), showing; reflexivity.
Qed.

Lemma toggle_label_follows_witness :
  (9 <> 11
   /\ listeners renderedState = [(12, ToggleClick 9 11 12 false)]
   /\ node_of (world renderedState) 12 = Some (Node 12 [Text "{ }"]))
  /\ visible (world (run [Click 12; Click 12; Click 12] renderedState)) 9
     = true
  /\ textContent_of
       (world (run [Click 12; Click 12; Click 12] renderedState)) 12
     = PLAY_ICON.
Proof.
  assert (H1 : 9 <> 11) by lia.
  assert (H2 : listeners renderedState = [(12, ToggleClick 9 11 12 false)])
    by reflexivity.
  assert (H3 : node_of (world renderedState) 12
               = Some (Node 12 [Text "{ }"])) by reflexivity.
  split; [repeat split; assumption|].
  destruct (toggle_label_follows 2 renderedState 9 11 12 false
              [Text "{ }"] H1 H2 H3) as [Hs [_ [Ht _]]].
  split; [exact Hs|exact Ht].
Defined.

(** ** Reading the source back *)



Lemma found_head_none o : found_head o = None -> o = None \/ o = Some [].
Proof. destruct o as [[|x ch]|]; cbn; auto; discriminate. Qed.

Lemma find_chains_nonempty r up t :
  find (chain_isRef r) (chains up t) <> Some [].
Proof.
  intros H. apply find_some in H as [_ H]. discriminate.
Qed.

Lemma find_flat_nonempty r up ks :
  find (chain_isRef r) (flat_map (chains up) ks) <> Some [].
Proof.
  intros H. apply find_some in H as [_ H]. discriminate.
Qed.

(** The node that is found does not depend on the ancestors. *)
Lemma find_head r t : forall up up',
  found_head (find (chain_isRef r) (chains up t))
  = found_head (find (chain_isRef r) (chains up' t)).
Proof.
  induction t as [r0 ks IH| |] using Tree_induction; intros up up';
    try reflexivity.
  cbn [chains find chain_isRef isRef].
  destruct (r0 =? r); [reflexivity|].
  generalize (Node r0 ks :: up) (Node r0 ks :: up'). intros u u'.
  induction ks as [|k ks IHks]; [reflexivity|].
  inversion IH as [|? ? Hk Hks]; subst.
  cbn [flat_map]. rewrite !find_app. specialize (Hk u u').
  destruct (find (chain_isRef r) (chains u k)) as [ch|] eqn:E1;
    destruct (find (chain_isRef r) (chains u' k)) as [ch'|] eqn:E2;
    auto.
  - change (found_head None) with (@None Tree) in Hk.
    apply found_head_none in Hk as [Hk|Hk]; [discriminate|].
    injection Hk as ->. now apply find_chains_nonempty in E1.
  - change (found_head None) with (@None Tree) in Hk. symmetry in Hk.
    apply found_head_none in Hk as [Hk|Hk]; [discriminate|].
    injection Hk as ->. now apply find_chains_nonempty in E2.
Qed.

Lemma node_in_chains r t up :
  found_head (find (chain_isRef r) (chains up t)) = node_in t r.
Proof. unfold node_in. apply (find_head r t up []). Qed.

Section NodeInside.

Variables (wrapper : Ref) (T : Tree) (r : Ref).
Hypothesis inside : In r (tree_refs T).

Lemma node_in_inside : node_in T r <> None.
Proof.
  unfold node_in.
  destruct (find_inside r T [] inside) as [ch [-> Hch]].
  destruct ch; [contradiction|discriminate].
Qed.

Lemma substitute_node t : forall up,
  absent r t -> below wrapper t = true ->
  found_head (find (chain_isRef r) (chains up (substitute wrapper T t)))
  = node_in T r.
Proof.
  induction t as [r0 ks IH| |] using Tree_induction; intros up Ha Hb;
    try discriminate.
  apply absent_Node in Ha as [Hne Hall].
  cbn [substitute chains find chain_isRef isRef].
  replace (r0 =? r) with false by (symmetry; now apply Nat.eqb_neq).
  set (N' := Node r0 _). clearbody N'.
  cbn [below] in Hb.
  induction ks as [|k ks IHks]; [discriminate|].
  inversion IH as [|? ? IHk IHrest]; subst.
  inversion Hall as [|? ? Hak Harest]; subst.
  cbn [map flat_map]. rewrite find_app.
  destruct (isRef wrapper k) eqn:Hk.
  - pose proof (node_in_chains r T (N' :: up)) as Hn.
    destruct (find (chain_isRef r) (chains (N' :: up) T)) as [ch|] eqn:E;
      [exact Hn|].
    cbn in Hn. symmetry in Hn. now apply node_in_inside in Hn.
  - cbn [existsb] in Hb. rewrite Hk in Hb. cbn [orb] in Hb.
    destruct (below wrapper k) eqn:Hbk.
    + pose proof (IHk (N' :: up) Hak eq_refl) as Hn.
      destruct (find (chain_isRef r)
                  (chains (N' :: up) (substitute wrapper T k)))
        as [ch|] eqn:E; [exact Hn|].
      cbn in Hn. symmetry in Hn. now apply node_in_inside in Hn.
    + rewrite (substitute_not_below _ _ _ Hbk).
      rewrite (chains_absent _ _ _ Hak). cbn [orb] in Hb. auto.
Qed.

Lemma substitute_node_list ts tail :
  Forall (absent r) ts ->
  existsb (fun t => isRef wrapper t) ts = false ->
  existsb (fun t => isRef wrapper t || below wrapper t) ts = true ->
  found_head
    (find (chain_isRef r)
       (flat_map (chains []) (map (substitute wrapper T) ts ++ tail)))
  = node_in T r.
Proof.
  induction 1 as [|t ts Ht Hts IH]; intros Hroot Hex; [discriminate|].
  cbn [existsb] in Hroot, Hex.
  apply orb_false_elim in Hroot as [Hr Hroot]. rewrite Hr in Hex.
  cbn [orb map app flat_map]. rewrite find_app.
  destruct (below wrapper t) eqn:Hb.
  - pose proof (substitute_node t [] Ht Hb) as Hn.
    destruct (find (chain_isRef r) (chains [] (substitute wrapper T t)))
      as [ch|] eqn:E; [exact Hn|].
    cbn in Hn. symmetry in Hn. now apply node_in_inside in Hn.
  - rewrite (substitute_not_below _ _ _ Hb), (chains_absent _ _ _ Ht).
    apply IH; auto.
Qed.

End NodeInside.

Lemma node_of_found w r :
  node_of w r = found_head (find (chain_isRef r) (all_chains w)).
Proof.
  unfold node_of, chain_of.
  now destruct (find (chain_isRef r) (all_chains w)) as [[|x ch]|].
Qed.

(** Once the container has taken the place of the wrapper, every element
    of its tree is found as it is in that tree. *)
Lemma replaceWith_node n wrapper c ks k E base r :
  old n base -> wrapper < n -> n <= c ->
  Forall (fun x => n <= x) (tree_refs (Node c ks)) ->
  In r (tree_refs (Node c ks)) ->
  node_of (replaceWith wrapper c (frame [Node c ks] k E base)) r
  = node_in (Node c ks) r.
Proof.
  intros Ho Hw Hc Hfresh Hr. set (T := Node c ks) in *.
  set (W := frame [T] k E base).
  assert (Hn : n <= r) by (rewrite Forall_forall in Hfresh; auto).
  assert (HW : node_of W r = node_in T r).
  { unfold node_of, W. rewrite (chain_of_frame_fresh n) by assumption.
    cbn [flat_map]. rewrite app_nil_r. unfold node_in.
    now destruct (find (chain_isRef r) (chains [] T)). }
  assert (HT : node_of W c = Some T).
  { unfold node_of, W. rewrite (chain_of_frame_fresh n) by assumption.
    cbn [flat_map app]. unfold T. now rewrite find_app, find_T. }
  unfold replaceWith. rewrite node_of_reshape.
  destruct (existsb (isRef wrapper) (detached W)) eqn:Hdet; [exact HW|].
  rewrite HT. cbv zeta.
  assert (Hu : unlink c W = frame [] k E base).
  { unfold W. rewrite (unlink_frame n) by assumption.
    unfold T. cbn [flat_map app isRef]. now rewrite Nat.eqb_refl. }
  rewrite Hu.
  destruct (node_of (frame [] k E base) wrapper) as [o|] eqn:Ho'; [|exact HW].
  rewrite node_of_found, all_chains_roots_eq.
  unfold roots, set_shape. cbn [document detached frame app].
  assert (Hdet' : existsb (isRef wrapper) (detached base) = false).
  { unfold W, frame in Hdet. cbn in Hdet.
    now apply orb_false_elim in Hdet as [_ Hdet]. }
  destruct (isDocumentElement (frame [] k E base) wrapper) eqn:Hroot.
  - cbn [flat_map]. rewrite find_app.
    pose proof (node_in_chains r T []) as Hni.
    destruct (find (chain_isRef r) (chains [] T)) as [ch|] eqn:Ef;
      [exact Hni|].
    cbn in Hni. symmetry in Hni. now apply node_in_inside in Hni.
  - assert (Hex : existsb (fun t => isRef wrapper t || below wrapper t)
                    (roots base) = true).
    { unfold node_of, chain_of in Ho'.
      destruct (find (chain_isRef wrapper) (all_chains (frame [] k E base)))
        as [ch|] eqn:Ef; [|discriminate].
      apply find_some in Ef as [Hin Hhead].
      apply all_chains_roots in Hin as [t [Ht Hin]].
      apply existsb_exists. exists t. split; [exact Ht|].
      apply (find_chains_some _ _ []).
      intros Hnone. apply (find_none _ _ Hnone) in Hin. congruence. }
    assert (Hroots : existsb (fun t => isRef wrapper t) (roots base) = false)
      by (apply existsb_isRef_roots; assumption).
    assert (Habs : Forall (absent r) (roots base)).
    { apply old_roots in Ho. eapply Forall_impl; [|exact Ho].
      intros t Ht. simpl in Ht. exact (bounded_absent _ _ _ Ht Hn). }
    pose proof (substitute_node_list wrapper T r Hr (roots base) [o]
                  Habs Hroots Hex) as Hp.
    unfold roots in Hp. destruct (document base) as [d|]; cbn [option_map];
      cbn [map app] in Hp |- *; exact Hp.
Qed.

Lemma trimEnd_idem s : Js.trimEnd (Js.trimEnd s) = Js.trimEnd s.
Proof.
  induction s as [|c s IH]; [reflexivity|]. cbn [Js.trimEnd].
  destruct (Js.trimEnd s) as [|d r] eqn:E.
  - destruct (Js.isWhiteSpace c) eqn:Ec; [reflexivity|].
    cbn. now rewrite Ec.
  - cbn [Js.trimEnd]. cbn [Js.trimEnd] in IH.
    destruct (Js.trimEnd r) as [|d' r'] eqn:Er.
    + destruct (Js.isWhiteSpace d); [discriminate|]. now rewrite IH.
    + now rewrite IH.
Qed.

Lemma trim_idem s : Js.trim (Js.trim s) = Js.trim s.
Proof.
  unfold Js.trim.
  rewrite (trimStart_id (Js.trimEnd (Js.trimStart s)))
    by (apply trimEnd_black, trimStart_black).
  apply trimEnd_idem.
Qed.

Lemma sourceOf_trimmed w element config :
  Js.trim (sourceOf w element config) = sourceOf w element config.
Proof.
  unfold sourceOf. destruct (Platform_eqb (platform config) grok).
  - destruct (querySelector w element _); [apply trim_idem|reflexivity].
  - apply trim_idem.
Qed.

(** Reading the source back from an artifact: from its [code] element as
    the platforms other than Grok read a candidate, from its container as
    Grok reads one. *)
Lemma read_back w n src others up config :
  chain_of w n
  = Node n (Node (S n) [Node (S (S n)) [Text src]] :: others) :: up ->
  node_of w (S (S n)) = Some (Node (S (S n)) [Text src]) ->
  localName (element_of w (S n)) = "pre" ->
  localName (element_of w (S (S n))) = "code" ->
  Js.trim src = src ->
  sourceOf w (if Platform_eqb (platform config) grok then n else S (S n))
    config
  = src.
Proof.
  intros Hc Hn Hpre Hcode Ht. unfold sourceOf.
  destruct (Platform_eqb (platform config) grok).
  - unfold querySelector. rewrite Hc.
    cbn [chains tl flat_map find chain_matches matches List.rev app
         matches_compound forallb matches_simple matches_ancestors].
    rewrite Hpre, Hcode. cbn [String.eqb Ascii.eqb Bool.eqb andb orb].
    cbn [chain_ref]. unfold textContent_of. rewrite Hn. cbn. exact Ht.
  - unfold textContent_of. rewrite Hn. cbn. exact Ht.
Qed.

Lemma chain_of_node w r t :
  node_of w r = Some t -> exists up, chain_of w r = t :: up.
Proof.
  unfold node_of. destruct (chain_of w r) as [|x up]; [discriminate|].
  intros H. injection H as ->. now exists up.
Qed.

Lemma rendered_faults element config settled st :
  faults st = [] ->
  sourceOf (world st) element config <> "" ->
  (forall error, settled = Rejected error -> printable error <> None) ->
  faults (snd (renderMermaidBlock element config settled st)) = [].
Proof.
  intros Hf Hs Hp. unfold renderMermaidBlock, bind.
  rewrite (start_awaiting _ _ _ Hf Hs). destruct settled as [svg|error].
  - rewrite resume_resolved by (destruct st; exact Hf).
    now destruct st.
  - destruct (printable error) as [message|] eqn:Hm;
      [|now elim (Hp error eq_refl)].
    rewrite (resume_rejected _ _ message) by (destruct st; assumption).
    now destruct st.
Qed.

(** From an artifact that was returned the source is read back as it was
    extracted. *)
Lemma rendered_read_back
  (st : State) (element : Ref) (config config' : PlatformConfig)
  (settled : Settled) :
  faults st = [] ->
  wellFormed (world st) = true ->
  sourceOf (world st) element config <> "" ->
  (forall error, settled = Rejected error -> printable error <> None) ->
  let n := nextRef (world st) in
  let src := sourceOf (world st) element config in
  exists st',
    renderMermaidBlock element config settled st = (Return (Some n), st')
    /\ extractSourceCode
         (if Platform_eqb (platform config') grok then n else S (S n))
         config' st'
       = (Return src, st').
Proof.
  intros Hf Hw Hs Hp n src.
  pose proof (rendered_faults element config settled st Hf Hs Hp) as Hf'.
  pose proof (sourceOf_element n _ _ _ Hw Hs) as Hel.
  destruct settled as [svg|error].
  - destruct (artifact_resolved element config svg st Hf Hw Hs)
      as [st' [Hr [Hn [_ [H1 [H2 _]]]]]].
    fold n src in Hr, Hn, H1, H2. rewrite Hr in Hf'. cbn [snd] in Hf'.
    exists st'. split; [exact Hr|].
    rewrite (extractSourceCode_world _ _ _ Hf'). do 2 f_equal.
    destruct (chain_of_node _ _ _ Hn) as [up Hc].
    apply (read_back _ n src _ up config' Hc).
    + destruct (renderMermaidBlock_resolved element config svg st Hf Hs)
        as [st2 [Hr2 [Hworld _]]].
      assert (st2 = st') by congruence. subst st2.
      destruct (precommit_resolved (world st)
                  (suspendedAt st element config) svg Hw Hs Hel
                  eq_refl eq_refl eq_refl) as [E [HW _]].
      cbn [s_sourceCode s_element s_config suspendedAt] in HW.
      rewrite Hworld, HW. fold n src.
      rewrite (replaceWith_node n);
        [|exact Hw|now apply wrapperOf_old|lia| |cbn; auto].
      * unfold node_in.
        cbn [chains flat_map app find chain_isRef isRef hd_error].
        norm_eqb. cbn [find chain_isRef isRef]. norm_eqb. reflexivity.
      * destruct (String.eqb svg "");
          repeat first [apply Forall_nil | apply Forall_cons
                       | progress cbn [tree_refs flat_map app] | lia].
    + now rewrite H1.
    + now rewrite H2.
    + apply sourceOf_trimmed.
  - destruct (printable error) as [message|] eqn:Hm;
      [|now elim (Hp error eq_refl)].
    destruct (artifact_rejected element config error message st Hf Hw Hs Hm)
      as [st' [Hr [Hn [_ [H1 [H2 _]]]]]].
    fold n src in Hr, Hn, H1, H2. rewrite Hr in Hf'. cbn [snd] in Hf'.
    exists st'. split; [exact Hr|].
    rewrite (extractSourceCode_world _ _ _ Hf'). do 2 f_equal.
    destruct (chain_of_node _ _ _ Hn) as [up Hc].
    apply (read_back _ n src _ up config' Hc).
    + destruct (renderMermaidBlock_rejected element config error message
                  st Hf Hs Hm) as [st2 [Hr2 [Hworld _]]].
      assert (st2 = st') by congruence. subst st2.
      set (parsedError := firstPattern ERROR_PATTERNS message) in *.
      assert (Hmsg : userMessage parsedError <> "")
        by (unfold parsedError; rewrite userMessage_firstPattern;
            discriminate).
      destruct (precommit_rejected (world st)
                  (suspendedAt st element config) parsedError Hw Hs Hmsg
                  Hel eq_refl eq_refl eq_refl) as [E [HW [Ho' _]]].
      cbn [s_sourceCode s_element s_config suspendedAt] in HW.
      rewrite Hworld, HW. fold n src.
      rewrite (replaceWith_node n);
        [|exact Ho'|now apply wrapperOf_old|lia| |cbn; auto].
      * unfold node_in.
        cbn [chains flat_map app find chain_isRef isRef hd_error].
        norm_eqb. cbn [find chain_isRef isRef]. norm_eqb. reflexivity.
      * destruct (details parsedError) as [[|c0 r0]|];
          repeat first [apply Forall_nil | apply Forall_cons
                       | progress cbn [tree_refs flat_map app] | lia].
    + now rewrite H1.
    + now rewrite H2.
    + apply sourceOf_trimmed.
Qed.

(** X7. The source can be read back from the artifact.  When no call
    raises and the candidate has the source text [src]: after a render
    that resolved, or that was rejected with an error that can be
    printed, [renderMermaidBlock] returns the container and
    [extractSourceCode] returns [src] again, from the [code] element of
    the artifact, read as the platforms other than Grok read a candidate,
    and from the container of the artifact, read as Grok reads one
    (through [pre code]), though the source region may be hidden.  After
    a render rejected with an error that cannot be printed, [null] is
    returned: there is no artifact to read. *)
Theorem source_read_back
  (st : State) (element : Ref) (config config' : PlatformConfig)
  (settled : Settled) :
  faults st = [] ->
  wellFormed (world st) = true ->
  sourceOf (world st) element config <> "" ->
  let n := nextRef (world st) in
  let src := sourceOf (world st) element config in
  let printed := match settled with
                 | Resolved _ => true
                 | Rejected error => isSome (printable error)
                 end in
  exists result st',
    renderMermaidBlock element config settled st = (Return result, st')
    /\ result = (if printed then Some n else None)
    /\ (printed = true ->
        extractSourceCode
          (if Platform_eqb (platform config') grok then n else S (S n))
          config' st'
        = (Return src, st')).
Proof.
  intros Hf Hw Hs n src printed.
  destruct printed eqn:Hp.
  - assert (Hok : forall error,
               settled = Rejected error -> printable error <> None).
    { intros error ->. subst printed.
      now destruct (printable error). }
    destruct (rendered_read_back st element config config' settled
                Hf Hw Hs Hok) as [st' [Hr Hx]].
    exists (Some n), st'. split; [exact Hr|]. split; [reflexivity|].
    intros _. exact Hx.
  - destruct settled as [svg|error]; [discriminate Hp|].
    subst printed.
    destruct (printable error) as [message|] eqn:Hm; [discriminate Hp|].
    destruct (renderMermaidBlock_unprintable element config error st
                Hf Hs Hm) as [st' [Hr _]].
    exists None, st'. split; [exact Hr|]. split; [reflexivity|].
    discriminate.
Qed.

Lemma source_read_back_witness :
  (faults exampleState = []
   /\ wellFormed (world exampleState) = true
   /\ sourceOf (world exampleState) 3 chatgptConfig <> "")
  /\ exists st',
       renderMermaidBlock 3 chatgptConfig
         (Rejected (VError "Parse error on line 3")) exampleState
       = (Return (Some 8), st')
       /\ extractSourceCode 10 chatgptConfig st'
          = (Return "graph TD; A-->B;", st').
Proof.
  assert (H1 : faults exampleState = []) by reflexivity.
  assert (H2 : wellFormed (world exampleState) = true) by reflexivity.
  assert (H3 : sourceOf (world exampleState) 3 chatgptConfig <> "")
    by (vm_compute; intros H; discriminate H).
  split; [repeat split; assumption|].
  destruct (source_read_back exampleState 3 chatgptConfig chatgptConfig
              (Rejected (VError "Parse error on line 3")) H1 H2 H3)
    as [result [st' [Hr [Hres Hx]]]].
  exists st'. split; [rewrite Hr, Hres; reflexivity|exact (Hx eq_refl)].
Defined.
(** ** Where the script starts the renderer *)

Lemma sweep_returns config st :
  processExistingBlocks config st
  = (Return tt, exec (processExistingBlocks config) st).
Proof.
  unfold exec, processExistingBlocks, bind, readWorld, get.
  now rewrite forEach_calls.
Qed.

Lemma Unobserved_ret {A} (a : A) : Unobserved (ret a).
Proof. now intros st. Qed.

Lemma Unobserved_throw {A} e : Unobserved (@throw A e).
Proof. now intros st. Qed.

Lemma Unobserved_get {A} (f : State -> A) : Unobserved (get f).
Proof. now intros st. Qed.

Lemma Unobserved_bind {A B} (m : M A) (f : A -> M B) :
  Unobserved m -> (forall a, Unobserved (f a)) -> Unobserved (bind m f).
Proof.
  intros Hm Hf st. unfold bind. specialize (Hm st).
  destruct (m st) as [[a|e] st1]; cbn [snd] in *; [|exact Hm].
  now rewrite Hf.
Qed.

Lemma Unobserved_try_catch {A} (m : M A) handler :
  Unobserved m -> (forall e, Unobserved (handler e)) ->
  Unobserved (try_catch m handler).
Proof.
  intros Hm Hh st. unfold try_catch. specialize (Hm st).
  destruct (m st) as [[a|e] st1]; cbn [snd] in *; [exact Hm|].
  now rewrite Hh.
Qed.

Lemma Unobserved_modify f :
  (forall st, observers (f st) = observers st) -> Unobserved (modify f).
Proof. intros H st. apply H. Qed.

Lemma Unobserved_forEach {A} (l : list A) f :
  (forall a, Unobserved (f a)) -> Unobserved (forEach l f).
Proof.
  intros Hf. induction l as [|a l IH]; cbn [forEach].
  - apply Unobserved_ret.
  - apply Unobserved_bind; auto.
Qed.

Lemma Unobserved_mayRaise : Unobserved mayRaise.
Proof.
  intros st. unfold mayRaise. destruct (faults st) as [|[|] rest];
    now destruct st.
Qed.

Lemma Unobserved_if {A} (b : bool) (m1 m2 : M A) :
  Unobserved m1 -> Unobserved m2 -> Unobserved (if b then m1 else m2).
Proof. now destruct b. Qed.

(** Statement by statement, down to the calls into the page. *)
Ltac unobserved :=
  repeat first
    [ progress intros
    | apply Unobserved_ret
    | apply Unobserved_throw
    | apply Unobserved_get
    | apply Unobserved_mayRaise
    | apply Unobserved_bind
    | apply Unobserved_try_catch
    | apply Unobserved_forEach
    | apply Unobserved_if
    | apply Unobserved_modify; intros st; now destruct st
    | match goal with
      | |- Unobserved (match ?x with _ => _ end) => destruct x
      end
    | progress unfold readWorld, writeWorld,
        Document.createElement, Document.querySelectorAll,
        Document.querySelector, Document.setAttribute,
        Document.appendChild, Document.replaceWith, Document.classListAdd,
        Document.setInnerHTML, Document.remove, Document.setClassName,
        Document.setTitle, Document.setDisplay, Document.setTextContent,
        Document.textContent, Document.parentElement,
        Document.addEventListener, Document.setTimeout,
        Document.console_error, Document.record,
        cleanupMermaidErrorElements, errorToString, parseErrorMessage,
        createErrorElement, createToggleButton, createPreservingWrapper,
        extractSourceCode, getWrapperToReplace, mermaid_render,
        renderFailed, attachAndCommit, outerCatch ].

Lemma Unobserved_start element config :
  Unobserved (renderMermaidBlock_start element config).
Proof. unfold renderMermaidBlock_start. unobserved. Qed.

Lemma Unobserved_call config block :
  Unobserved (renderMermaidBlock_call config block).
Proof.
  unfold renderMermaidBlock_call. apply Unobserved_bind;
    [apply Unobserved_start|].
  intros [result|k]; unobserved.
Qed.

Lemma Unobserved_sweep config : Unobserved (processExistingBlocks config).
Proof.
  unfold processExistingBlocks. apply Unobserved_bind; [unobserved|].
  intros blocks. apply Unobserved_forEach. apply Unobserved_call.
Qed.

(** X8. [main] starts the renderer on the platforms it detects other than
    Grok, and only there.  On a host name on which [detectPlatform] finds
    nothing or finds Grok it writes one line to the console and leaves the
    page, the observers, the listeners and everything else as they are.
    On a host name of another platform, whose configuration is [config],
    and when [mermaid.initialize] does not raise: it logs the platform,
    loads the library, hands every block that
    [findUnprocessedMermaidBlocks] finds on the page to
    [renderMermaidBlock], in their order and whatever their calls raise,
    then adds the observer of [config] to the observers there were, logs
    that the renderer is initialized, and returns. *)
Theorem main_starts_renderer (hostname : string) (st : State) :
  ((detectPlatform hostname = None \/ detectPlatform hostname = Some grok) ->
   exists line,
     main hostname st = (Return tt, set_console (console st ++ [line]) st))
  /\ (forall platform config,
         detectPlatform hostname = Some platform ->
         platform <> grok ->
         getPlatformConfig platform = Some config ->
         hd_error (faults st) <> Some true ->
         let ready :=
           set_faults (tl (faults st))
             (set_console
                (console st
                 ++ [String.append "[MPR] Detected platform: "
                       (platformName platform);
                     "[MPR] Mermaid loaded from bundle"]) st) in
         let swept :=
           fold_left
             (fun s block => exec (renderMermaidBlock_call config block) s)
             (findUnprocessedMermaidBlocks (world st) config) ready in
         main hostname st
         = (Return tt,
            set_console (console swept ++ ["[MPR] Renderer initialized"])
              (set_observers (observers st ++ [config]) swept))).
Proof.
  split.
  - unfold main. intros [->| ->]; eexists; reflexivity.
  - intros platform config Hd Hg Hc Hfault ready swept.
    assert (Hsweep : exec (processExistingBlocks config) ready = swept).
    { unfold exec, processExistingBlocks, bind, readWorld, get.
      rewrite forEach_calls. cbn [snd]. unfold swept.
      now replace (world ready) with (world st) by now destruct st. }
    assert (Hobs : observers swept = observers st).
    { rewrite <- Hsweep. unfold exec. rewrite Unobserved_sweep.
      now destruct st. }
    unfold main. rewrite Hd, Hc.
    replace (Platform_eqb platform grok) with false
      by (destruct platform; try reflexivity; now elim Hg).
    unfold loadMermaidLibrary, initRenderer, mermaid_initialize.
    unfold bind at 1. unfold console_log at 1, modify.
    unfold bind at 1. unfold try_catch, bind at 1, console_log at 1,
      modify, ret.
    unfold bind at 1. unfold bind at 1.
    assert (Hraise : mayRaise
                       (set_console
                          (console
                             (set_console
                                (console st
                                 ++ [String.append "[MPR] Detected platform: "
                                       (platformName platform)]) st)
                           ++ ["[MPR] Mermaid loaded from bundle"])
                          (set_console
                             (console st
                              ++ [String.append "[MPR] Detected platform: "
                                    (platformName platform)]) st))
                     = (Return tt, ready)).
    { unfold mayRaise, ready.
      destruct st as [w rc ts ls os fs infl con tr fl].
      cbn [faults set_console set_faults console tl hd_error] in *.
      rewrite <- app_assoc.
      destruct fl as [|[|] rest]; [reflexivity|now elim Hfault|reflexivity]. }
    rewrite Hraise. unfold bind at 1. rewrite sweep_returns, Hsweep.
    unfold setupMutationObserver, console_log, modify, bind.
    rewrite Hobs. now destruct swept.
Qed.

Lemma main_starts_renderer_witness :
  (detectPlatform "chatgpt.com" = Some chatgpt
   /\ chatgpt <> grok
   /\ getPlatformConfig chatgpt = Some chatgptConfig
   /\ hd_error (faults exampleState) <> Some true)
  /\ fst (main "chatgpt.com" exampleState) = Return tt
  /\ observers (exec (main "chatgpt.com") exampleState) = [chatgptConfig]
  /\ map s_element (inflight (exec (main "chatgpt.com") exampleState)) = [3].
Proof.
  assert (H1 : detectPlatform "chatgpt.com" = Some chatgpt) by reflexivity.
  assert (H2 : chatgpt <> grok) by discriminate.
  assert (H3 : getPlatformConfig chatgpt = Some chatgptConfig)
    by reflexivity.
  assert (H4 : hd_error (faults exampleState) <> Some true) by discriminate.
  split; [exact (conj H1 (conj H2 (conj H3 H4)))|].
  unfold exec.
  rewrite (proj2 (main_starts_renderer "chatgpt.com" exampleState)
             chatgpt chatgptConfig H1 H2 H3 H4).
  vm_compute. repeat split.
Defined.

(** ** From the host name to the configuration *)

Lemma Platform_eqb_eq a b : Platform_eqb a b = true <-> a = b.
Proof. destruct a, b; cbn; split; congruence. Qed.

Lemma detectPlatform_in_entry platforms host key :
  detectPlatform_in platforms host = Some key ->
  exists entry,
    In (key, entry) platforms /\ Js.includes host (hostname entry) = true.
Proof.
  induction platforms as [|[k e] rest IH]; cbn; [discriminate|].
  destruct (Js.includes host (hostname e)) eqn:E.
  - intros H. injection H as <-. exists e. auto.
  - intros H. destruct (IH H) as [entry [Hin Hi]]. exists entry. auto.
Qed.

Lemma platforms_get_In platforms key entry :
  NoDup (map fst platforms) ->
  In (key, entry) platforms ->
  platforms_get platforms key = Some entry.
Proof.
  induction platforms as [|[k e] rest IH]; cbn; [intros _ []|].
  intros Hn [H|H]; inversion Hn as [|? ? Hnotin Hrest]; subst.
  - injection H as -> ->.
    now rewrite (proj2 (Platform_eqb_eq key key) eq_refl).
  - destruct (Platform_eqb k key) eqn:E; [|auto].
    apply Platform_eqb_eq in E. subst k. elim Hnotin.
    apply in_map_iff. now exists (key, entry).
Qed.

(** X9. The platform that [detectPlatform] finds has a configuration, and
    it is the one of the entry that matched.  For every table of platforms
    with distinct keys and every host name on which [detectPlatform]
    answers [key]: the table has an entry under [key] whose host name is in
    the host name given, and [getPlatformConfig] returns for [key] the
    selectors and the detection of that entry; the selectors of the
    language label and of the preview button are handed on for the
    detection by language label only. *)
Theorem detected_platform_configured
  (platforms : Platforms) (host : string) (key : Platform) :
  NoDup (map fst platforms) ->
  detectPlatform_in platforms host = Some key ->
  exists entry config,
    In (key, entry) platforms
    /\ Js.includes host (hostname entry) = true
    /\ getPlatformConfig_in platforms key = Some config
    /\ platform config = key
    /\ detection config = selectors_detection entry
    /\ codeBlockSelector config = selectors_codeBlock entry
    /\ wrapperSelector config = selectors_wrapper entry
    /\ languageLabelSelector config
       = match selectors_detection entry with
         | languageLabel => selectors_languageLabel entry
         | _ => None
         end
    /\ previewButtonSelector config
       = match selectors_detection entry with
         | languageLabel => selectors_previewButton entry
         | _ => None
         end.
Proof.
  intros Hn Hd. destruct (detectPlatform_in_entry _ _ _ Hd) as [entry [Hin Hi]].
  exists entry. unfold getPlatformConfig_in.
  rewrite (platforms_get_In _ _ _ Hn Hin).
  eexists. split; [exact Hin|]. split; [exact Hi|].
  split; [reflexivity|].
  destruct (selectors_detection entry); repeat split.
Qed.

Lemma detected_platform_configured_witness :
  (NoDup (map fst selectors_platforms)
   /\ detectPlatform_in selectors_platforms "gemini.google.com"
      = Some gemini)
  /\ exists config,
       getPlatformConfig gemini = Some config
       /\ detection config = contentBased.
Proof.
  assert (H1 : NoDup (map fst selectors_platforms)).
  { cbn. repeat constructor; cbn; intuition discriminate. }
  assert (H2 : detectPlatform_in selectors_platforms "gemini.google.com"
               = Some gemini) by reflexivity.
  split; [split; assumption|].
  destruct (detected_platform_configured selectors_platforms
              "gemini.google.com" gemini H1 H2)
    as [entry [config [Hin [_ [Hc [_ [Hdet _]]]]]]].
  exists config. split; [exact Hc|]. rewrite Hdet.
  cbn in Hin.
  destruct Hin as [H|[H|[H|[H|[]]]]]; try discriminate H.
  now injection H as <-.
Defined.

(** ** The diagram of Grok *)

Lemma element_of_setDisplay el v w x :
  element_of (setDisplay el v w) x
  = if el =? x then withDisplay v (element_of w el) else element_of w x.
Proof.
  unfold setDisplay, update_element, element_of. cbn.
  destruct (el =? x) eqn:E; [|reflexivity]. reflexivity.
Qed.

Lemma toggleGrokDiagram_world html d c st :
  toggleGrokDiagram html d c st
  = (Return tt,
     set_world
       (let shown := visible (world st) d in
        let w := setDisplay d (if shown then "none" else "") (world st) in
        match c with
        | Some code =>
            if html code then setDisplay code (if shown then "" else "none") w
            else w
        | None => w
        end) st).
Proof.
  unfold toggleGrokDiagram, visible, bind, readWorld, get.
  destruct (negb (String.eqb (display (element_of (world st) d)) "none"));
    unfold Document.setDisplay, writeWorld, modify; cbn;
    destruct c as [code|]; try (destruct (html code)); cbn;
    now destruct st.
Qed.

Lemma toggleGrokDiagram_once html d c st :
  c <> Some d ->
  let st' := exec (toggleGrokDiagram html d c) st in
  visible (world st') d = negb (visible (world st) d)
  /\ (forall code, c = Some code -> html code = true -> code <> d ->
        visible (world st') code = visible (world st) d)
  /\ (forall x, x <> d ->
        (forall code, c = Some code -> html code = true -> x <> code) ->
        element_of (world st') x = element_of (world st) x)
  /\ document (world st') = document (world st)
  /\ detached (world st') = detached (world st).
Proof.
  intros Hcd st'. subst st'. unfold exec. rewrite toggleGrokDiagram_world.
  cbn [snd]. replace (world (set_world _ st)) with
    (let shown := visible (world st) d in
     let w := setDisplay d (if shown then "none" else "") (world st) in
     match c with
     | Some code =>
         if html code then setDisplay code (if shown then "" else "none") w
         else w
     | None => w
     end) by now destruct st.
  cbv zeta. set (shown := visible (world st) d).
  split; [|split; [|split; [|split]]].
  - unfold visible at 1. destruct c as [code|]; [destruct (html code)|];
      rewrite ?display_setDisplay, ?Nat.eqb_refl;
      try (destruct (code =? d) eqn:E;
           [apply Nat.eqb_eq in E; subst code; now elim Hcd|]);
      rewrite ?Nat.eqb_refl; now destruct shown.
  - intros code -> Hh Hne. rewrite Hh. unfold visible at 1.
    rewrite display_setDisplay, Nat.eqb_refl. now destruct shown.
  - intros x Hx Hc. destruct c as [code|]; [destruct (html code) eqn:Hh|];
      rewrite ?element_of_setDisplay;
      repeat match goal with
        | |- context [?a =? x] =>
            replace (a =? x) with false
              by (symmetry; apply Nat.eqb_neq; intros ->;
                  first [now apply Hx | now apply (Hc x eq_refl Hh)])
        end; reflexivity.
  - destruct c as [code|]; [destruct (html code)|]; reflexivity.
  - destruct c as [code|]; [destruct (html code)|]; reflexivity.
Qed.

(** X10. [toggleGrokDiagram] alternates.  After [n] calls with the same
    arguments the diagram container is shown exactly when [n] is even and
    it was shown, or odd and it was hidden; the code container, when it is
    an HTML element, is shown after each call exactly when the diagram
    container is hidden (the two containers being different elements);
    no other element changes, the trees stay as they are, and no call
    raises. *)
Theorem toggleGrokDiagram_alternates
  (html : Ref -> bool) (d : Ref) (c : option Ref) (n : nat) (st : State) :
  c <> Some d ->
  let st' := Nat.iter n (exec (toggleGrokDiagram html d c)) st in
  visible (world st') d
  = (if Nat.even n then visible (world st) d
     else negb (visible (world st) d))
  /\ (forall code, c = Some code -> html code = true ->
        0 < n -> visible (world st') code = negb (visible (world st') d))
  /\ (forall x, x <> d ->
        (forall code, c = Some code -> html code = true -> x <> code) ->
        element_of (world st') x = element_of (world st) x)
  /\ document (world st') = document (world st)
  /\ detached (world st') = detached (world st)
  /\ fst (toggleGrokDiagram html d c st') = Return tt.
Proof.
  intros Hcd. induction n as [|n IH]; intros st'; subst st'.
  - cbn [Nat.iter Nat.even]. repeat split; try reflexivity.
    + intros code _ _ H. inversion H.
    + now rewrite toggleGrokDiagram_world.
  - rewrite Nat.iter_succ. set (prev := Nat.iter n _ st) in *.
    cbv zeta in IH. destruct IH as [H1 [H2 [H3 [H4 [H5 _]]]]].
    destruct (toggleGrokDiagram_once html d c prev Hcd)
      as [G1 [G2 [G3 [G4 G5]]]].
    split; [|split; [|split; [|split; [|split]]]].
    + rewrite G1, H1, Nat.even_succ, <- Nat.negb_even.
      destruct (Nat.even n); [reflexivity|]. apply negb_involutive.
    + intros code Hc Hh _.
      assert (Hne : code <> d) by (intros ->; now apply Hcd).
      rewrite (G2 code Hc Hh Hne), G1.
      now rewrite negb_involutive.
    + intros x Hx Hc. rewrite (G3 x Hx Hc). now apply H3.
    + congruence.
    + congruence.
    + now rewrite toggleGrokDiagram_world.
Qed.

Lemma toggleGrokDiagram_alternates_witness :
  Some 5 <> Some 7
  /\ visible
       (world (Nat.iter 3 (exec (toggleGrokDiagram (fun _ => true) 7 (Some 5)))
                 exampleState)) 5
     = negb
         (visible
            (world
               (Nat.iter 3 (exec (toggleGrokDiagram (fun _ => true) 7 (Some 5)))
                  exampleState)) 7).
Proof.
  assert (H : Some 5 <> Some 7) by discriminate.
  split; [exact H|].
  destruct (toggleGrokDiagram_alternates (fun _ => true) 7 (Some 5) 3
              exampleState H) as [_ [Hc _]].
  apply (Hc 5 eq_refl eq_refl). lia.
Defined.

(** ** The diagram container of Grok *)

Lemma createGrokDiagramContainer_world sourceCode st :
  faults st = [] ->
  createGrokDiagramContainer sourceCode st
  = (Return (nextRef (world st)),
     set_world (grokContainerWorld sourceCode (world st)) st).
Proof.
  destruct st as [w rc ts ls os fs infl con tr fl]. cbn [faults].
  intros ->. unfold createGrokDiagramContainer, grokContainerWorld.
  run_statements.
  autorewrite with refs.
  reflexivity.
Qed.

Lemma grokContainerWorld_frame sourceCode base :
  old (nextRef base) base ->
  sourceCode <> "" ->
  exists E,
    grokContainerWorld sourceCode base
    = frame [Node (nextRef base)
               [Node (S (nextRef base))
                  [Node (S (S (nextRef base))) [Text sourceCode]];
                Node (S (S (S (nextRef base)))) []]]
        (S (S (S (S (nextRef base))))) E base
    /\ fresh (nextRef base) [] E
    /\ lookup (E ++ elements base) (nextRef base)
       = {| localName := "div";
            attributes := [("class", "mpr-grok-diagram")];
            display := "none" |}
    /\ lookup (E ++ elements base) (S (nextRef base))
       = {| localName := "pre";
            attributes := [("class", "mpr-source")];
            display := "none" |}
    /\ lookup (E ++ elements base) (S (S (nextRef base)))
       = {| localName := "code";
            attributes := [("class", "language-mermaid")];
            display := "" |}
    /\ lookup (E ++ elements base) (S (S (S (nextRef base))))
       = {| localName := "div";
            attributes := [("class", "mpr-rendered")];
            display := "" |}.
Proof.
  intros Ho Hsrc. set (n := nextRef base) in *.
  eexists. split.
  { replace (grokContainerWorld sourceCode base)
      with (grokContainerWorld sourceCode (frame [] n [] base))
      by (unfold n; now rewrite frame_base).
    unfold grokContainerWorld, setClassName, setAttribute, setDisplay.
    cbv zeta.
    repeat frame_step n.
    rewrite (eqb_empty_false _ Hsrc).
    eval_locals. reflexivity. }
  split.
  { split; [constructor|]. repeat constructor; cbn [fst]; lia. }
  cbn [app lookup]. norm_eqb. repeat split.
Qed.

(** X11. [createGrokDiagramContainer], when no call raises and the source
    text is not empty: the container that it returns is outside the
    document, which stays as it is; the container and its source region
    are hidden; the source region holds a [code] element of class
    [language-mermaid] with the source text as it was given; and
    [extractSourceCode] of Grok reads the text back from the container,
    trimmed. *)
Theorem grok_container_holds_source (st : State) (sourceCode : string) :
  faults st = [] ->
  wellFormed (world st) = true ->
  sourceCode <> "" ->
  let n := nextRef (world st) in
  exists st' container,
    createGrokDiagramContainer sourceCode st = (Return n, st')
    /\ node_of (world st') n = Some container
    /\ holdsSource (world st') container sourceCode
    /\ displayRegionOf container = Some (Node (S (S (S n))) [])
    /\ visible (world st') n = false
    /\ visible (world st') (S n) = false
    /\ document (world st') = document (world st)
    /\ (forall r, r < n ->
          element_of (world st') r = element_of (world st) r)
    /\ (forall config, platform config = grok ->
          extractSourceCode n config st'
          = (Return (Js.trim sourceCode), st')).
Proof.
  intros Hf Hw Hs n.
  destruct (grokContainerWorld_frame sourceCode (world st) Hw Hs)
    as [E [HW [HE [H0 [H1 [H2 H3]]]]]].
  fold n in HW, HE, H0, H1, H2, H3.
  set (st' := set_world (grokContainerWorld sourceCode (world st)) st).
  assert (Hworld : world st' = grokContainerWorld sourceCode (world st))
    by (unfold st'; now destruct st).
  assert (Hchain : chain_of (world st') n
                   = [Node n [Node (S n) [Node (S (S n)) [Text sourceCode]];
                              Node (S (S (S n))) []]]).
  { rewrite Hworld, HW. rewrite (chain_of_frame_fresh n) by (exact Hw || lia).
    cbn [flat_map chains app find chain_isRef isRef]. now norm_eqb. }
  assert (Hcode : node_of (world st') (S (S n))
                  = Some (Node (S (S n)) [Text sourceCode])).
  { unfold node_of. rewrite Hworld, HW.
    rewrite (chain_of_frame_fresh n) by (exact Hw || lia).
    cbn [flat_map chains app find chain_isRef isRef]. norm_eqb.
    cbn [find chain_isRef isRef]. norm_eqb. reflexivity. }
  exists st', (Node n [Node (S n) [Node (S (S n)) [Text sourceCode]];
                       Node (S (S (S n))) []]).
  split; [now apply createGrokDiagramContainer_world|].
  split; [unfold node_of; now rewrite Hchain|].
  split.
  { exists n, (S n), (Node (S (S n)) [Text sourceCode]),
      [Node (S (S (S n))) []].
    split; [reflexivity|]. rewrite Hworld, HW, !element_of_frame, H1.
    split; [reflexivity|]. split.
    - exists (S (S n)), [Text sourceCode]. rewrite element_of_frame, H2.
      repeat split.
    - reflexivity. }
  split; [reflexivity|].
  unfold visible. rewrite Hworld, HW, !element_of_frame, H0, H1.
  split; [reflexivity|]. split; [reflexivity|].
  split; [reflexivity|]. split.
  { intros r Hr. rewrite element_of_frame.
    now rewrite (lookup_fresh n) by (apply HE || exact Hr). }
  intros config Hg.
  assert (Hf' : faults st' = []) by (unfold st'; now destruct st).
  rewrite (extractSourceCode_world _ _ _ Hf'). do 2 f_equal.
  unfold sourceOf, querySelector. rewrite Hg. cbn [Platform_eqb].
  rewrite Hchain.
  cbn [chains tl flat_map app find chain_matches matches List.rev
       matches_compound forallb matches_simple matches_ancestors].
  rewrite Hworld, HW, !element_of_frame, H1, H2.
  cbn [localName String.eqb Ascii.eqb Bool.eqb andb orb chain_ref].
  unfold textContent_of. rewrite <- HW, <- Hworld, Hcode. reflexivity.
Qed.

Lemma grok_container_holds_source_witness :
  (faults exampleState = []
   /\ wellFormed (world exampleState) = true
   /\ "graph LR" <> "")
  /\ exists st' container,
       createGrokDiagramContainer "graph LR" exampleState
       = (Return 8, st')
       /\ node_of (world st') 8 = Some container
       /\ holdsSource (world st') container "graph LR".
Proof.
  assert (H1 : faults exampleState = []) by reflexivity.
  assert (H2 : wellFormed (world exampleState) = true) by reflexivity.
  assert (H3 : "graph LR" <> "") by discriminate.
  split; [repeat split; assumption|].
  destruct (grok_container_holds_source exampleState "graph LR" H1 H2 H3)
    as [st' [container [Hr [Hn [Hh _]]]]].
  exists st', container. repeat split; assumption.
Defined.

(** ** What the cleanup leaves in place *)








Section CleanupKeeps.

Variables (renderId : string) (w0 : World) (r : Ref).





End CleanupKeeps.



(** What [querySelectorAll] returns matches the subject of the selector. *)
Lemma querySelectorAll_subject w cs c r :
  In r (querySelectorAll w (cs ++ [c])) ->
  forallb (matches_simple (element_of w r)) c = true.
Proof.
  unfold querySelectorAll. intros Hin.
  apply refs_of_filter_In in Hin as [ch [Hch [Hm Hr]]].
  destruct ch as [|[r' ks| |] up]; try discriminate. injection Hr as ->.
  unfold chain_matches, matches in Hm. rewrite rev_app_distr in Hm.
  cbn [List.rev app] in Hm. apply andb_true_iff in Hm as [Hm _].
  exact Hm.
Qed.

(** X13. The scan and the predicate agree.  With detection by content, and
    with detection by class name when the subject of the code block
    selector asks for the class [language-mermaid], the elements that
    [findUnprocessedMermaidBlocks] returns are the elements that the code
    block selector matches in the document and that [isMermaidCodeBlock]
    accepts. *)
Theorem scan_agrees_with_predicate
  (w : World) (config : PlatformConfig) (el : Ref) :
  detection config = contentBased
  \/ (detection config = className
      /\ requiresMermaidClass (codeBlockSelector config)) ->
  In el (findUnprocessedMermaidBlocks w config)
  <-> In el (querySelectorAll w (codeBlockSelector config))
      /\ isMermaidCodeBlock w el config = true.
Proof.
  unfold findUnprocessedMermaidBlocks, isMermaidCodeBlock.
  intros [Hd|[Hd [cs [c [Hsel Hc]]]]]; rewrite Hd.
  - rewrite filter_In. reflexivity.
  - rewrite filter_In. split.
    + intros [Hin Hp]. split; [exact Hin|].
      destruct (isSome (closest w el PROCESSED)); [discriminate|].
      rewrite Hsel in Hin. apply querySelectorAll_subject in Hin.
      rewrite forallb_forall in Hin. exact (Hin _ Hc).
    + intros [Hin Hp]. split; [exact Hin|].
      now destruct (isSome (closest w el PROCESSED)).
Qed.

Lemma scan_agrees_with_predicate_witness :
  In 3 (findUnprocessedMermaidBlocks examplePage chatgptConfig)
  <-> In 3 (querySelectorAll examplePage (codeBlockSelector chatgptConfig))
      /\ isMermaidCodeBlock examplePage 3 chatgptConfig = true.
Proof.
  apply (scan_agrees_with_predicate examplePage chatgptConfig 3).
  right. split; [reflexivity|].
  exists [[Tag "pre"]], [Tag "code"; Class "language-mermaid"].
  split; [reflexivity|]. simpl. tauto.
Defined.

Lemma errorElementWorld_frame parsedError base :
  old (nextRef base) base ->
  let n := nextRef base in
  exists E,
    errorElementWorld parsedError base
    = frame [Node n
               [Node (S n)
                  (if String.eqb (userMessage parsedError) "" then []
                   else [Text (userMessage parsedError)]);
                Node (S (S n))
                  match details parsedError with
                  | Some (String c r) => [Text (String c r)]
                  | _ => []
                  end;
                Node (S (S (S n))) [Text "Check the source code below"]]]
        (S (S (S (S n)))) E base
    /\ fresh n [] E
    /\ lookup (E ++ elements base) (S (S n))
       = {| localName := "div";
            attributes := [("class", "mpr-error-details")];
            display := match details parsedError with
                       | Some (String c r) => ""
                       | _ => "none"
                       end |}.
Proof.
  intros Ho n.
  destruct parsedError as [um [[|c r]|] oe]; cbn [userMessage details];
  (eexists; split;
   [ match goal with
     | |- errorElementWorld ?pe base = _ =>
         replace (errorElementWorld pe base)
           with (errorElementWorld pe (frame [] n [] base))
           by (unfold n; now rewrite frame_base)
     end;
     unfold errorElementWorld, setClassName, setAttribute, setDisplay;
     cbn [userMessage details]; cbv zeta;
     repeat frame_step n;
     destruct (String.eqb um ""); eval_locals; reflexivity
   | split;
     [ split; [constructor|]; repeat constructor; cbn [fst]; lia
     | cbn [app lookup]; norm_eqb; reflexivity ] ]).
Qed.

(** X14. The panel that [createErrorElement] builds, when no call raises:
    it reads the user message, the details and the hint, in this order,
    and nothing of the original error text; its details line is shown
    with the details when there are some and hidden when they are missing
    or empty; and it is built outside the document, which stays as it
    is with the elements it has. *)
Theorem error_panel_shows_details (st : State) (parsedError : ParsedError) :
  faults st = [] ->
  wellFormed (world st) = true ->
  let n := nextRef (world st) in
  let text := match details parsedError with Some d => d | None => "" end in
  exists st',
    createErrorElement parsedError st = (Return n, st')
    /\ textContent_of (world st') n
       = (userMessage parsedError ++ text
          ++ "Check the source code below")%string
    /\ textContent_of (world st') (S (S n)) = text
    /\ display (element_of (world st') (S (S n)))
       = (if String.eqb text "" then "none" else "")
    /\ document (world st') = document (world st)
    /\ (forall r, r < n ->
          element_of (world st') r = element_of (world st) r).
Proof.
  intros Hf Hw n text.
  destruct (errorElementWorld_frame parsedError (world st) Hw)
    as [E [HW [HE H2]]].
  fold n in HW, HE, H2.
  set (st' := set_world (errorElementWorld parsedError (world st)) st).
  assert (Hworld : world st' = errorElementWorld parsedError (world st))
    by (unfold st'; now destruct st).
  exists st'. split; [now apply createErrorElement_world|].
  rewrite Hworld, HW. unfold textContent_of, node_of.
  rewrite !(chain_of_frame_fresh n) by (exact Hw || lia).
  cbn [flat_map chains app find chain_isRef isRef]. norm_eqb.
  cbn [find chain_isRef isRef hd_error]. norm_eqb.
  rewrite !element_of_frame, H2.
  split; [|split; [|split; [|split]]].
  - unfold text.
    destruct (String.eqb_spec (userMessage parsedError) "") as [->|_];
      destruct (details parsedError) as [[|c r]|]; reflexivity.
  - unfold text.
    destruct (String.eqb (userMessage parsedError) "");
      destruct (details parsedError) as [[|c r]|]; cbn;
      norm_eqb; reflexivity.
  - unfold text. now destruct (details parsedError) as [[|c r]|].
  - reflexivity.
  - intros r Hr. rewrite element_of_frame.
    now rewrite (lookup_fresh n) by (apply HE || exact Hr).
Qed.

Lemma error_panel_shows_details_witness :
  exists st',
    createErrorElement
      {| userMessage := "Failed to render diagram";
         details := Some "Syntax error on line 3";
         originalError := "Parse error on line 3" |} exampleState
    = (Return 8, st')
    /\ textContent_of (world st') 8
       = "Failed to render diagramSyntax error on line 3Check the source code below"
    /\ textContent_of (world st') 10 = "Syntax error on line 3"
    /\ display (element_of (world st') 10) = ""
    /\ document (world st') = document (world exampleState)
    /\ (forall r, r < 8 ->
          element_of (world st') r = element_of (world exampleState) r).
Proof.
  apply (error_panel_shows_details exampleState
           {| userMessage := "Failed to render diagram";
              details := Some "Syntax error on line 3";
              originalError := "Parse error on line 3" |});
    reflexivity.
Defined.

(** ** Where the commit puts the artifact *)

Lemma substitute_gone wrapper T t :
  absent wrapper T -> isRef wrapper t = false ->
  absent wrapper (substitute wrapper T t).
Proof.
  intros HT. induction t as [r0 ks IH| |] using Tree_induction; intros Hr;
    [|intros []|intros []].
  cbn [substitute]. apply absent_Node. split.
  - cbn in Hr. now apply Nat.eqb_neq in Hr.
  - rewrite Forall_forall in *. intros k' Hk'.
    apply in_map_iff in Hk' as [k [<- Hk]].
    destruct (isRef wrapper k) eqn:E; [exact HT|]. now apply IH.
Qed.

Lemma documentRefs_node w r :
  In r (documentRefs w) -> exists ks, node_of w r = Some (Node r ks).
Proof.
  intros Hin. unfold documentRefs in Hin.
  apply refs_of_In in Hin as [ch [Hch Href]].
  apply chain_ref_isRef in Href.
  unfold node_of, chain_of, all_chains. rewrite find_app.
  destruct (find (chain_isRef r) (document_chains w)) as [c|] eqn:E.
  - apply find_some in E as [_ E].
    destruct c as [|[r' ks| |] up]; try discriminate.
    cbn in E. apply Nat.eqb_eq in E. subst r'. now exists ks.
  - apply (find_none _ _ E) in Hch. congruence.
Qed.

Lemma documentRefs_below w r d :
  document w = Some d -> In r (documentRefs w) -> isRef r d = false ->
  below r d = true.
Proof.
  intros Hd Hin Hr. unfold documentRefs, document_chains in Hin.
  rewrite Hd in Hin. apply refs_of_In in Hin as [ch [Hch Href]].
  apply chain_ref_isRef in Href.
  assert (H : isRef r d || below r d = true).
  { apply (find_chains_some _ _ []). intros Hn.
    apply (find_none _ _ Hn) in Hch. congruence. }
  now rewrite Hr in H.
Qed.

(** The document once the container [c] has taken the place of
    [wrapper]. *)
Lemma replaceWith_document n wrapper c ks k E base :
  old n base -> wrapper < n -> n <= c ->
  In wrapper (documentRefs base) ->
  existsb (isRef wrapper) (detached base) = false ->
  document (replaceWith wrapper c (frame [Node c ks] k E base))
  = if isDocumentElement base wrapper then Some (Node c ks)
    else option_map (substitute wrapper (Node c ks)) (document base).
Proof.
  intros Ho Hw Hc Hin Hdet. set (T := Node c ks).
  set (W := frame [T] k E base).
  assert (HT : node_of W c = Some T).
  { unfold node_of, W. rewrite (chain_of_frame_fresh n) by assumption.
    cbn [flat_map app]. unfold T. now rewrite find_app, find_T. }
  assert (HdW : existsb (isRef wrapper) (detached W) = false).
  { unfold W, frame. cbn [detached app existsb isRef T].
    replace (c =? wrapper) with false
      by (symmetry; apply Nat.eqb_neq; lia).
    exact Hdet. }
  assert (Hu : unlink c W = frame [] k E base).
  { unfold W. rewrite (unlink_frame n) by assumption.
    unfold T. cbn [flat_map app isRef]. now rewrite Nat.eqb_refl. }
  destruct (documentRefs_node _ _ Hin) as [ko Hno].
  assert (Hno' : node_of (frame [] k E base) wrapper
                 = Some (Node wrapper ko)).
  { rewrite <- Hno. now apply node_of_shape. }
  unfold replaceWith. rewrite HdW, HT. cbv zeta. rewrite Hu, Hno'.
  reflexivity.
Qed.

(** The container is in the document then, and the wrapper is not. *)
Lemma replaceWith_placed n wrapper c ks k E base :
  old n base -> wrapper < n -> n <= c ->
  Forall (fun x => n <= x) (tree_refs (Node c ks)) ->
  In wrapper (documentRefs base) ->
  existsb (isRef wrapper) (detached base) = false ->
  let w' := replaceWith wrapper c (frame [Node c ks] k E base) in
  In c (documentRefs w') /\ ~ In wrapper (documentRefs w').
Proof.
  intros Ho Hw Hc Hfresh Hin Hdet w'.
  rewrite !documentRefs_tree. unfold w'.
  rewrite (replaceWith_document n) by assumption.
  assert (Habs : absent wrapper (Node c ks)).
  { intros H. rewrite Forall_forall in Hfresh. apply Hfresh in H. lia. }
  unfold isDocumentElement.
  destruct (document base) as [d|] eqn:Ed.
  - destruct (isRef wrapper d) eqn:Hr.
    + split; [now left|exact Habs].
    + cbn [option_map].
      pose proof (documentRefs_below base wrapper d Ed Hin Hr) as Hb.
      split.
      * assert (Hc' : absent c d) by (eapply old_absent_document; eauto).
        destruct (substitute_find wrapper c ks d [] Hc' Hb) as [p Hp].
        rewrite <- (refs_of_chains _ []).
        apply find_some in Hp as [Hp1 Hp2].
        eapply refs_of_member; [exact Hp1|reflexivity].
      * now apply substitute_gone.
  - rewrite documentRefs_tree, Ed in Hin. contradiction.
Qed.

(** The artifact takes the place of the wrapper in the document. *)
Lemma placed_resolved element config svg st st' :
  faults st = [] ->
  wellFormed (world st) = true ->
  sourceOf (world st) element config <> "" ->
  let n := nextRef (world st) in
  let src := sourceOf (world st) element config in
  let wrapper := wrapperOf (world st) element config in
  attached (world st) wrapper ->
  renderMermaidBlock element config (Resolved svg) st
  = (Return (Some n), st') ->
  inPlaceOf wrapper
    (Node n
       [Node (S n) [Node (S (S n)) [Text src]];
        Node (S (S (S n)))
          (if String.eqb svg "" then [] else [Markup svg]);
        Node (S (S (S (S n)))) [Text "{ }"]])
    (world st) (world st')
  /\ In n (documentRefs (world st'))
  /\ ~ In wrapper (documentRefs (world st')).
Proof.
  intros Hf Hw Hs n src wrapper [Hin Hdet] Hrun.
  destruct (renderMermaidBlock_resolved element config svg st Hf Hs)
    as [st2 [Hr [Hworld _]]].
  assert (st2 = st') by congruence. subst st2.
  pose proof (sourceOf_element n _ _ _ Hw Hs) as Hel.
  destruct (precommit_resolved (world st) (suspendedAt st element config)
              svg Hw Hs Hel eq_refl eq_refl eq_refl) as [E [HW _]].
  cbn [s_sourceCode s_element s_config suspendedAt] in HW.
  rewrite Hworld. fold n src in HW |- *. rewrite HW. fold wrapper.
  assert (Hlt : wrapper < n) by now apply wrapperOf_old.
  split.
  { unfold inPlaceOf. now apply (replaceWith_document n). }
  apply (replaceWith_placed n); auto.
  destruct (String.eqb svg "");
    repeat first [apply Forall_nil | apply Forall_cons
                 | progress cbn [tree_refs flat_map app] | lia].
Qed.

Lemma placed_rejected element config error message st st' :
  faults st = [] ->
  wellFormed (world st) = true ->
  sourceOf (world st) element config <> "" ->
  printable error = Some message ->
  let n := nextRef (world st) in
  let src := sourceOf (world st) element config in
  let parsedError := firstPattern ERROR_PATTERNS message in
  let base := commitBase st (Rejected error) in
  let wrapper := wrapperOf base element config in
  attached base wrapper ->
  renderMermaidBlock element config (Rejected error) st
  = (Return (Some n), st') ->
  inPlaceOf wrapper
    (Node n
       [Node (S n) [Node (S (S n)) [Text src]];
        Node (S (S (S n)))
          [Node (4 + n)
             [Node (5 + n) [Text "Failed to render diagram"];
              Node (6 + n)
                match details parsedError with
                | Some (String c r) => [Text (String c r)]
                | _ => []
                end;
              Node (7 + n) [Text "Check the source code below"]]];
        Node (8 + n) [Text PLAY_ICON]])
    base (world st')
  /\ In n (documentRefs (world st'))
  /\ ~ In wrapper (documentRefs (world st')).
Proof.
  intros Hf Hw Hs Hp n src parsedError base wrapper [Hin Hdet] Hrun.
  destruct (renderMermaidBlock_rejected element config error message st
              Hf Hs Hp) as [st2 [Hr [Hworld _]]].
  assert (st2 = st') by congruence. subst st2.
  pose proof (sourceOf_element n _ _ _ Hw Hs) as Hel.
  assert (Hmsg : userMessage parsedError <> "")
    by (unfold parsedError; rewrite userMessage_firstPattern; discriminate).
  destruct (precommit_rejected (world st) (suspendedAt st element config)
              parsedError Hw Hs Hmsg Hel eq_refl eq_refl eq_refl)
    as [E [HW [Ho' _]]].
  cbn [s_sourceCode s_element s_config s_uniqueId suspendedAt] in HW, Ho'.
  change (cleanupWorld _ (world st)) with base in HW, Ho'.
  rewrite Hworld. fold n src parsedError in HW |- *. rewrite HW.
  fold wrapper.
  replace (userMessage parsedError) with "Failed to render diagram"
    by (unfold parsedError; now rewrite userMessage_firstPattern).
  assert (Hlt : wrapper < n) by now apply wrapperOf_old.
  split.
  { unfold inPlaceOf. now apply (replaceWith_document n). }
  apply (replaceWith_placed n); auto.
  destruct (details parsedError) as [[|c r]|];
    repeat first [apply Forall_nil | apply Forall_cons
                 | progress cbn [tree_refs flat_map app Nat.add] | lia].
Qed.

(** C1, as amended.  When no call raises and the error of a rejected
    render can be printed: a candidate whose extracted, trimmed source text
    is empty gives no artifact and leaves the state as it is; for a
    candidate whose extracted text [src] is not empty, [renderMermaidBlock]
    returns the container, which carries the processed marker and holds,
    in its source region, a [code] element marked [language-mermaid] whose
    text content is [src] exactly; the source region is hidden when the
    render succeeded and shown when the render failed.  The artifact is
    committed: when the wrapper of the candidate has a parent in the
    document (after the cleanup, when the render was rejected), the
    document is the one of before with the artifact where the wrapper was;
    the container is in the document and the wrapper is not. *)
Theorem source_preserved
  (st : State) (element : Ref) (config : PlatformConfig) (settled : Settled) :
  faults st = [] ->
  wellFormed (world st) = true ->
  (forall error, settled = Rejected error -> printable error <> None) ->
  let src := sourceOf (world st) element config in
  let n := nextRef (world st) in
  let base := commitBase st settled in
  let wrapper := wrapperOf base element config in
  extractSourceCode element config st = (Return src, st)
  /\ (src = "" ->
      renderMermaidBlock element config settled st = (Return None, st))
  /\ (src <> "" ->
      exists st' artifact region,
        renderMermaidBlock element config settled st
        = (Return (Some n), st')
        /\ node_of (world st') n = Some artifact
        /\ carriesProcessedMarker (world st') artifact
        /\ holdsSource (world st') artifact src
        /\ sourceRegionOf artifact = Some region
        /\ visible (world st') region
           = match settled with
             | Resolved _ => false
             | Rejected _ => true
             end
        /\ (attached base wrapper ->
            inPlaceOf wrapper artifact base (world st')
            /\ In n (documentRefs (world st'))
            /\ ~ In wrapper (documentRefs (world st')))).
Proof.
  intros Hf Hw Hp src n base wrapper.
  split; [now apply extractSourceCode_world|].
  split; [now apply renderMermaidBlock_empty|].
  intros Hs. destruct settled as [svg|error].
  - destruct (artifact_resolved element config svg st Hf Hw Hs)
      as [st' [Hr [Hn [H0 [H1 [H2 H3]]]]]].
    eexists st', _, (S (nextRef (world st))).
    split; [exact Hr|]. split; [exact Hn|]. split.
    { cbn [carriesProcessedMarker]. now rewrite H0. }
    split; [apply holdsSource_artifact; [now rewrite H1|exact H2]|].
    split; [reflexivity|]. split; [unfold visible; now rewrite H1|].
    intros Ha. exact (placed_resolved _ _ _ _ _ Hf Hw Hs Ha Hr).
  - destruct (printable error) as [message|] eqn:Hm;
      [|now destruct (Hp error eq_refl)].
    destruct (artifact_rejected element config error message st Hf Hw Hs Hm)
      as [st' [Hr [Hn [H0 [H1 [H2 _]]]]]].
    eexists st', _, (S (nextRef (world st))).
    split; [exact Hr|]. split; [exact Hn|]. split.
    { cbn [carriesProcessedMarker]. now rewrite H0. }
    split; [apply holdsSource_artifact; [now rewrite H1|exact H2]|].
    split; [reflexivity|]. split; [unfold visible; now rewrite H1|].
    intros Ha. exact (placed_rejected _ _ _ _ _ _ Hf Hw Hs Hm Ha Hr).
Qed.

Lemma source_preserved_witness :
  (faults exampleState = []
   /\ wellFormed (world exampleState) = true
   /\ (forall error,
          Rejected (VError "Parse error on line 3") = Rejected error ->
          printable error <> None)
   /\ sourceOf (world exampleState) 3 chatgptConfig <> ""
   /\ attached
        (commitBase exampleState (Rejected (VError "Parse error on line 3")))
        2)
  /\ exists st' artifact region,
       renderMermaidBlock 3 chatgptConfig
         (Rejected (VError "Parse error on line 3")) exampleState
       = (Return (Some 8), st')
       /\ node_of (world st') 8 = Some artifact
       /\ carriesProcessedMarker (world st') artifact
       /\ holdsSource (world st') artifact "graph TD; A-->B;"
       /\ sourceRegionOf artifact = Some region
       /\ visible (world st') region = true
       /\ In 8 (documentRefs (world st'))
       /\ ~ In 2 (documentRefs (world st')).
Proof.
  assert (H1 : faults exampleState = []) by reflexivity.
  assert (H2 : wellFormed (world exampleState) = true) by reflexivity.
  assert (H3 : forall error,
             Rejected (VError "Parse error on line 3") = Rejected error ->
             printable error <> None)
    by (intros error H; injection H as <-; discriminate).
  assert (H4 : sourceOf (world exampleState) 3 chatgptConfig <> "")
    by (vm_compute; intros H; discriminate H).
  assert (H5 : attached
                 (commitBase exampleState
                    (Rejected (VError "Parse error on line 3"))) 2)
    by (vm_compute; tauto).
  split; [exact (conj H1 (conj H2 (conj H3 (conj H4 H5))))|].
  destruct (proj2 (proj2 (source_preserved exampleState 3 chatgptConfig
                            (Rejected (VError "Parse error on line 3"))
                            H1 H2 H3)) H4)
    as [st' [artifact [region [Hr [Hn [Hm [Hh [Hs [Hv Hc]]]]]]]]].
  destruct (Hc H5) as [_ [Hin Hout]].
  exists st', artifact, region.
  split; [exact Hr|]. split; [exact Hn|]. split; [exact Hm|].
  split; [exact Hh|]. split; [exact Hs|]. split; [exact Hv|].
  split; [exact Hin|exact Hout].
Defined.

(** ** The two calls of the cleanup *)



(** ** The toggle on a page with other toggles *)

Lemma dispatch_others target ls st :
  Forall (fun l => fst l <> target) ls ->
  dispatchClick target ls st = (Return ls, st).
Proof.
  induction 1 as [|[el [s r b showing]] ls Hne Hall IH]; [reflexivity|].
  cbn [dispatchClick fst] in *.
  replace (el =? target) with false by (symmetry; now apply Nat.eqb_neq).
  unfold bind. now rewrite IH.
Qed.

Lemma dispatch_last target ls s r showing st :
  Forall (fun l => fst l <> target) ls ->
  dispatchClick target (ls ++ [(target, ToggleClick s r target showing)]) st
  = (Return (ls ++ [(target, ToggleClick s r target (negb showing))]),
     exec (toggleClicked s r target showing) st).
Proof.
  induction 1 as [|[el [s0 r0 b0 showing0]] ls Hne Hall IH].
  - cbn [app dispatchClick]. rewrite Nat.eqb_refl. unfold bind, exec.
    rewrite toggleClicked_world. reflexivity.
  - cbn [app dispatchClick fst] in *.
    replace (el =? target) with false by (symmetry; now apply Nat.eqb_neq).
    unfold bind. now rewrite IH.
Qed.

Lemma click_last st ls s r b showing :
  listeners st = ls ++ [(b, ToggleClick s r b showing)] ->
  Forall (fun l => fst l <> b) ls ->
  step (Click b) st
  = set_listeners (ls ++ [(b, ToggleClick s r b (negb showing))])
      (exec (toggleClicked s r b showing) st).
Proof.
  intros Hl Hall. unfold step, exec at 1, click, bind, get. rewrite Hl.
  rewrite (dispatch_last _ _ _ _ _ _ Hall). reflexivity.
Qed.

Lemma clicks_alternate n : forall st ls s r b showing,
  s <> r ->
  listeners st = ls ++ [(b, ToggleClick s r b showing)] ->
  Forall (fun l => fst l <> b) ls ->
  let st' := run (repeat (Click b) (S n)) st in
  let shown := if Nat.even n then negb showing else showing in
  visible (world st') s = shown /\ visible (world st') r = negb shown.
Proof.
  induction n as [|n IH]; intros st ls s r b showing Hne Hl Hall.
  - cbn [repeat run fold_left Nat.even].
    rewrite (click_last _ _ _ _ _ _ Hl Hall).
    destruct (toggleClicked_visibility st s r b showing Hne) as [H1 H2].
    cbn [world set_listeners]. rewrite H1, H2.
    now rewrite Bool.negb_involutive.
  - change (repeat (Click b) (S (S n)))
      with (Click b :: repeat (Click b) (S n)).
    unfold run. cbn [fold_left]. rewrite (click_last _ _ _ _ _ _ Hl Hall).
    cbv zeta.
    destruct (IH (set_listeners (ls ++ [(b, ToggleClick s r b (negb showing))])
                    (exec (toggleClicked s r b showing) st))
                ls s r b (negb showing) Hne) as [H1 H2];
      [now destruct (exec _ st)|exact Hall|].
    unfold run in H1, H2. rewrite H1, H2.
    rewrite Nat.even_succ, <- Nat.negb_even.
    destruct (Nat.even n), showing; split; reflexivity.
Qed.

(** The listener that a render leaves: on the button of the artifact, the
    last element made, with the flag of the failure. *)
Lemma rendered_listeners element config settled st :
  faults st = [] ->
  wellFormed (world st) = true ->
  sourceOf (world st) element config <> "" ->
  (forall error, settled = Rejected error -> printable error <> None) ->
  let n := nextRef (world st) in
  let failed := match settled with
                | Rejected _ => true
                | Resolved _ => false
                end in
  let button := if failed then 8 + n else 4 + n in
  listeners (snd (renderMermaidBlock element config settled st))
  = listeners st ++ [(button, ToggleClick (S n) (3 + n) button failed)].
Proof.
  intros Hf Hw Hs Hp n failed button.
  destruct (wrapperWorld_frame (sourceOf (world st) element config)
              (world st) Hw Hs) as [E [HW _]].
  unfold renderMermaidBlock, bind.
  rewrite (start_awaiting _ _ _ Hf Hs). destruct settled as [svg|error].
  - rewrite resume_resolved by (destruct st; exact Hf).
    destruct st as [w rc ts ls os fs infl con tr fl].
    cbn [snd listeners world set_listeners set_world set_trace
         set_renderCounter s_sourceWrapper s_renderedDiv suspendedAt] in *.
    now rewrite HW.
  - destruct (printable error) as [message|] eqn:Hm;
      [|now elim (Hp error eq_refl)].
    rewrite (resume_rejected _ _ message) by (destruct st; assumption).
    destruct st as [w rc ts ls os fs infl con tr fl].
    cbn [snd listeners world set_listeners set_world set_trace set_timeouts
         set_renderCounter s_sourceWrapper s_renderedDiv suspendedAt] in *.
    rewrite HW. cbn [nextRef frame]. subst button failed n. cbv zeta.
    cbn [world].
    replace (S (S (S (S (nextRef w)))) + 4) with (8 + nextRef w) by lia.
    reflexivity.
Qed.

(** C4, as amended.  The toggle that [renderMermaidBlock] attaches (no
    call raising, the error of a rejected render printable, on a page
    whose listeners are on elements that exist, other toggles among
    them): after a render that resolved it starts with the source region
    hidden and the display region shown; after a render that was rejected
    it is built with [initialShowSource] and starts with both regions
    shown.  After every click on its button exactly one of the two
    regions is visible, the source region after the first click, the
    third, ... when the render resolved, and after the second, the fourth,
    ... when it was rejected.  [createToggleButton] itself sets both
    displays to [block] when it is built with [initialShowSource] and
    leaves them as they are when it is not. *)
Theorem toggle_visibility
  (st : State) (element : Ref) (config : PlatformConfig) (settled : Settled) :
  faults st = [] ->
  wellFormed (world st) = true ->
  sourceOf (world st) element config <> "" ->
  (forall error, settled = Rejected error -> printable error <> None) ->
  Forall (fun l => fst l < nextRef (world st)) (listeners st) ->
  let n := nextRef (world st) in
  let sourceEl := S n in
  let renderedEl := 3 + n in
  let failed := match settled with
                | Rejected _ => true
                | Resolved _ => false
                end in
  (exists st' button,
     renderMermaidBlock element config settled st = (Return (Some n), st')
     /\ listeners st'
        = listeners st
          ++ [(button, ToggleClick sourceEl renderedEl button failed)]
     /\ visible (world st') sourceEl = failed
     /\ visible (world st') renderedEl = true
     /\ forall clicks,
          let st'' := run (repeat (Click button) (S clicks)) st' in
          let shown := if Nat.even clicks then negb failed else failed in
          visible (world st'') sourceEl = shown
          /\ visible (world st'') renderedEl = negb shown)
  /\ (forall s r initial,
         s < n -> r < n ->
         let built := exec (createToggleButton s r initial) st in
         display (element_of (world built) s)
         = (if initial then "block" else display (element_of (world st) s))
         /\ display (element_of (world built) r)
            = (if initial then "block"
               else display (element_of (world st) r))).
Proof.
  intros Hf Hw Hs Hp Hl n sourceEl renderedEl failed.
  split; [|intros s r initial Hsn Hrn; now apply createToggleButton_displays].
  pose proof (rendered_listeners element config settled st Hf Hw Hs Hp)
    as Hls.
  fold n in Hls. cbv zeta in Hls. fold failed in Hls.
  set (button := if failed then 8 + n else 4 + n) in *.
  assert (Hothers : Forall (fun l => fst l <> button) (listeners st)).
  { eapply Forall_impl; [|exact Hl]. intros l Hlt. cbv beta in Hlt.
    fold n in Hlt. unfold button, failed. destruct settled; lia. }
  assert (Hne : sourceEl <> renderedEl) by (subst sourceEl renderedEl; lia).
  destruct settled as [svg|error].
  - destruct (artifact_resolved element config svg st Hf Hw Hs)
      as [st' [Hr [_ [_ [H1 [_ H3]]]]]].
    rewrite Hr in Hls. cbn [snd] in Hls.
    exists st', button. split; [exact Hr|]. split; [exact Hls|].
    unfold visible. fold n in H1, H3.
    change (S (S (S n))) with renderedEl in H3. fold sourceEl in H1.
    rewrite H1, H3. split; [reflexivity|]. split; [reflexivity|].
    intros clicks.
    exact (clicks_alternate clicks st' _ _ _ _ false Hne Hls Hothers).
  - destruct (printable error) as [message|] eqn:Hm;
      [|now elim (Hp error eq_refl)].
    destruct (artifact_rejected element config error message st Hf Hw Hs Hm)
      as [st' [Hr [_ [_ [H1 [_ [H3 _]]]]]]].
    rewrite Hr in Hls. cbn [snd] in Hls.
    exists st', button. split; [exact Hr|]. split; [exact Hls|].
    unfold visible. fold n in H1, H3.
    change (S (S (S n))) with renderedEl in H3. fold sourceEl in H1.
    rewrite H1, H3. split; [reflexivity|]. split; [reflexivity|].
    intros clicks.
    exact (clicks_alternate clicks st' _ _ _ _ true Hne Hls Hothers).
Qed.

Lemma toggle_visibility_witness :
  (faults renderedState = []
   /\ wellFormed (world renderedState) = true
   /\ sourceOf (world renderedState) 6 chatgptConfig <> ""
   /\ (forall error,
          Rejected (VError "Parse error on line 3") = Rejected error ->
          printable error <> None)
   /\ Forall (fun l => fst l < nextRef (world renderedState))
        (listeners renderedState))
  /\ exists st' button,
       renderMermaidBlock 6 chatgptConfig
         (Rejected (VError "Parse error on line 3")) renderedState
       = (Return (Some 13), st')
       /\ listeners st'
          = listeners renderedState
            ++ [(button, ToggleClick 14 16 button true)]
       /\ visible (world st') 14 = true
       /\ visible (world st') 16 = true
       /\ visible (world (run [Click button] st')) 14 = false
       /\ visible (world (run [Click button] st')) 16 = true.
Proof.
  assert (H1 : faults renderedState = []) by reflexivity.
  assert (H2 : wellFormed (world renderedState) = true) by reflexivity.
  assert (H3 : sourceOf (world renderedState) 6 chatgptConfig <> "")
    by (vm_compute; intros H; discriminate H).
  assert (H4 : forall error,
             Rejected (VError "Parse error on line 3") = Rejected error ->
             printable error <> None)
    by (intros error H; injection H as <-; discriminate).
  assert (H5 : Forall (fun l => fst l < nextRef (world renderedState))
                 (listeners renderedState))
    by (repeat constructor; simpl; lia).
  split; [exact (conj H1 (conj H2 (conj H3 (conj H4 H5))))|].
  destruct (proj1 (toggle_visibility renderedState 6 chatgptConfig
                     (Rejected (VError "Parse error on line 3"))
                     H1 H2 H3 H4 H5))
    as [st' [button [Hr [Hl [Hs [Hd Hc]]]]]].
  exists st', button. split; [exact Hr|]. split; [exact Hl|].
  split; [exact Hs|]. split; [exact Hd|]. exact (Hc 0).
Defined.

(** ** A call that raises in the render *)

Ltac render_raises :=
  cbn [repeat app];
  unfold renderMermaidBlock_resume, createPreservingWrapper, mermaid_render;
  run_statements;
  erewrite renderFailed_world by reflexivity;
  run_statements;
  rewrite attachAndCommit_world by reflexivity;
  reflexivity.

(** [mermaid.render] raising at its call, or the assignment of the markup
    raising, is a render rejected with what was raised. *)
Lemma render_raises_rejected element config svg st j :
  sourceOf (world st) element config <> "" ->
  faults st = repeat false j ++ [true] ->
  j = extractionCalls config + 8 \/ j = extractionCalls config + 9 ->
  exists result raised rejected,
    renderMermaidBlock element config (Resolved svg) st
    = (Return result, raised)
    /\ renderMermaidBlock element config (Rejected (VError "raised"))
         (set_faults [] st)
       = (Return result, rejected)
    /\ world raised = world rejected
    /\ console raised = console rejected.
Proof.
  intros Hs Hf Hj.
  assert (Hs' : sourceOf (world (set_faults [] st)) element config <> "")
    by (destruct st; exact Hs).
  assert (Hf' : faults (set_faults [] st) = []) by now destruct st.
  assert (Erej : renderMermaidBlock element config
                   (Rejected (VError "raised")) (set_faults [] st)
                 = renderMermaidBlock_resume
                     (suspendedAt (set_faults [] st) element config)
                     (Rejected (VError "raised"))
                     (snd (renderMermaidBlock_start element config
                             (set_faults [] st)))).
  { unfold renderMermaidBlock, bind.
    now rewrite (start_awaiting _ _ _ Hf' Hs'). }
  rewrite Erej. clear Erej.
  rewrite (start_awaiting _ _ _ Hf' Hs'). cbn [snd].
  rewrite (resume_rejected _ _ "raised") by (destruct st; reflexivity).
  unfold renderMermaidBlock, renderMermaidBlock_start.
  unfold bind at 1. unfold try_catch at 1. unfold bind at 1.
  unfold extractionCalls in Hj.
  destruct (Platform_eqb (platform config) grok) eqn:Hp.
  - destruct j as [|j]; [lia|].
    rewrite (extractSourceCode_grok _ _ _ _ Hp Hf), (eqb_empty_false _ Hs).
    destruct st as [w rc ts ls os fs infl con tr fl]. cbn [faults] in Hf.
    cbn [world set_faults] in *. clear Hf Hs Hs' Hf'.
    destruct Hj as [Hj|Hj]; injection Hj as ->;
      (eexists _, _, _; split; [render_raises|]);
      (split; [reflexivity|]); split; reflexivity.
  - rewrite (extractSourceCode_plain _ _ _ Hp), (eqb_empty_false _ Hs).
    destruct st as [w rc ts ls os fs infl con tr fl]. cbn [faults] in Hf.
    subst fl. cbn [world set_faults] in *. clear Hs Hs' Hf'.
    cbn [Nat.add] in Hj. destruct Hj as [->| ->];
      (eexists _, _, _; split; [render_raises|]);
      (split; [reflexivity|]); split; reflexivity.
Qed.

(** What is caught at the boundary of the candidate is logged there, and
    nothing else is. *)
Lemma single_fault_logged element config svg st j :
  sourceOf (world st) element config <> "" ->
  faults st = repeat false j ++ [true] ->
  match outcomeAt config j (nextRef (world st)) with
  | None =>
      console (snd (renderMermaidBlock element config (Resolved svg) st))
      = console st ++ ["[MPR] Render error:"]
  | Some _ =>
      console (snd (renderMermaidBlock element config (Resolved svg) st))
      = console st
  end.
Proof.
  intros Hs Hf. unfold renderMermaidBlock, renderMermaidBlock_start.
  unfold bind, try_catch.
  unfold outcomeAt, extractionCalls.
  destruct (Platform_eqb (platform config) grok) eqn:Hp.
  - destruct j as [|j].
    + destruct (extractSourceCode_raises element config st [] Hp Hf)
        as [st' Hx].
      rewrite Hx. cbn. unfold extractSourceCode in Hx. rewrite Hp in Hx.
      unfold Document.querySelector, bind, mayRaise in Hx.
      rewrite Hf in Hx. cbn in Hx. injection Hx as <-. now destruct st.
    + rewrite (extractSourceCode_grok _ _ _ _ Hp Hf), (eqb_empty_false _ Hs).
      destruct st as [w rc ts ls os fs infl con tr fl]. cbn [faults] in Hf.
      cbn [world set_faults console]. clear Hf Hs.
      fold (@bind (Dom.Ref * Dom.Ref * Dom.Ref) Progress).
      shell_cases j.
  - rewrite (extractSourceCode_plain _ _ _ Hp), (eqb_empty_false _ Hs).
    destruct st as [w rc ts ls os fs infl con tr fl]. cbn [faults] in Hf.
    subst fl. cbn [world console]. clear Hs.
    shell_cases j.
Qed.

(** ** Failures while a candidate is processed, and what is left *)

Lemma rejected_errorCommitted element config error message st st' :
  faults st = [] ->
  wellFormed (world st) = true ->
  sourceOf (world st) element config <> "" ->
  printable error = Some message ->
  renderMermaidBlock element config (Rejected error) st
  = (Return (Some (nextRef (world st))), st') ->
  errorCommitted st element config (world st').
Proof.
  intros Hf Hw Hs Hp Hrun.
  destruct (artifact_rejected element config error message st Hf Hw Hs Hp)
    as [st2 [Hr [Hn [_ [_ [_ [H3 [H4 _]]]]]]]].
  assert (st2 = st') by congruence. subst st2.
  unfold errorCommitted. eexists _, _. split; [exact Hn|].
  split; [reflexivity|].
  cbn [Nat.add] in H4 |- *. rewrite H3, H4.
  split; [reflexivity|]. split; [reflexivity|].
  intros Ha. exact (placed_rejected _ _ _ _ _ _ Hf Hw Hs Hp Ha Hrun).
Qed.

(** Without an artifact the document gains nothing. *)
Lemma no_artifact_document element config settled st st' :
  wellFormed (world st) = true ->
  renderMermaidBlock element config settled st = (Return None, st') ->
  incl (documentRefs (world st')) (documentRefs (world st)).
Proof.
  intros Hw Hrun.
  pose proof (Triple_renderMermaidBlock st element config settled st
                (Intact_start st Hw)) as H.
  rewrite Hrun in H. specialize (H eq_refl).
  destruct H as [base [L [k [E [extra [H1 [_ [_ [_ [_ [H6 _]]]]]]]]]]].
  rewrite H1. exact H6.
Qed.

Lemma unprintable_document element config error st st' :
  faults st = [] ->
  wellFormed (world st) = true ->
  sourceOf (world st) element config <> "" ->
  printable error = None ->
  renderMermaidBlock element config (Rejected error) st
  = (Return None, st') ->
  document (world st')
  = document (cleanupWorld (renderIdOf (S (renderCounter st))) (world st))
  /\ console st' = console st ++ ["[MPR] Render error:"].
Proof.
  intros Hf Hw Hs Hp Hrun.
  destruct (renderMermaidBlock_unprintable element config error st Hf Hs Hp)
    as [st2 [Hr [Hworld [_ [_ [Hcon _]]]]]].
  assert (st2 = st') by congruence. subst st2.
  split; [|exact Hcon]. rewrite Hworld.
  destruct (wrapperWorld_frame (sourceOf (world st) element config)
              (world st) Hw Hs) as [E [HW [HE _]]].
  rewrite HW.
  match goal with
  | |- context [cleanupWorld ?id (frame ?L ?k E (world st))] =>
      assert (HL : fresh (nextRef (world st)) L E)
        by (split; [|apply HE];
            repeat first [ apply Forall_nil | apply Forall_cons
                         | progress cbn [tree_refs flat_map app] | lia ]);
      rewrite (proj1 (cleanupWorld_frame (nextRef (world st)) id L k E
                        (world st) Hw HL))
  end.
  reflexivity.
Qed.

(** C8, amended.  Nothing that is raised while a candidate is processed
    propagates, whatever raises and however the render settles, and the
    sweep goes on to the other candidates.  When one call of the page
    raises and the render resolves: raised in the extraction, the
    construction of the shell, the attachment of the toggle or the commit,
    it is caught at the boundary of the candidate, it is logged, [null] is
    returned and the document gains nothing; raised by [mermaid.render]
    or by the assignment of its markup, it is caught by the handler of the
    render, and the artifact is returned all the same, as for a render
    that is rejected.  When the render is rejected and no call of the page
    raises: when the error can be printed the artifact is returned, with
    the presentation of the error in its display region, and committed in
    the place of the wrapper when the wrapper has a parent in the
    document; when the error cannot be printed, the conversion raises in
    the handler, which is caught at the boundary of the candidate: it is
    logged, [null] is returned and the document is the one that the
    cleanup left. *)
Theorem failure_contained :
  (forall element config settled st,
      exists result st',
        renderMermaidBlock element config settled st = (Return result, st'))
  /\ (forall el cfg st0,
         exists p st',
           renderMermaidBlock_start el cfg st0 = (Return p, st'))
  /\ (forall k r st0,
         exists result st',
           renderMermaidBlock_resume k r st0 = (Return result, st')
           /\ (result = None \/ result = Some (s_container k)))
  /\ (forall cfg st0,
         processExistingBlocks cfg st0
         = (Return tt,
            fold_left
              (fun s block => exec (renderMermaidBlock_call cfg block) s)
              (findUnprocessedMermaidBlocks (world st0) cfg) st0))
  /\ (forall st element config svg j,
         wellFormed (world st) = true ->
         sourceOf (world st) element config <> "" ->
         faults st = repeat false j ++ [true] ->
         let n := nextRef (world st) in
         exists st',
           renderMermaidBlock element config (Resolved svg) st
           = (Return (outcomeAt config j n), st')
           /\ (outcomeAt config j n = None ->
               console st' = console st ++ ["[MPR] Render error:"]
               /\ incl (documentRefs (world st')) (documentRefs (world st)))
           /\ (j = extractionCalls config + 8
               \/ j = extractionCalls config + 9 ->
               outcomeAt config j n = Some n
               /\ errorCommitted st element config (world st')
               /\ console st' = console st))
  /\ (forall st element config error,
         faults st = [] ->
         wellFormed (world st) = true ->
         sourceOf (world st) element config <> "" ->
         let n := nextRef (world st) in
         exists result st',
           renderMermaidBlock element config (Rejected error) st
           = (Return result, st')
           /\ (printable error <> None ->
               result = Some n
               /\ errorCommitted st element config (world st')
               /\ console st' = console st)
           /\ (printable error = None ->
               result = None
               /\ console st' = console st ++ ["[MPR] Render error:"]
               /\ document (world st')
                  = document
                      (cleanupWorld (renderIdOf (S (renderCounter st)))
                         (world st)))).
Proof.
  split.
  { intros element config settled st. unfold renderMermaidBlock, bind.
    destruct (start_returns element config st) as [p [st1 ->]].
    destruct p as [result|k]; [now eexists _, _|].
    destruct (resume_returns k settled st1) as [result [st' [H _]]].
    now exists result, st'. }
  split; [intros; apply start_returns|].
  split; [intros; apply resume_returns|].
  split.
  { intros cfg st0. unfold processExistingBlocks, bind, readWorld, get.
    apply forEach_calls. }
  split.
  - intros st element config svg j Hw Hs Hf n.
    pose proof (single_fault element config svg st j Hs Hf) as Hres.
    pose proof (single_fault_logged element config svg st j Hs Hf) as Hlog.
    fold n in Hres, Hlog.
    destruct (renderMermaidBlock element config (Resolved svg) st)
      as [c st'] eqn:Hrun.
    cbn [fst snd] in Hres, Hlog. subst c.
    exists st'. split; [reflexivity|]. split.
    + intros Hnone. rewrite Hnone in Hlog, Hrun. split; [exact Hlog|].
      exact (no_artifact_document _ _ _ _ _ Hw Hrun).
    + intros Hj.
      destruct (render_raises_rejected element config svg st j Hs Hf Hj)
        as [result [raised [rejected [H1 [H2 [H3 H4]]]]]].
      assert (Hf0 : faults (set_faults [] st) = []) by now destruct st.
      assert (Hw0 : wellFormed (world (set_faults [] st)) = true)
        by (destruct st; exact Hw).
      assert (Hs0 : sourceOf (world (set_faults [] st)) element config <> "")
        by (destruct st; exact Hs).
      destruct (renderMermaidBlock_rejected element config
                  (VError "raised") "raised" (set_faults [] st)
                  Hf0 Hs0 eq_refl) as [st2 [Hr2 _]].
      assert (Hresult : result = Some n).
      { rewrite H2 in Hr2. injection Hr2 as -> _. now destruct st. }
      subst result.
      assert (Hsame : raised = st' /\ outcomeAt config j n = Some n).
      { rewrite Hrun in H1. injection H1 as -> ->. now split. }
      destruct Hsame as [-> Hout]. split; [exact Hout|].
      rewrite Hout in Hlog. split; [|exact Hlog].
      rewrite H3.
      assert (Hn0 : Some n = Some (nextRef (world (set_faults [] st))))
        by now destruct st.
      rewrite Hn0 in H2.
      pose proof (rejected_errorCommitted element config (VError "raised")
                    "raised" (set_faults [] st) rejected
                    Hf0 Hw0 Hs0 eq_refl H2) as Hc.
      now destruct st.
  - intros st element config error Hf Hw Hs n.
    destruct (printable error) as [message|] eqn:Hp.
    + destruct (renderMermaidBlock_rejected element config error message st
                  Hf Hs Hp) as [st' [Hr _]].
      exists (Some n), st'. split; [exact Hr|]. split; [|discriminate].
      intros _. split; [reflexivity|]. split.
      * exact (rejected_errorCommitted _ _ _ _ _ _ Hf Hw Hs Hp Hr).
      * revert Hr. unfold renderMermaidBlock, bind.
        rewrite (start_awaiting _ _ _ Hf Hs).
        rewrite (resume_rejected _ _ message) by (destruct st; assumption).
        intros H. injection H as <-. now destruct st.
    + destruct (renderMermaidBlock_unprintable element config error st
                  Hf Hs Hp) as [st' [Hr _]].
      exists None, st'. split; [exact Hr|]. split; [intros H; now elim H|].
      intros _. split; [reflexivity|].
      destruct (unprintable_document _ _ _ _ _ Hf Hw Hs Hp Hr) as [Hd Hc].
      split; [exact Hc|exact Hd].
Qed.

Lemma failure_contained_witness :
  (exists st',
     renderMermaidBlock 3 chatgptConfig (Resolved "<svg/>")
       (set_faults (repeat false 8 ++ [true]) exampleState)
     = (Return (Some 8), st')
     /\ errorCommitted
          (set_faults (repeat false 8 ++ [true]) exampleState)
          3 chatgptConfig (world st'))
  /\ (exists st',
        renderMermaidBlock 3 chatgptConfig (Resolved "<svg/>")
          (set_faults (repeat false 12 ++ [true]) exampleState)
        = (Return None, st')
        /\ console st' = ["[MPR] Render error:"])
  /\ (exists st',
        renderMermaidBlock 3 chatgptConfig (Rejected (VObject None))
          exampleState
        = (Return None, st')
        /\ console st' = ["[MPR] Render error:"]).
Proof.
  assert (Hw : wellFormed (world exampleState) = true) by reflexivity.
  assert (Hs : sourceOf (world exampleState) 3 chatgptConfig <> "")
    by (vm_compute; intros H; discriminate H).
  destruct failure_contained as [_ [_ [_ [_ [Hfault Hrejected]]]]].
  split; [|split].
  - destruct (Hfault (set_faults (repeat false 8 ++ [true]) exampleState)
                3 chatgptConfig "<svg/>" 8 Hw Hs eq_refl)
      as [st' [Hr [_ Hc]]].
    exists st'. split; [exact Hr|].
    exact (proj1 (proj2 (Hc (or_introl eq_refl)))).
  - destruct (Hfault (set_faults (repeat false 12 ++ [true]) exampleState)
                3 chatgptConfig "<svg/>" 12 Hw Hs eq_refl)
      as [st' [Hr [Hn _]]].
    exists st'. split; [exact Hr|]. exact (proj1 (Hn eq_refl)).
  - destruct (Hrejected exampleState 3 chatgptConfig (VObject None)
                eq_refl Hw Hs)
      as [result [st' [Hr [_ Hn]]]].
    destruct (Hn eq_refl) as [-> [Hc _]].
    exists st'. split; [exact Hr|exact Hc].
Defined.
